(** * CoH: the OPT serving loop ([coh/models/opt/opt_serve.py])

    A shallow embedding of the request-level operations of [OPTServer]
    ([loglikelihood], [loglikelihood_rolling], [generate], [greedy_until])
    and of the three jitted executors they call, followed by the properties
    of the batches they build, of the sliding window, of the generation
    loop and of the threading of [sharded_rng].

    Conventions.
    - A NumPy array of shape (batch, seq) is a list of rows; token ids and
      mask entries are integers ([Z]).
    - [FLAGS.input_length] and [FLAGS.seq_length] are lengths and are kept
      in [nat]; slice bounds are computed in [Z] because the source uses
      negative bounds ([[:, :-1]], [[:, -seq_length:]]).
    - Floating-point values are kept abstract: the executor's number type
      and its operations are fields of the [Backend] record.
    - The transformer ([hf_model]), [JaxRNG] and the HuggingFace tokenizer
      live outside this file of the repository; they are parameters. *)

From Stdlib Require Import String Ascii ZArith List Bool Lia Arith PeanoNat.
Import ListNotations.

(* ------------------------------------------------------------------ *)
(** ** NumPy: slicing, concatenation, constant arrays *)

Module Np.

Definition Row := list Z.
Definition Matrix := list Row.

(** Normalisation of one slice bound against an axis of length [len]:
    a negative bound counts from the end, and every bound is clipped
    to [0, len]. *)
Definition clip_index (len k : Z) : Z :=
  if (k <? 0)%Z then Z.max 0 (len + k) else Z.min len k.

(** [l[start:stop]] with optional bounds. *)
Definition slice {A : Type} (start stop : option Z) (l : list A) : list A :=
  let len := Z.of_nat (length l) in
  let a := match start with None => 0%Z | Some k => clip_index len k end in
  let b := match stop with None => len | Some k => clip_index len k end in
  firstn (Z.to_nat (b - a)) (skipn (Z.to_nat a) l).

(** [m[:, start:stop]]. *)
Definition slice_cols {A : Type} (start stop : option Z)
  (m : list (list A)) : list (list A) :=
  map (slice start stop) m.

(** [m.shape[1]] of a non-empty batch. *)
Definition width {A : Type} (m : list (list A)) : nat :=
  match m with
  | [] => 0
  | r :: _ => length r
  end.

(** [np.full((rows, cols), v)]; [np.zeros] and [np.ones] are instances. *)
Definition full (rows cols : nat) (v : Z) : Matrix :=
  repeat (repeat v cols) rows.

Definition zeros_like (m : Matrix) : Matrix := map (map (fun _ => 0%Z)) m.
Definition ones_like (m : Matrix) : Matrix := map (map (fun _ => 1%Z)) m.

(** [np.concatenate([a, b], axis=1)]: the arrays must have the same
    number of rows, otherwise NumPy raises. *)
Fixpoint concat_cols (a b : Matrix) : option Matrix :=
  match a, b with
  | [], [] => Some []
  | ra :: a', rb :: b' =>
      match concat_cols a' b' with
      | Some m => Some ((ra ++ rb) :: m)
      | None => None
      end
  | _, _ => None
  end.

(** [m[:, :stop] = v] on a copy of [m]. *)
Definition assign_cols_until (stop : Z) (v : Z) (m : Matrix) : Matrix :=
  map (fun r =>
         let k := Z.to_nat (clip_index (Z.of_nat (length r)) stop) in
         repeat v k ++ skipn k r) m.

(** A value that is either a Python scalar or a one-dimensional array:
    the accumulators of the sliding window start as scalars and become
    arrays after the first window. *)
Inductive Val (A : Type) : Type :=
| Scalar (a : A)
| Arr (l : list A).
Arguments Scalar {A} a.
Arguments Arr {A} l.

Fixpoint map2 {A B C : Type} (f : A -> B -> C) (l : list A) (l' : list B)
  : list C :=
  match l, l' with
  | a :: t, b :: t' => f a b :: map2 f t t'
  | _, _ => []
  end.

(** Element-wise binary operation on one-dimensional arrays with NumPy
    broadcasting of a length-one operand; any other shape mismatch
    raises. [inplace] forbids a result wider than the left operand. *)
Definition broadcast2 {A : Type} (inplace : bool) (f : A -> A -> A)
  (l r : list A) : option (list A) :=
  if length l =? length r then Some (map2 f l r)
  else match l, r with
       | _, [y] => Some (map (fun x => f x y) l)
       | [x], _ => if inplace then None else Some (map (f x) r)
       | _, _ => None
       end.

(** [total += x] where [x] is an array. *)
Definition iadd {A : Type} (f : A -> A -> A) (total : Val A) (x : list A)
  : option (Val A) :=
  match total with
  | Scalar a => Some (Arr (map (f a) x))
  | Arr t =>
      match broadcast2 true f t x with
      | Some l => Some (Arr l)
      | None => None
      end
  end.

(** [np.logical_and(x, total)]. *)
Definition logical_and (x : list bool) (total : Val bool)
  : option (Val bool) :=
  match total with
  | Scalar b => Some (Arr (map (fun v => andb v b) x))
  | Arr t =>
      match broadcast2 false andb x t with
      | Some l => Some (Arr l)
      | None => None
      end
  end.

Definition sumZ (l : list Z) : Z := fold_right Z.add 0%Z l.

End Np.

(* ------------------------------------------------------------------ *)
(** ** Python built-ins used by the server: [range], [in], [str.split] *)

Module Py.

(** [range(0, stop, step)]; a zero step raises [ValueError]. *)
Definition range_step (stop step : nat) : option (list nat) :=
  match step with
  | 0 => None
  | _ => Some (map (fun k => k * step) (seq 0 ((stop + step - 1) / step)))
  end.

(** Index of the first occurrence of [sep] in [s] ([str.find]). *)
Fixpoint find (sep s : string) : option nat :=
  if String.prefix sep s then Some 0
  else match s with
       | EmptyString => None
       | String _ s' =>
           match find sep s' with
           | Some k => Some (S k)
           | None => None
           end
       end.

(** [sep in s]. *)
Definition contains (sep s : string) : bool :=
  match find sep s with
  | Some _ => true
  | None => false
  end.

(** [s.split(sep, maxsplit=1)[0]]; an empty separator raises
    [ValueError]. *)
Definition split_head (sep s : string) : option string :=
  match sep with
  | EmptyString => None
  | _ =>
      match find sep s with
      | Some k => Some (substring 0 k s)
      | None => Some s
      end
  end.

End Py.


(* ------------------------------------------------------------------ *)
(** ** Configuration ([FLAGS]) *)

Record Flags : Type := {
  input_length : nat;
  seq_length : nat;
  do_sample : bool;
  loglikelihood_add_bos_token : bool
}.

(** The defaults of [FLAGS_DEF]. *)
Definition default_flags : Flags :=
  {| input_length := 1024;
     seq_length := 2048;
     do_sample := true;
     loglikelihood_add_bos_token := false |}.

(* ------------------------------------------------------------------ *)
(** ** The tokenizer *)

(** The vocabulary side of the tokenizer is a parameter: [encode] gives
    the token ids of a text before any padding or truncation. *)
Record Tokenizer : Type := {
  encode : string -> list Z;
  decode : list Z -> string;
  pad_token_id : Z;
  bos_token_id : Z;
  eos_token : string
}.

(** [truncation_side] / [padding_side] of a tokenizer instance:
    [prefix_tokenizer] is built with both set to "left", [tokenizer]
    with both set to "right". *)
Inductive Side : Type := SideLeft | SideRight.

Record BatchEncoding : Type := {
  input_ids : Np.Matrix;
  attention_mask : Np.Matrix
}.

Definition truncate_ids (side : Side) (n : nat) (ids : list Z) : list Z :=
  match side with
  | SideLeft => skipn (length ids - n) ids
  | SideRight => firstn n ids
  end.

Definition pad_row (side : Side) (n : nat) (fill : Z) (row : list Z)
  : list Z :=
  match side with
  | SideLeft => repeat fill (n - length row) ++ row
  | SideRight => row ++ repeat fill (n - length row)
  end.

(** One row of a padded encoding: ids padded with [pad_token_id], and the
    attention mask, 1 on tokens of the text and 0 on padding. *)
Definition padded_ids (tok : Tokenizer) (side : Side) (n : nat)
  (ids : list Z) : list Z :=
  pad_row side n (pad_token_id tok) ids.

Definition padded_mask (side : Side) (n : nat) (ids : list Z) : list Z :=
  pad_row side n 0%Z (repeat 1%Z (length ids)).

(** Modelled from the spec: the tokenizer's
    [encode(text, padding_mode, truncation_mode, max_length)] of section 6,
    whose implementation is outside [src/].  This is the call
    [tok(texts, padding="max_length", truncation=True, max_length=n,
    return_tensors="np")] on a list of texts; an empty list has no
    (batch, seq) array and raises. *)
Definition tokenizer_max_length (tok : Tokenizer) (side : Side) (n : nat)
  (texts : list string) : option BatchEncoding :=
  match texts with
  | [] => None
  | _ =>
      let rows := map (fun t => truncate_ids side n (encode tok t)) texts in
      Some {| input_ids := map (padded_ids tok side n) rows;
              attention_mask := map (padded_mask side n) rows |}
  end.

(** Modelled from the spec: the same interface, for the call
    [tok(texts, padding="longest", truncation=False, ...)]: every row is
    padded to the longest encoding of the batch. *)
Definition tokenizer_longest (tok : Tokenizer) (side : Side)
  (texts : list string) : option BatchEncoding :=
  match texts with
  | [] => None
  | _ =>
      let rows := map (encode tok) texts in
      let n := list_max (map (@length Z) rows) in
      Some {| input_ids := map (padded_ids tok side n) rows;
              attention_mask := map (padded_mask side n) rows |}
  end.

(** Modelled from the spec: the same interface, for the call
    [tok(text, padding=False, truncation=False, ...)] on one string,
    which gives arrays of shape (1, n). *)
Definition tokenizer_single (tok : Tokenizer) (text : string)
  : BatchEncoding :=
  let ids := encode tok text in
  {| input_ids := [ids]; attention_mask := [repeat 1%Z (length ids)] |}.

(* ------------------------------------------------------------------ *)
(** ** Batches and the model backend *)

(** The dict passed to [forward_loglikelihood]. *)
Record ScoreBatch : Type := {
  input_tokens : Np.Matrix;
  output_tokens : Np.Matrix;
  input_mask : Np.Matrix;
  output_mask : Np.Matrix
}.

(** The dict passed to [forward_generate] / [forward_greedy_generate]. *)
Record GenBatch : Type := {
  gen_input_tokens : Np.Matrix;
  gen_attention_mask : Np.Matrix
}.

(** What the executors are built from and this file does not define:
    the random-number generator wrapper, the transformer, the loss and
    the floating-point arithmetic of the device.

    - [rng_split r] is [JaxRNG.__call__()]: the generator's new state
      and the key it hands out;
    - [rng_split_keys r] is [JaxRNG.__call__(opt_config.rng_keys())]:
      the new state and the dict of keys given to the model;
    - [hf_apply] is [hf_model.module.apply(...).logits] and
      [hf_generate sample max_length] is
      [hf_model.generate(..., max_length=max_length, do_sample=sample)
      .sequences]; [None] stands for a raised exception. *)
Record Backend : Type := {
  RNG : Type;
  Keys : Type;
  Logits : Type;
  F : Type;
  rng_split : RNG -> RNG * RNG;
  rng_split_keys : RNG -> RNG * Keys;
  hf_apply : Np.Matrix -> Np.Matrix -> Keys -> option (list (list Logits));
  hf_generate :
    bool -> nat -> Np.Matrix -> Np.Matrix -> RNG -> option Np.Matrix;
  neg_xent : Logits -> Z -> F;
  argmax : Logits -> Z;
  fzero : F;
  fadd : F -> F -> F;
  fmask : F -> Z -> F
}.

Section Executors.

Variable B : Backend.
Variable cfg : Flags.

(** [jnp.sum(loglikelihood * output_mask, axis=-1)] for one row, where
    [loglikelihood] is the negated cross-entropy of each position. *)
Definition row_loglikelihood (logits : list (Logits B)) (out om : Np.Row)
  : F B :=
  fold_right (fadd B) (fzero B)
    (Np.map2 (fun lt m => fmask B (neg_xent B (fst lt) (snd lt)) m)
       (combine logits out) om).

(** [jnp.sum((jnp.argmax(logits) == output_tokens) * output_mask)]. *)
Definition row_match_count (logits : list (Logits B)) (out om : Np.Row)
  : Z :=
  Np.sumZ
    (Np.map2 (fun lt m =>
                ((if Z.eqb (argmax B (fst lt)) (snd lt) then 1 else 0) * m)%Z)
       (combine logits out) om).

Definition row_is_greedy (logits : list (Logits B)) (out om : Np.Row)
  : bool :=
  Z.eqb (row_match_count logits out om) (Np.sumZ om).

Definition forward_loglikelihood (rng : RNG B) (batch : ScoreBatch)
  : option (list (F B) * list bool * RNG B) :=
  let (g1, keys) := rng_split_keys B rng in
  match hf_apply B (input_tokens batch) (input_mask batch) keys with
  | None => None
  | Some logits =>
      let rows := combine logits
                    (combine (output_tokens batch) (output_mask batch)) in
      let loglikelihood :=
        map (fun r => row_loglikelihood (fst r) (fst (snd r)) (snd (snd r)))
          rows in
      let is_greedy :=
        map (fun r => row_is_greedy (fst r) (fst (snd r)) (snd (snd r)))
          rows in
      Some (loglikelihood, is_greedy, snd (rng_split B g1))
  end.

(** The two generation executors differ only in the sampling arguments
    passed to [hf_model.generate]. *)
Definition forward_generate_with (sample : bool) (rng : RNG B)
  (batch : GenBatch) : option (Np.Matrix * RNG B) :=
  let (g1, key) := rng_split B rng in
  match hf_generate B sample (seq_length cfg) (gen_input_tokens batch)
          (gen_attention_mask batch) key with
  | None => None
  | Some sequences =>
      let start := Z.of_nat (Np.width (gen_input_tokens batch)) in
      Some (Np.slice_cols (Some start) None sequences,
            snd (rng_split B g1))
  end.

Definition forward_generate : RNG B -> GenBatch -> option (Np.Matrix * RNG B) :=
  forward_generate_with (do_sample cfg).

Definition forward_greedy_generate
  : RNG B -> GenBatch -> option (Np.Matrix * RNG B) :=
  forward_generate_with false.

End Executors.

(* ------------------------------------------------------------------ *)
(** ** The session: [sharded_rng] and the history of executor calls *)

Inductive PyError : Type :=
| ExecutorError   (* raised inside one of the three executors *)
| HostError.      (* raised by the server's own NumPy / Python code *)

(** The result of running a request handler: a value, an exception that
    propagates to the caller, or a loop that is still running when the
    fuel of the model is spent. *)
Inductive Outcome (A : Type) : Type :=
| Ret (a : A)
| Raise (e : PyError)
| OutOfFuel.
Arguments Ret {A} a.
Arguments Raise {A} e.
Arguments OutOfFuel {A}.

Inductive ExecFn : Type :=
| FwdLoglikelihood
| FwdGenerate
| FwdGreedyGenerate.

Section Session.

Variable B : Backend.

(** One executor invocation: which executor, the RNG state and the batch
    it was passed, and the RNG state it returned ([None] if it raised). *)
Record Call : Type := {
  call_fn : ExecFn;
  call_rng : RNG B;
  call_batch : ScoreBatch + GenBatch;
  call_ret : option (RNG B)
}.

(** [sharded_rng] is the [nonlocal] variable of the handlers; [calls] is
    the history of executor invocations, oldest first.  The history is
    not part of the program: it records what the program did. *)
Record Session : Type := {
  sharded_rng : RNG B;
  calls : list Call
}.

Definition M (A : Type) : Type := Session -> Outcome A * Session.

Definition ret {A : Type} (a : A) : M A := fun s => (Ret a, s).

Definition bind {A C : Type} (m : M A) (k : A -> M C) : M C :=
  fun s =>
    match m s with
    | (Ret a, s') => k a s'
    | (Raise e, s') => (Raise e, s')
    | (OutOfFuel, s') => (OutOfFuel, s')
    end.

Definition raise {A : Type} (e : PyError) : M A := fun s => (Raise e, s).

Definition out_of_fuel {A : Type} : M A := fun s => (OutOfFuel, s).

(** A host-side computation that may raise. *)
Definition host {A : Type} (o : option A) : M A :=
  match o with
  | Some a => ret a
  | None => raise HostError
  end.

(** The session after an executor invocation that was passed the stored
    state: the call is appended to the history, and [sharded_rng] is
    replaced by the returned state if there is one. *)
Definition after_call (fn : ExecFn) (batch : ScoreBatch + GenBatch)
  (returned : option (RNG B)) (s : Session) : Session :=
  {| sharded_rng := match returned with
                    | Some r => r
                    | None => sharded_rng s
                    end;
     calls := calls s ++ [{| call_fn := fn; call_rng := sharded_rng s;
                             call_batch := batch; call_ret := returned |}] |}.

(** [result, sharded_rng = executor(params, sharded_rng, batch)]: the
    executor receives the stored state; the assignment to [sharded_rng]
    takes place only if the call returns. *)
Definition invoke {A : Type} (fn : ExecFn) (batch : ScoreBatch + GenBatch)
  (executor : RNG B -> option (A * RNG B)) : M A :=
  fun s =>
    match executor (sharded_rng s) with
    | Some (a, rng') => (Ret a, after_call fn batch (Some rng') s)
    | None => (Raise ExecutorError, after_call fn batch None s)
    end.

End Session.

Arguments call_fn {B} c.
Arguments call_rng {B} c.
Arguments call_batch {B} c.
Arguments call_ret {B} c.
Arguments sharded_rng {B} s.
Arguments calls {B} s.
Arguments ret {B A} a.
Arguments bind {B A C} m k.
Arguments invoke {B A} fn batch executor.
Arguments after_call {B} fn batch returned s.
Arguments raise {B A} e.
Arguments out_of_fuel {B A}.
Arguments host {B A} o.

Notation "x <- m ;; k" := (bind m (fun x => k))
  (at level 61, m at next level, right associativity).

Notation "'do?' x <- e ; k" :=
  (match e with Some x => k | None => None end)
  (at level 10, x name, e at level 100, k at level 200).

(* ------------------------------------------------------------------ *)
(** ** The request handlers of [OPTServer] *)

(** [until] holds, for each prefix, a stop string or a list of them. *)
Inductive Until : Type :=
| UntilStr (s : string)
| UntilList (l : list string).

(** [if isinstance(ut, str): ut = [ut]]. *)
Definition stop_list (ut : Until) : list string :=
  match ut with
  | UntilStr s => [s]
  | UntilList l => l
  end.

(** The stop-string scan at the end of one iteration of [greedy_until]:
    [for s in ut: if s in total_generated: total_generated =
    total_generated.split(s, maxsplit=1)[0]; done = True]. *)
Fixpoint scan_stops (ut : list string) (total_generated : string)
  (done : bool) : option (string * bool) :=
  match ut with
  | [] => Some (total_generated, done)
  | s :: rest =>
      if Py.contains s total_generated then
        do? t <- Py.split_head s total_generated;
        scan_stops rest t true
      else scan_stops rest total_generated done
  end.

(** How the [while] loop of [greedy_until] was left. *)
Record LoopExit : Type := {
  exit_text : string;          (* [total_generated] *)
  exit_total_length : Z;       (* [total_length] *)
  exit_iterations : nat;       (* number of times the body was entered *)
  exit_done : bool             (* left through [break] *)
}.

Section Server.

Variable B : Backend.
Variable cfg : Flags.
Variable tok : Tokenizer.

Local Abbreviation S_ := (seq_length cfg).
Local Abbreviation I_ := (input_length cfg).

(** *** [loglikelihood] *)

(** [max_length=FLAGS.seq_length - FLAGS.input_length] is negative when
    [input_length] exceeds [seq_length]; the tokenizer then raises, after
    the prefix has been tokenized and before any executor is called. *)
Definition loglikelihood_batch (prefix_text text : list string)
  : option ScoreBatch :=
  do? prefix <- tokenizer_max_length tok SideLeft I_ prefix_text;
  do? inputs <- (if S_ <? I_ then None
                 else tokenizer_max_length tok SideRight (S_ - I_) text);
  do? output_tokens <- Np.concat_cols (input_ids prefix) (input_ids inputs);
  let bos_tokens := Np.full (length output_tokens) 1 (bos_token_id tok) in
  do? input_tokens <-
    Np.concat_cols bos_tokens (Np.slice_cols None (Some (-1)%Z) output_tokens);
  do? input_mask <-
    Np.concat_cols (attention_mask prefix) (attention_mask inputs);
  let bos_mask :=
    if loglikelihood_add_bos_token cfg
    then Np.ones_like (Np.slice_cols None (Some 1%Z) input_mask)
    else Np.zeros_like (Np.slice_cols None (Some 1%Z) input_mask) in
  do? input_mask <-
    Np.concat_cols bos_mask (Np.slice_cols None (Some (-1)%Z) input_mask);
  do? output_mask <-
    Np.concat_cols (Np.zeros_like (attention_mask prefix))
      (attention_mask inputs);
  Some {| input_tokens := input_tokens;
          output_tokens := output_tokens;
          input_mask := input_mask;
          output_mask := output_mask |}.

Definition loglikelihood (prefix_text text : list string)
  : M B (list (F B) * list bool) :=
  batch <- host (loglikelihood_batch prefix_text text) ;;
  invoke FwdLoglikelihood (inl batch)
    (fun rng => forward_loglikelihood B rng batch).

(** *** [loglikelihood_rolling] *)

(** The arrays built before the loop: [input_tokens], [output_tokens]
    and [attention_mask].  [bos_mask] is built by the source as well but
    no later statement reads it. *)
Record RollingArrays : Type := {
  roll_input_tokens : Np.Matrix;
  roll_output_tokens : Np.Matrix;
  roll_attention_mask : Np.Matrix
}.

Definition rolling_arrays (text : list string) : option RollingArrays :=
  do? inputs <- tokenizer_longest tok SideRight text;
  let batch_size := length (input_ids inputs) in
  do? padded <-
    (if Np.width (input_ids inputs) <? S_ then
       let padding_length := S_ - Np.width (input_ids inputs) in
       let pad_tokens := Np.full batch_size padding_length (pad_token_id tok) in
       do? output_tokens <- Np.concat_cols (input_ids inputs) pad_tokens;
       let pad_mask := Np.full batch_size padding_length 0%Z in
       do? attention_mask <- Np.concat_cols (attention_mask inputs) pad_mask;
       Some (output_tokens, attention_mask)
     else Some (input_ids inputs, attention_mask inputs));
  let output_tokens := fst padded in
  let bos_tokens := Np.full batch_size 1 (bos_token_id tok) in
  do? input_tokens <-
    Np.concat_cols bos_tokens (Np.slice_cols None (Some (-1)%Z) output_tokens);
  Some {| roll_input_tokens := input_tokens;
          roll_output_tokens := output_tokens;
          roll_attention_mask := snd padded |}.

(** The batch of the window that starts at offset [i]. *)
Definition window_batch (a : RollingArrays) (total_seq_length i : nat)
  : ScoreBatch :=
  if total_seq_length <? i + S_ then
    let from_end := Some (- Z.of_nat S_)%Z in
    let last_output_mask :=
      Np.assign_cols_until (Z.of_nat i - Z.of_nat total_seq_length) 0%Z
        (Np.slice_cols from_end None (roll_attention_mask a)) in
    {| input_tokens := Np.slice_cols from_end None (roll_input_tokens a);
       output_tokens := Np.slice_cols from_end None (roll_output_tokens a);
       input_mask := Np.slice_cols from_end None (roll_attention_mask a);
       output_mask := last_output_mask |}
  else
    let lo := Some (Z.of_nat i) in
    let hi := Some (Z.of_nat i + Z.of_nat S_)%Z in
    {| input_tokens := Np.slice_cols lo hi (roll_input_tokens a);
       output_tokens := Np.slice_cols lo hi (roll_output_tokens a);
       input_mask := Np.slice_cols lo hi (roll_attention_mask a);
       output_mask := Np.slice_cols lo hi (roll_attention_mask a) |}.

(** The offsets visited by [for i in range(0, total_seq_length,
    FLAGS.seq_length)] and the batches of their windows. *)
Definition rolling_offsets (a : RollingArrays) : option (list nat) :=
  Py.range_step (Np.width (roll_output_tokens a)) S_.

Definition rolling_windows (a : RollingArrays) : option (list ScoreBatch) :=
  do? offsets <- rolling_offsets a;
  Some (map (window_batch a (Np.width (roll_output_tokens a))) offsets).

Fixpoint rolling_loop (windows : list ScoreBatch)
  (total_loglikelihood : Np.Val (F B)) (total_is_greedy : Np.Val bool)
  : M B (Np.Val (F B) * Np.Val bool) :=
  match windows with
  | [] => ret (total_loglikelihood, total_is_greedy)
  | batch :: rest =>
      r <- invoke FwdLoglikelihood (inl batch)
             (fun rng => forward_loglikelihood B rng batch) ;;
      total_loglikelihood <-
        host (Np.iadd (fadd B) total_loglikelihood (fst r)) ;;
      total_is_greedy <- host (Np.logical_and (snd r) total_is_greedy) ;;
      rolling_loop rest total_loglikelihood total_is_greedy
  end.

Definition loglikelihood_rolling (text : list string)
  : M B (Np.Val (F B) * Np.Val bool) :=
  a <- host (rolling_arrays text) ;;
  windows <- host (rolling_windows a) ;;
  rolling_loop windows (Np.Scalar (fzero B)) (Np.Scalar true).

(** *** [generate] *)

(** [if tokenizer.eos_token in text: text = text.split(eos_token,
    maxsplit=1)[0]]. *)
Definition cut_at_eos (text : string) : option string :=
  if Py.contains (eos_token tok) text
  then Py.split_head (eos_token tok) text
  else Some text.

Fixpoint cut_all_at_eos (texts : list string) : option (list string) :=
  match texts with
  | [] => Some []
  | t :: rest =>
      do? t' <- cut_at_eos t;
      do? rest' <- cut_all_at_eos rest;
      Some (t' :: rest')
  end.

Definition generate (text : list string) : M B (list string) :=
  inputs <- host (tokenizer_max_length tok SideLeft I_ text) ;;
  let batch := {| gen_input_tokens := input_ids inputs;
                  gen_attention_mask := attention_mask inputs |} in
  output <- invoke FwdGenerate (inr batch)
              (fun rng => forward_generate B cfg rng batch) ;;
  host (cut_all_at_eos (map (decode tok) output)).

(** *** [greedy_until] *)

(** The batch of one iteration: the live prefix, tokenized without
    padding or truncation, then left-padded or cut to its last
    [input_length] tokens. *)
Definition prefix_batch (pf : string) : option GenBatch :=
  let pf_tokens := tokenizer_single tok pf in
  let input_tokens := input_ids pf_tokens in
  let attention_mask := attention_mask pf_tokens in
  if Np.width input_tokens <? I_ then
    let extra := I_ - Np.width input_tokens in
    let pad_tokens := Np.full 1 extra (pad_token_id tok) in
    do? input_tokens <- Np.concat_cols pad_tokens input_tokens;
    let pad_attention := Np.full 1 extra 0%Z in
    do? attention_mask <- Np.concat_cols pad_attention attention_mask;
    Some {| gen_input_tokens := input_tokens;
            gen_attention_mask := attention_mask |}
  else if I_ <? Np.width input_tokens then
    let from_end := Some (- Z.of_nat I_)%Z in
    Some {| gen_input_tokens := Np.slice_cols from_end None input_tokens;
            gen_attention_mask := Np.slice_cols from_end None attention_mask |}
  else
    Some {| gen_input_tokens := input_tokens;
            gen_attention_mask := attention_mask |}.

(** The [while total_length < max_length] loop for one (prefix, stop
    list) pair.  [fuel] bounds the number of iterations the model is
    willing to follow; [iterations] counts the iterations done so far. *)
Fixpoint until_loop (fuel : nat) (ut : list string) (max_length : Z)
  (pf : string) (total_length : Z) (total_generated : string)
  (iterations : nat) : M B LoopExit :=
  if (total_length <? max_length)%Z then
    match fuel with
    | 0 => out_of_fuel
    | S fuel' =>
        batch <- host (prefix_batch pf) ;;
        output <- invoke FwdGreedyGenerate (inr batch)
                    (fun rng => forward_greedy_generate B cfg rng batch) ;;
        let total_length := (total_length + Z.of_nat (Np.width output))%Z in
        output_text <- host (option_map (decode tok) (hd_error output)) ;;
        let total_generated := (total_generated ++ output_text)%string in
        let pf := (pf ++ output_text)%string in
        scanned <- host (scan_stops ut total_generated false) ;;
        if snd scanned then
          ret {| exit_text := fst scanned;
                 exit_total_length := total_length;
                 exit_iterations := S iterations;
                 exit_done := true |}
        else
          until_loop fuel' ut max_length pf total_length (fst scanned)
            (S iterations)
    end
  else
    ret {| exit_text := total_generated;
           exit_total_length := total_length;
           exit_iterations := iterations;
           exit_done := false |}.

Fixpoint greedy_until_pairs (fuel : nat) (pairs : list (string * Until))
  (max_length : Z) (all_outputs : list string) : M B (list string) :=
  match pairs with
  | [] => ret all_outputs
  | (pf, ut) :: rest =>
      r <- until_loop fuel (stop_list ut) max_length pf 0%Z ""%string 0 ;;
      greedy_until_pairs fuel rest max_length (all_outputs ++ [exit_text r])
  end.

(** [for pf, ut in zip(prefix_text, until): ...]. *)
Definition greedy_until (fuel : nat) (prefix_text : list string)
  (until : list Until) (max_length : Z) : M B (list string) :=
  greedy_until_pairs fuel (combine prefix_text until) max_length [].

(** *** Serialized runs of requests *)

Inductive Request : Type :=
| ReqLoglikelihood (prefix_text text : list string)
| ReqRolling (text : list string)
| ReqGenerate (text : list string)
| ReqGreedyUntil (prefix_text : list string) (until : list Until)
    (max_length : Z).

(** What the caller of one request sees. *)
Inductive Reply : Type :=
| Replied
| Failed (e : PyError)
| Running.

Definition reply_of {A : Type} (o : Outcome A) : Reply :=
  match o with
  | Ret _ => Replied
  | Raise e => Failed e
  | OutOfFuel => Running
  end.

Definition serve (fuel : nat) (r : Request) (s : Session B)
  : Reply * Session B :=
  match r with
  | ReqLoglikelihood p t =>
      let (o, s') := loglikelihood p t s in (reply_of o, s')
  | ReqRolling t =>
      let (o, s') := loglikelihood_rolling t s in (reply_of o, s')
  | ReqGenerate t =>
      let (o, s') := generate t s in (reply_of o, s')
  | ReqGreedyUntil p u n =>
      let (o, s') := greedy_until fuel p u n s in (reply_of o, s')
  end.

(** Requests are handled one after the other on the same session; an
    exception ends its own request only. *)
Fixpoint serve_all (fuel : nat) (rs : list Request) (s : Session B)
  : list Reply * Session B :=
  match rs with
  | [] => ([], s)
  | r :: rest =>
      let (o, s') := serve fuel r s in
      let (os, s'') := serve_all fuel rest s' in
      (o :: os, s'')
  end.

End Server.

(* ------------------------------------------------------------------ *)
(** ** A small tokenizer and a small backend to run the handlers on *)

Module Stub.

(** One token per character, the token id being the character code;
    the special ids are those of the OPT vocabulary. *)
Definition char_tokenizer : Tokenizer :=
  {| encode := fun s =>
       map (fun c => Z.of_nat (nat_of_ascii c)) (list_ascii_of_string s);
     decode := fun ids =>
       string_of_list_ascii (map (fun z => ascii_of_nat (Z.to_nat z)) ids);
     pad_token_id := 1%Z;
     bos_token_id := 2%Z;
     eos_token := "</s>"%string |}.

(** A backend over integers.
    - The RNG state is a counter; splitting moves it strictly forward.
    - The model predicts the token [guess] at every position; the
      log-probability of a target is 0 when it is the prediction and -1
      otherwise.
    - Generation appends the tokens of [script] to every row and pads or
      cuts the result to [max_length] columns.
    - As the executors constrain the batch axis to the data-parallel
      mesh axis, a batch whose number of rows is not a multiple of [dp]
      is rejected. *)
Definition backend (script : list Z) (dp : nat) (guess : Z) : Backend :=
  {| RNG := nat;
     Keys := nat;
     Logits := Z;
     F := Z;
     rng_split := fun r => (2 * r + 1, 2 * r + 2);
     rng_split_keys := fun r => (2 * r + 1, r);
     hf_apply := fun toks _ _ =>
       if length toks mod dp =? 0
       then Some (map (map (fun _ => guess)) toks)
       else None;
     hf_generate := fun _ max_length toks _ _ =>
       if length toks mod dp =? 0
       then Some (map (fun row =>
                         firstn max_length
                           (row ++ script ++ repeat 1%Z max_length)) toks)
       else None;
     neg_xent := fun l t => if Z.eqb l t then 0%Z else (-1)%Z;
     argmax := fun l => l;
     fzero := 0%Z;
     fadd := Z.add;
     fmask := fun x m => (x * m)%Z |}.

(** A backend with a vocabulary of [vocab] tokens.  It differs from
    [backend [] 1 guess] in the model's forward pass, which rejects a
    batch holding a token id outside [0, vocab). *)
Definition vocab_backend (vocab guess : Z) : Backend :=
  {| RNG := nat;
     Keys := nat;
     Logits := Z;
     F := Z;
     rng_split := fun r => (2 * r + 1, 2 * r + 2);
     rng_split_keys := fun r => (2 * r + 1, r);
     hf_apply := fun toks _ _ =>
       if forallb (forallb (fun t => (0 <=? t)%Z && (t <? vocab)%Z)) toks
       then Some (map (map (fun _ => guess)) toks)
       else None;
     hf_generate := fun _ max_length toks _ _ =>
       Some (map (fun row => firstn max_length (row ++ repeat 1%Z max_length))
               toks);
     neg_xent := fun l t => if Z.eqb l t then 0%Z else (-1)%Z;
     argmax := fun l => l;
     fzero := 0%Z;
     fadd := Z.add;
     fmask := fun x m => (x * m)%Z |}.

Definition flags (input_len seq_len : nat) (add_bos : bool) : Flags :=
  {| input_length := input_len;
     seq_length := seq_len;
     do_sample := false;
     loglikelihood_add_bos_token := add_bos |}.

Definition start (B : Backend) (r : RNG B) : Session B :=
  {| sharded_rng := r; calls := [] |}.

End Stub.

(* ------------------------------------------------------------------ *)
(** ** The batch of [loglikelihood], row by row

    The description of the scoring batch given in the design notes of
    the token batch builder: one row per (prefix, continuation) pair. *)

Section ScoreRows.

Variable cfg : Flags.
Variable tok : Tokenizer.

(** The prefix, cut on the left and padded on the left to
    [input_length]. *)
Definition prefix_ids (p : string) : Np.Row :=
  padded_ids tok SideLeft (input_length cfg)
    (truncate_ids SideLeft (input_length cfg) (encode tok p)).

Definition prefix_mask (p : string) : Np.Row :=
  padded_mask SideLeft (input_length cfg)
    (truncate_ids SideLeft (input_length cfg) (encode tok p)).

(** The continuation, cut on the right and padded on the right to
    [seq_length - input_length]. *)
Definition continuation_ids (t : string) : Np.Row :=
  padded_ids tok SideRight (seq_length cfg - input_length cfg)
    (truncate_ids SideRight (seq_length cfg - input_length cfg)
       (encode tok t)).

Definition continuation_mask (t : string) : Np.Row :=
  padded_mask SideRight (seq_length cfg - input_length cfg)
    (truncate_ids SideRight (seq_length cfg - input_length cfg)
       (encode tok t)).

Definition spec_output_row (p t : string) : Np.Row :=
  prefix_ids p ++ continuation_ids t.

(** Shift right: a beginning-of-sequence token, then the targets
    without the last one. *)
Definition spec_input_row (p t : string) : Np.Row :=
  bos_token_id tok :: removelast (spec_output_row p t).

(** The masks, shifted the same way; the injected position is attended
    exactly when [loglikelihood_add_bos_token] is set. *)
Definition spec_input_mask_row (p t : string) : Np.Row :=
  (if loglikelihood_add_bos_token cfg then 1%Z else 0%Z)
  :: removelast (prefix_mask p ++ continuation_mask t).

Definition spec_output_mask_row (p t : string) : Np.Row :=
  repeat 0%Z (input_length cfg) ++ continuation_mask t.

Definition spec_score_batch (prefix_text text : list string) : ScoreBatch :=
  {| input_tokens := Np.map2 spec_input_row prefix_text text;
     output_tokens := Np.map2 spec_output_row prefix_text text;
     input_mask := Np.map2 spec_input_mask_row prefix_text text;
     output_mask := Np.map2 spec_output_mask_row prefix_text text |}.

End ScoreRows.

(* ------------------------------------------------------------------ *)
(** ** The arrays and windows of [loglikelihood_rolling], row by row *)

Section RollingRows.

Variable cfg : Flags.
Variable tok : Tokenizer.

(** [total_seq_length]: the longest encoding of the batch, or
    [seq_length] if that is larger. *)
Definition rolling_total (text : list string) : nat :=
  Nat.max (list_max (map (fun t => length (encode tok t)) text))
    (seq_length cfg).

Definition rolling_output_row (text : list string) (t : string) : Np.Row :=
  padded_ids tok SideRight (rolling_total text) (encode tok t).

Definition rolling_mask_row (text : list string) (t : string) : Np.Row :=
  padded_mask SideRight (rolling_total text) (encode tok t).

Definition rolling_input_row (text : list string) (t : string) : Np.Row :=
  bos_token_id tok :: removelast (rolling_output_row text t).

Definition spec_rolling_arrays (text : list string) : RollingArrays :=
  {| roll_input_tokens := map (rolling_input_row text) text;
     roll_output_tokens := map (rolling_output_row text) text;
     roll_attention_mask := map (rolling_mask_row text) text |}.

(** A window that is not the last one: columns [i, i + seq_length) of
    every array, the attention mask serving as both masks. *)
Definition spec_normal_window (a : RollingArrays) (i : nat) : ScoreBatch :=
  let cut := fun r : Np.Row => firstn (seq_length cfg) (skipn i r) in
  {| input_tokens := map cut (roll_input_tokens a);
     output_tokens := map cut (roll_output_tokens a);
     input_mask := map cut (roll_attention_mask a);
     output_mask := map cut (roll_attention_mask a) |}.

(** The last window of a sequence of [total] columns: the last
    [seq_length] columns of every array; the output mask is zero except
    on the columns from [i] on, the last [total - i] of the window. *)
Definition spec_last_window (a : RollingArrays) (total i : nat)
  : ScoreBatch :=
  let tail := fun r : Np.Row => skipn (total - seq_length cfg) r in
  {| input_tokens := map tail (roll_input_tokens a);
     output_tokens := map tail (roll_output_tokens a);
     input_mask := map tail (roll_attention_mask a);
     output_mask :=
       map (fun r => repeat 0%Z (seq_length cfg - (total - i)) ++ skipn i r)
         (roll_attention_mask a) |}.

(** All rows of the three arrays have [total] columns. *)
Definition rectangular (a : RollingArrays) (total : nat) : Prop :=
  Forall (fun r => length r = total) (roll_input_tokens a)
  /\ Forall (fun r => length r = total) (roll_output_tokens a)
  /\ Forall (fun r => length r = total) (roll_attention_mask a).

(** The arrays [a] with the last column of the attention mask set to
    [v]. *)
Definition with_last_mask_bit (v : Z) (a : RollingArrays) : RollingArrays :=
  {| roll_input_tokens := roll_input_tokens a;
     roll_output_tokens := roll_output_tokens a;
     roll_attention_mask :=
       map (fun r => removelast r ++ [v]) (roll_attention_mask a) |}.

(** The input masks handed to the executor do not depend on the last
    column of the attention mask. *)
Definition last_mask_bit_unused (a : RollingArrays) : Prop :=
  forall v : Z,
    option_map (map input_mask) (rolling_windows cfg (with_last_mask_bit v a))
    = option_map (map input_mask) (rolling_windows cfg a).

(** The column at which the window of offset [i] starts. *)
Definition window_start (total i : nat) : nat :=
  if i + seq_length cfg <=? total then i else total - seq_length cfg.

(** Every window's input mask is the slice of the attention mask at the
    window's own columns. *)
Definition input_mask_unshifted (a : RollingArrays) (total : nat) : Prop :=
  forall i, i < total ->
    input_mask (window_batch cfg a total i)
    = map (fun r => firstn (seq_length cfg) (skipn (window_start total i) r))
        (roll_attention_mask a).

(** In the first window the position of the beginning-of-sequence token
    carries the attention bit of the first token of the text. *)
Definition bos_bit_is_first_token_bit (text : list string) : Prop :=
  map (hd 0%Z)
    (input_tokens (window_batch cfg (spec_rolling_arrays text)
                     (rolling_total text) 0))
  = map (fun _ => bos_token_id tok) text
  /\ map (hd 0%Z)
       (input_mask (window_batch cfg (spec_rolling_arrays text)
                      (rolling_total text) 0))
     = map (fun t => hd 0%Z (rolling_mask_row text t)) text.

(** The reading of the input masks of the sliding window in which the
    last attention bit is dropped, as it is in [loglikelihood]. *)
Definition rolling_mask_reading (text : list string) : Prop :=
  input_mask_unshifted (spec_rolling_arrays text) (rolling_total text)
  /\ bos_bit_is_first_token_bit text
  /\ last_mask_bit_unused (spec_rolling_arrays text).

End RollingRows.

(** The configuration with [loglikelihood_add_bos_token] set to [b]. *)
Definition set_add_bos (b : bool) (cfg : Flags) : Flags :=
  {| input_length := input_length cfg;
     seq_length := seq_length cfg;
     do_sample := do_sample cfg;
     loglikelihood_add_bos_token := b |}.

(* ------------------------------------------------------------------ *)
(** ** Vocabulary for the generation loop *)

(** The least integer not below [a / b], for a positive [b]. *)
Definition ceil_div (a b : Z) : Z := ((a + b - 1) / b)%Z.

Section LoopVocabulary.

Variable B : Backend.
Variable cfg : Flags.
Variable tok : Tokenizer.

(** Every generation call of the loop that returns produces [L] tokens. *)
Definition fixed_output_length (L : nat) : Prop :=
  forall (rng : RNG B) (pf : string) (batch : GenBatch) (out : Np.Matrix)
         (rng' : RNG B),
    prefix_batch cfg tok pf = Some batch ->
    forward_greedy_generate B cfg rng batch = Some (out, rng') ->
    Np.width out = L.

(** Every generation call of the loop returns, with at least one row. *)
Definition generation_succeeds : Prop :=
  forall (rng : RNG B) (pf : string) (batch : GenBatch),
    prefix_batch cfg tok pf = Some batch ->
    exists row rest rng',
      forward_greedy_generate B cfg rng batch = Some (row :: rest, rng').

End LoopVocabulary.

(** The text cut at the earliest occurrence of any of the stop strings:
    the contract of the constrained generation loop. *)
Definition earliest_stop (ut : list string) (text : string) : option nat :=
  fold_right
    (fun s acc =>
       match Py.find s text, acc with
       | Some k, Some k' => Some (Nat.min k k')
       | Some k, None => Some k
       | None, _ => acc
       end) None ut.

Definition cut_at_earliest_stop (ut : list string) (text : string) : string :=
  match earliest_stop ut text with
  | Some k => substring 0 k text
  | None => text
  end.

(* ------------------------------------------------------------------ *)
(** ** Vocabulary for the history of executor calls *)

Section Threading.

Variable B : Backend.
Variable cfg : Flags.

(** The state the executor [fn] hands back when it is called with the
    state [rng] and the batch [batch]; [None] when it raises. *)
Definition executor_returns (fn : ExecFn) (batch : ScoreBatch + GenBatch)
  (rng : RNG B) : option (RNG B) :=
  match fn, batch with
  | FwdLoglikelihood, inl b => option_map snd (forward_loglikelihood B rng b)
  | FwdGenerate, inr b => option_map snd (forward_generate B cfg rng b)
  | FwdGreedyGenerate, inr b =>
      option_map snd (forward_greedy_generate B cfg rng b)
  | _, _ => None
  end.

(** [threaded r cs r_end]: starting with [r] stored, every invocation of
    [cs], in order, is passed the state stored at that moment; if it
    returns, what it returns is stored in its place, and if it raises the
    stored state stays; [r_end] is stored at the end. *)
Fixpoint threaded (r : RNG B) (cs : list (Call B)) (r_end : RNG B) : Prop :=
  match cs with
  | [] => r = r_end
  | c :: cs' =>
      call_rng c = r
      /\ call_ret c = executor_returns (call_fn c) (call_batch c) r
      /\ threaded (match call_ret c with Some r' => r' | None => r end)
           cs' r_end
  end.

Definition returned (c : Call B) : Prop := call_ret c <> None.

(** The calls added to the history between the sessions [s] and [s']. *)
Definition new_calls (s s' : Session B) : list (Call B) :=
  skipn (length (calls s)) (calls s').

(** No two invocations were passed the same state. *)
Definition no_state_reuse (cs : list (Call B)) : Prop :=
  NoDup (map call_rng cs).

(** An invocation that returned and any later invocation were passed
    different states. *)
Definition no_reuse_after_return (cs : list (Call B)) : Prop :=
  forall i j ci cj,
    i < j ->
    nth_error cs i = Some ci ->
    nth_error cs j = Some cj ->
    returned ci ->
    call_rng ci <> call_rng cj.

(** The states [sharded_rng] holds over a history that starts with [r]
    stored: [r], then the state handed back by each invocation that
    returned, in order. *)
Fixpoint stored_states (r : RNG B) (cs : list (Call B)) : list (RNG B) :=
  match cs with
  | [] => [r]
  | c :: cs' =>
      match call_ret c with
      | Some r' => r :: stored_states r' cs'
      | None => stored_states r cs'
      end
  end.

(** Over the history, splitting the generator never led back to a state
    stored earlier: no state was stored twice. *)
Definition no_state_stored_twice (r : RNG B) (cs : list (Call B)) : Prop :=
  NoDup (stored_states r cs).

(** What a handler adds to the history: the new calls are threaded from
    the stored state; if the handler ends with an executor's exception,
    the raising call is the last one and all others returned; otherwise
    all calls returned. *)
Definition traced {A : Type} (m : M B A) : Prop :=
  forall s,
    exists cs,
      calls (snd (m s)) = calls s ++ cs
      /\ threaded (sharded_rng s) cs (sharded_rng (snd (m s)))
      /\ match fst (m s) with
         | Raise ExecutorError =>
             exists cs' c,
               cs = cs' ++ [c] /\ Forall returned cs' /\ call_ret c = None
         | _ => Forall returned cs
         end.

End Threading.

(* ------------------------------------------------------------------ *)
(** ** Vocabulary for comparing the two scorers *)

Section Agreement.

Variable B : Backend.
Variable cfg : Flags.
Variable tok : Tokenizer.

(** The values a scorer hands to its caller, if it returns arrays. *)
Definition single_result (o : Outcome (list (F B) * list bool))
  : option (list (F B) * list bool) :=
  match o with
  | Ret p => Some p
  | _ => None
  end.

Definition rolling_result (o : Outcome (Np.Val (F B) * Np.Val bool))
  : option (list (F B) * list bool) :=
  match o with
  | Ret (Np.Arr ll, Np.Arr g) => Some (ll, g)
  | _ => None
  end.

(** Run from the same session, [loglikelihood_rolling] on [text] and
    [loglikelihood] on [prefix_text] and [text] return the same
    loglikelihood values and the same greedy flags. *)
Definition scorers_agree (prefix_text text : list string) (s : Session B)
  : Prop :=
  rolling_result (fst (loglikelihood_rolling B cfg tok text s))
  = single_result (fst (loglikelihood B cfg tok prefix_text text s)).

(** No text of the batch has more than [n] tokens. *)
Definition no_longer_than (n : nat) (text : list string) : Prop :=
  Forall (fun t => length (encode tok t) <= n) text.

(** The one window of a batch of texts no longer than [seq_length]:
    every text padded on the right to [seq_length], shifted right behind
    a beginning-of-sequence token on the input side, the attention mask
    serving as both masks. *)
Definition single_window (text : list string) : ScoreBatch :=
  {| input_tokens :=
       map (fun t => bos_token_id tok
                     :: removelast (padded_ids tok SideRight (seq_length cfg)
                                      (encode tok t))) text;
     output_tokens :=
       map (fun t => padded_ids tok SideRight (seq_length cfg) (encode tok t))
         text;
     input_mask :=
       map (fun t => padded_mask SideRight (seq_length cfg) (encode tok t))
         text;
     output_mask :=
       map (fun t => padded_mask SideRight (seq_length cfg) (encode tok t))
         text |}.

End Agreement.

(* ------------------------------------------------------------------ *)
(** ** Start-up: the choice of the checkpoint loader in [main] *)

(** [s[n:]]. *)
Fixpoint str_drop (n : nat) (s : string) : string :=
  match n, s with
  | 0, _ => s
  | S n', EmptyString => EmptyString
  | S n', String _ s' => str_drop n' s'
  end.

(** [s.split(sep, 1)]: the whole string if [sep] does not occur, else
    the parts before and after its first occurrence; an empty separator
    raises [ValueError]. *)
Definition split_once (sep s : string) : option (list string) :=
  match sep with
  | EmptyString => None
  | _ =>
      match Py.find sep s with
      | Some k =>
          Some [substring 0 k s; str_drop (k + String.length sep) s]
      | None => Some [s]
      end
  end.

(** The three loaders [main] chooses from, with the path each is given. *)
Inductive Checkpoint : Type :=
| TrainstateParams (load_path : string)
| FlaxParams (load_path : string)
| Huggingface (load_path : string).

(** [load_type, load_path = FLAGS.load_checkpoint.split("::", 1)]
    followed by the [if] / [elif] chain on [load_type]; [None] stands for
    the [ValueError] of a failed unpacking or of an unsupported type. *)
Definition select_checkpoint (load_checkpoint : string) : option Checkpoint :=
  match split_once "::" load_checkpoint with
  | Some [load_type; load_path] =>
      if (load_type =? "trainstate_params")%string
      then Some (TrainstateParams load_path)
      else if (load_type =? "flax_params")%string
      then Some (FlaxParams load_path)
      else if (load_type =? "huggingface")%string
      then Some (Huggingface load_path)
      else None
  | _ => None
  end.

(** The [load_checkpoint] string that selects a given loader. *)
Definition checkpoint_flag (c : Checkpoint) : string :=
  match c with
  | TrainstateParams p => "trainstate_params::" ++ p
  | FlaxParams p => "flax_params::" ++ p
  | Huggingface p => "huggingface::" ++ p
  end.

(* ------------------------------------------------------------------ *)
(** ** Vocabulary for the further properties *)

(** The text returned for one pair holds none of the pair's non-empty
    stop strings. *)
Definition free_of_stops (pair : string * Until) (text : string) : Prop :=
  forall st, In st (stop_list (snd pair)) -> st <> ""%string ->
             Py.contains st text = false.

Section Advances.

Variable B : Backend.

(** The state [forward_loglikelihood] hands back when it returns. *)
Definition score_advance (r : RNG B) : RNG B :=
  snd (rng_split B (fst (rng_split_keys B r))).

(** The state a generation executor hands back when it returns. *)
Definition generate_advance (r : RNG B) : RNG B :=
  snd (rng_split B (fst (rng_split B r))).

(** The effect of one recorded invocation on the stored state: none if
    it raised, else the advance of its executor. *)
Definition advance_by (r : RNG B) (c : Call B) : RNG B :=
  match call_ret c with
  | None => r
  | Some _ =>
      match call_fn c with
      | FwdLoglikelihood => score_advance r
      | _ => generate_advance r
      end
  end.

End Advances.

Section Aggregation.

Variable B : Backend.

(** The results of scoring the windows one after the other, each call
    being passed the state the call before it returned; [None] if a
    call raises. *)
Fixpoint window_results (r : RNG B) (windows : list ScoreBatch)
  : option (list (list (F B) * list bool)) :=
  match windows with
  | [] => Some []
  | w :: rest =>
      match forward_loglikelihood B r w with
      | Some (res, r') =>
          match window_results r' rest with
          | Some l => Some (res :: l)
          | None => None
          end
      | None => None
      end
  end.

End Aggregation.

Section Coverage.

Variable cfg : Flags.

(** The part of a row of the output mask of the window of offset [i]
    that lies at the columns from [i] on, and the part before it. *)
Definition scored_part (total i : nat) (row : Np.Row) : Np.Row :=
  skipn (i - window_start cfg total i) row.

Definition overlap_part (total i : nat) (row : Np.Row) : Np.Row :=
  firstn (i - window_start cfg total i) row.

(** All arrays of a scoring batch have [rows] rows of [cols] columns. *)
Definition score_batch_shape (rows cols : nat) (b : ScoreBatch) : Prop :=
  let ok := fun m : Np.Matrix =>
              length m = rows /\ Forall (fun r => length r = cols) m in
  ok (input_tokens b) /\ ok (output_tokens b)
  /\ ok (input_mask b) /\ ok (output_mask b).

End Coverage.

(* ------------------------------------------------------------------ *)
(** ** Vocabulary for the requests' invocations and for failed requests *)

Section Requests.

Variable B : Backend.
Variable cfg : Flags.
Variable tok : Tokenizer.

(** The executor the handler of a request invokes. *)
Definition request_executor (req : Request) : ExecFn :=
  match req with
  | ReqLoglikelihood _ _ => FwdLoglikelihood
  | ReqRolling _ => FwdLoglikelihood
  | ReqGenerate _ => FwdGenerate
  | ReqGreedyUntil _ _ _ => FwdGreedyGenerate
  end.

(** The state an executor hands back when it returns. *)
Definition executor_advance (fn : ExecFn) : RNG B -> RNG B :=
  match fn with
  | FwdLoglikelihood => score_advance B
  | _ => generate_advance B
  end.

(** The handlers without a loop around the executor call. *)
Definition single_invocation (req : Request) : Prop :=
  match req with
  | ReqLoglikelihood _ _ | ReqGenerate _ => True
  | ReqRolling _ | ReqGreedyUntil _ _ _ => False
  end.

(** A request that fails in an executor leaves the stored state as it
    was before the request. *)
Definition failure_leaves_state (fuel : nat) (req : Request) (s : Session B)
  : Prop :=
  fst (serve B cfg tok fuel req s) = Failed ExecutorError ->
  sharded_rng (snd (serve B cfg tok fuel req s)) = sharded_rng s.

(** Every invocation a handler adds to the history is one of [fn]. *)
Definition invokes_only {A : Type} (fn : ExecFn) (m : M B A) : Prop :=
  forall s,
    exists cs,
      calls (snd (m s)) = calls s ++ cs
      /\ Forall (fun c => call_fn c = fn) cs.

End Requests.

(* ------------------------------------------------------------------ *)
(** * Properties *)

(** ** Slices and row-wise arrays *)

Lemma removelast_firstn_pred {A : Type} (l : list A) :
  removelast l = firstn (length l - 1) l.
Proof.
  rewrite removelast_firstn_len. f_equal. lia.
Qed.

(** [l[:-1]] drops the last element. *)
Lemma slice_drop_last {A : Type} (l : list A) :
  Np.slice None (Some (-1)%Z) l = removelast l.
Proof.
  unfold Np.slice, Np.clip_index. cbn [Z.ltb Z.compare].
  rewrite removelast_firstn_pred. cbn [skipn Z.to_nat].
  f_equal. lia.
Qed.

(** [l[:1]] keeps the first element. *)
Lemma slice_first {A : Type} (l : list A) :
  Np.slice None (Some 1%Z) l = firstn 1 l.
Proof.
  unfold Np.slice, Np.clip_index. cbn [Z.ltb Z.compare skipn Z.to_nat].
  destruct l as [|a l]; [reflexivity|].
  replace (Z.to_nat (Z.min (Z.of_nat (length (a :: l))) 1 - 0)) with 1;
    [reflexivity|].
  cbn [length]. lia.
Qed.

(** [l[i:i+n]]. *)
Lemma slice_range {A : Type} (i n : nat) (l : list A) :
  Np.slice (Some (Z.of_nat i)) (Some (Z.of_nat i + Z.of_nat n)%Z) l
  = firstn n (skipn i l).
Proof.
  unfold Np.slice, Np.clip_index.
  destruct (Z.ltb_spec (Z.of_nat i) 0); [lia|].
  destruct (Z.ltb_spec (Z.of_nat i + Z.of_nat n) 0); [lia|].
  destruct (Nat.le_gt_cases (i + n) (length l)) as [Hin|Hin].
  - rewrite (Z.min_r _ (Z.of_nat i)), (Z.min_r _ (Z.of_nat i + Z.of_nat n))
      by lia.
    rewrite Nat2Z.id. f_equal. lia.
  - destruct (Nat.le_gt_cases i (length l)) as [Hi|Hi].
    + rewrite (Z.min_r _ (Z.of_nat i)), (Z.min_l _ (Z.of_nat i + Z.of_nat n))
        by lia.
      rewrite Nat2Z.id.
      rewrite !firstn_all2; [reflexivity| |]; rewrite length_skipn; lia.
    + rewrite (Z.min_l _ (Z.of_nat i)), (Z.min_l _ (Z.of_nat i + Z.of_nat n))
        by lia.
      rewrite Nat2Z.id, Z.sub_diag.
      rewrite skipn_all, (skipn_all2 (n:=i)) by lia.
      cbn [Z.to_nat firstn]. now rewrite firstn_nil.
Qed.

(** [l[-n:]] for a positive [n] keeps the last [n] elements. *)
Lemma slice_last {A : Type} (n : nat) (l : list A) :
  0 < n ->
  Np.slice (Some (- Z.of_nat n)%Z) None l = skipn (length l - n) l.
Proof.
  intros Hn. unfold Np.slice, Np.clip_index.
  destruct (Z.ltb_spec (- Z.of_nat n) 0); [|lia].
  replace (Z.to_nat (Z.max 0 (Z.of_nat (length l) + - Z.of_nat n)))
    with (length l - n) by lia.
  apply firstn_all2. rewrite length_skipn. lia.
Qed.

(** [l[-0:]] is [l[0:]], the whole list. *)
Lemma slice_last_zero {A : Type} (l : list A) :
  Np.slice (Some (- Z.of_nat 0)%Z) None l = l.
Proof.
  unfold Np.slice, Np.clip_index. cbn [Z.of_nat Z.opp Z.ltb Z.compare].
  rewrite Z.min_r by lia. cbn [Z.to_nat skipn].
  rewrite Z.sub_0_r, Nat2Z.id. apply firstn_all.
Qed.

Lemma map2_length {A C D : Type} (f : A -> C -> D) (l : list A)
  (l' : list C) :
  length l = length l' -> length (Np.map2 f l l') = length l.
Proof.
  revert l'. induction l as [|a l IH]; intros [|c l'] H; cbn in *;
    try discriminate; auto.
Qed.

Lemma map_map2 {A C D E : Type} (g : D -> E) (f : A -> C -> D)
  (l : list A) (l' : list C) :
  map g (Np.map2 f l l') = Np.map2 (fun a c => g (f a c)) l l'.
Proof.
  revert l'. induction l as [|a l IH]; intros [|c l']; cbn; auto.
  now rewrite IH.
Qed.

Lemma map_as_map2_l {A C D : Type} (f : A -> D) (l : list A) (l' : list C) :
  length l = length l' -> map f l = Np.map2 (fun a _ => f a) l l'.
Proof.
  revert l'. induction l as [|a l IH]; intros [|c l'] H; cbn in *;
    try discriminate; auto.
  f_equal. apply IH. lia.
Qed.

Lemma map_as_map2_r {A C D : Type} (f : C -> D) (l : list A) (l' : list C) :
  length l = length l' -> map f l' = Np.map2 (fun _ c => f c) l l'.
Proof.
  revert l'. induction l as [|a l IH]; intros [|c l'] H; cbn in *;
    try discriminate; auto.
  f_equal. apply IH. lia.
Qed.

Lemma map2_ext {A C D : Type} (f g : A -> C -> D) (l : list A)
  (l' : list C) :
  (forall a c, In a l -> In c l' -> f a c = g a c) ->
  Np.map2 f l l' = Np.map2 g l l'.
Proof.
  revert l'. induction l as [|a l IH]; intros [|c l'] H; cbn; auto.
  f_equal.
  - apply H; now left.
  - apply IH. intros; apply H; now right.
Qed.

(** Concatenating, along the sequence axis, two arrays computed row by
    row from the same pair of lists. *)
Lemma concat_cols_map2 {A C : Type} (f g : A -> C -> Np.Row)
  (l : list A) (l' : list C) :
  Np.concat_cols (Np.map2 f l l') (Np.map2 g l l')
  = Some (Np.map2 (fun a c => f a c ++ g a c) l l').
Proof.
  revert l'. induction l as [|a l IH]; intros [|c l']; cbn; auto.
  now rewrite IH.
Qed.

Lemma full_map2 {A C D : Type} (f : A -> C -> D) (l : list A) (l' : list C)
  (cols : nat) (v : Z) :
  Np.full (length (Np.map2 f l l')) cols v
  = Np.map2 (fun _ _ => repeat v cols) l l'.
Proof.
  unfold Np.full.
  revert l'. induction l as [|a l IH]; intros [|c l']; cbn; auto.
  now rewrite IH.
Qed.

(** The same for arrays computed row by row from one list. *)
Lemma concat_cols_map {A : Type} (f g : A -> Np.Row) (l : list A) :
  Np.concat_cols (map f l) (map g l) = Some (map (fun a => f a ++ g a) l).
Proof.
  induction l as [|a l IH]; cbn; auto. now rewrite IH.
Qed.

Lemma full_map {A : Type} (l : list A) (cols : nat) (v : Z) :
  Np.full (length l) cols v = map (fun _ => repeat v cols) l.
Proof.
  unfold Np.full. induction l as [|a l IH]; cbn; auto. now rewrite IH.
Qed.

Lemma pad_row_length (side : Side) (n : nat) (fill : Z) (row : list Z) :
  length row <= n -> length (pad_row side n fill row) = n.
Proof.
  intros H. destruct side; cbn; rewrite length_app, repeat_length; lia.
Qed.

Lemma truncate_ids_length (side : Side) (n : nat) (ids : list Z) :
  length (truncate_ids side n ids) <= n.
Proof.
  destruct side; cbn.
  - rewrite length_skipn. lia.
  - rewrite length_firstn. lia.
Qed.

Lemma truncate_ids_short (side : Side) (n : nat) (ids : list Z) :
  length ids <= n -> truncate_ids side n ids = ids.
Proof.
  intros H. destruct side; cbn.
  - replace (length ids - n) with 0 by lia. reflexivity.
  - now apply firstn_all2.
Qed.

(** ** The batch built by [loglikelihood] *)

Lemma tokenizer_max_length_rows (tok : Tokenizer) (side : Side) (n : nat)
  (texts : list string) :
  texts <> [] ->
  tokenizer_max_length tok side n texts
  = Some {| input_ids :=
              map (fun t => padded_ids tok side n
                              (truncate_ids side n (encode tok t))) texts;
            attention_mask :=
              map (fun t => padded_mask side n
                              (truncate_ids side n (encode tok t))) texts |}.
Proof.
  intros H. destruct texts as [|t texts]; [contradiction|].
  unfold tokenizer_max_length. now rewrite !map_map.
Qed.

Lemma padded_ids_length (tok : Tokenizer) (side : Side) (n : nat)
  (ids : list Z) :
  length (padded_ids tok side n (truncate_ids side n ids)) = n.
Proof. apply pad_row_length, truncate_ids_length. Qed.

Lemma padded_mask_length (side : Side) (n : nat) (ids : list Z) :
  length (padded_mask side n (truncate_ids side n ids)) = n.
Proof.
  unfold padded_mask. apply pad_row_length.
  rewrite repeat_length. apply truncate_ids_length.
Qed.

Lemma map_const_repeat {A : Type} (v : Z) (l : list A) :
  map (fun _ => v) l = repeat v (length l).
Proof. induction l as [|a l IH]; cbn; auto. now rewrite IH. Qed.

Lemma bos_mask_value (b : bool) (m : Np.Matrix) :
  (if b then Np.ones_like m else Np.zeros_like m)
  = map (map (fun _ => if b then 1%Z else 0%Z)) m.
Proof. destruct b; reflexivity. Qed.

Section LoglikelihoodBatch.

Variable B : Backend.
Variable cfg : Flags.
Variable tok : Tokenizer.

Lemma loglikelihood_batch_rows (prefix_text text : list string) :
  0 < seq_length cfg ->
  input_length cfg <= seq_length cfg ->
  prefix_text <> [] ->
  length prefix_text = length text ->
  loglikelihood_batch cfg tok prefix_text text
  = Some (spec_score_batch cfg tok prefix_text text).
Proof.
  intros HS HI Hne Hlen.
  assert (Hne' : text <> []).
  { destruct text; [destruct prefix_text; [contradiction|discriminate]|].
    discriminate. }
  unfold loglikelihood_batch.
  destruct (Nat.ltb_spec (seq_length cfg) (input_length cfg)) as [Hlt|_];
    [lia|].
  rewrite !tokenizer_max_length_rows by assumption.
  cbn [input_ids attention_mask].
  rewrite !(map_as_map2_l _ prefix_text text Hlen).
  rewrite !(map_as_map2_r _ prefix_text text Hlen).
  rewrite !concat_cols_map2.
  rewrite full_map2. unfold Np.slice_cols.
  rewrite !map_map2. rewrite !concat_cols_map2.
  rewrite bos_mask_value, !map_map2.
  rewrite (map2_ext _ (fun _ _ => [if loglikelihood_add_bos_token cfg
                                  then 1%Z else 0%Z]) prefix_text text).
  2:{ intros a c _ _. rewrite slice_first.
      assert (Hl : 0 < length
                (padded_mask SideLeft (input_length cfg)
                   (truncate_ids SideLeft (input_length cfg) (encode tok a))
                 ++ padded_mask SideRight (seq_length cfg - input_length cfg)
                      (truncate_ids SideRight
                         (seq_length cfg - input_length cfg)
                         (encode tok c)))).
      { rewrite length_app, !padded_mask_length. lia. }
      destruct (_ ++ _); [cbn in Hl; lia | reflexivity]. }
  unfold Np.zeros_like. rewrite !map_map2, !concat_cols_map2.
  unfold spec_score_batch. f_equal. f_equal.
  - apply map2_ext. intros a c _ _. unfold spec_input_row, spec_output_row.
    now rewrite slice_drop_last.
  - apply map2_ext. intros a c _ _. unfold spec_input_mask_row.
    now rewrite slice_drop_last.
  - apply map2_ext. intros a c _ _. unfold spec_output_mask_row.
    rewrite map_const_repeat. now rewrite padded_mask_length.
Qed.

End LoglikelihoodBatch.

(** C5. For every batch of (prefix, continuation) pairs, [loglikelihood]
    builds [output_tokens] as the prefix tokens, padded and cut on the
    left to [input_length], followed by the continuation tokens, padded
    and cut on the right to [seq_length - input_length]; [input_tokens]
    is a beginning-of-sequence token followed by [output_tokens] without
    its last token; [input_mask] is the concatenation of the two
    attention masks shifted right by one position, its first position
    being attended exactly when [loglikelihood_add_bos_token] is set; and
    [output_mask] is zero on the prefix positions and the continuation's
    attention mask on the others.  This is the batch the executor is
    called with. *)
Theorem C5_loglikelihood_batch :
  forall (B : Backend) (cfg : Flags) (tok : Tokenizer)
         (prefix_text text : list string) (s : Session B),
    0 < seq_length cfg ->
    input_length cfg <= seq_length cfg ->
    0 < length prefix_text ->
    length prefix_text = length text ->
    loglikelihood_batch cfg tok prefix_text text
    = Some {| input_tokens := Np.map2 (spec_input_row cfg tok) prefix_text text;
              output_tokens :=
                Np.map2 (spec_output_row cfg tok) prefix_text text;
              input_mask :=
                Np.map2 (spec_input_mask_row cfg tok) prefix_text text;
              output_mask :=
                Np.map2 (spec_output_mask_row cfg tok) prefix_text text |}
    /\ exists r,
        calls (snd (loglikelihood B cfg tok prefix_text text s))
        = calls s ++
          [{| call_fn := FwdLoglikelihood;
              call_rng := sharded_rng s;
              call_batch := inl (spec_score_batch cfg tok prefix_text text);
              call_ret := r |}].
Proof.
  intros B cfg tok prefix_text text s HS HI Hne Hlen.
  assert (Hb : loglikelihood_batch cfg tok prefix_text text
               = Some (spec_score_batch cfg tok prefix_text text)).
  { apply loglikelihood_batch_rows; auto.
    destruct prefix_text; [cbn in Hne; lia | discriminate]. }
  split; [exact Hb|].
  unfold loglikelihood. rewrite Hb. cbn [host].
  unfold bind, ret, invoke.
  destruct (forward_loglikelihood B (sharded_rng s)
              (spec_score_batch cfg tok prefix_text text))
    as [[a rng']|]; cbn; eauto.
Qed.

Lemma C5_loglikelihood_batch_witness :
  loglikelihood_batch (Stub.flags 2 4 true) Stub.char_tokenizer
    ["a"%string] ["bc"%string]
  = Some {| input_tokens := [[2; 1; 97; 98]%Z];
            output_tokens := [[1; 97; 98; 99]%Z];
            input_mask := [[1; 0; 1; 1]%Z];
            output_mask := [[0; 0; 1; 1]%Z] |}.
Proof.
  exact (proj1 (C5_loglikelihood_batch (Stub.backend [] 1 97%Z)
                  (Stub.flags 2 4 true) Stub.char_tokenizer
                  ["a"%string] ["bc"%string]
                  (Stub.start (Stub.backend [] 1 97%Z) 0)
                  ltac:(cbn; lia) ltac:(cbn; lia) ltac:(cbn; lia)
                  ltac:(reflexivity))).
Defined.

(** ** The sliding window of [loglikelihood_rolling] *)

Lemma list_max_ge (l : list nat) (n : nat) : In n l -> n <= list_max l.
Proof.
  intros H. pose proof (proj1 (list_max_le l (list_max l)) (le_n _)) as HF.
  rewrite Forall_forall in HF. now apply HF.
Qed.

Lemma tokenizer_longest_rows (tok : Tokenizer) (side : Side)
  (texts : list string) :
  texts <> [] ->
  tokenizer_longest tok side texts
  = Some {| input_ids :=
              map (fun t =>
                     padded_ids tok side
                       (list_max (map (fun t => length (encode tok t)) texts))
                       (encode tok t)) texts;
            attention_mask :=
              map (fun t =>
                     padded_mask side
                       (list_max (map (fun t => length (encode tok t)) texts))
                       (encode tok t)) texts |}.
Proof.
  intros H. destruct texts as [|t texts]; [contradiction|].
  unfold tokenizer_longest. now rewrite !map_map.
Qed.

Lemma pad_row_right_app (n m : nat) (fill : Z) (row : list Z) :
  length row <= n -> n <= m ->
  pad_row SideRight n fill row ++ repeat fill (m - n)
  = pad_row SideRight m fill row.
Proof.
  intros H1 H2. cbn. rewrite <- app_assoc, <- repeat_app.
  do 2 f_equal. lia.
Qed.

Lemma map_ext_in' {A C : Type} (f g : A -> C) (l : list A) :
  (forall a, In a l -> f a = g a) -> map f l = map g l.
Proof. apply map_ext_in. Qed.

Section Rolling.

Variable cfg : Flags.
Variable tok : Tokenizer.

Lemma rolling_total_ge (text : list string) (t : string) :
  In t text -> length (encode tok t) <= rolling_total cfg tok text.
Proof.
  intros H. unfold rolling_total.
  assert (length (encode tok t)
          <= list_max (map (fun t => length (encode tok t)) text)).
  { apply list_max_ge. apply in_map_iff. eauto. }
  lia.
Qed.

(** The arrays built before the loop. *)
Lemma rolling_arrays_rows (text : list string) :
  text <> [] ->
  rolling_arrays cfg tok text = Some (spec_rolling_arrays cfg tok text).
Proof.
  intros Hne. unfold rolling_arrays.
  rewrite tokenizer_longest_rows by assumption.
  cbn [input_ids attention_mask].
  set (n := list_max (map (fun t => length (encode tok t)) text)).
  assert (Hw : Np.width (map (fun t => padded_ids tok SideRight n
                                         (encode tok t)) text) = n).
  { destruct text as [|t text]; [contradiction|]. cbn [map Np.width].
    apply pad_row_length. apply list_max_ge. now left. }
  rewrite Hw, length_map, !full_map.
  assert (Hfinal : forall ot am,
    ot = map (rolling_output_row cfg tok text) text ->
    am = map (rolling_mask_row cfg tok text) text ->
    (do? input_tokens <-
       Np.concat_cols (map (fun _ => repeat (bos_token_id tok) 1) text)
         (Np.slice_cols None (Some (-1)%Z) (fst (ot, am)));
     Some {| roll_input_tokens := input_tokens;
             roll_output_tokens := fst (ot, am);
             roll_attention_mask := snd (ot, am) |})
    = Some (spec_rolling_arrays cfg tok text)).
  { intros ot am -> ->. cbn [fst snd].
    unfold Np.slice_cols. rewrite map_map, concat_cols_map.
    unfold spec_rolling_arrays. do 2 f_equal.
    apply map_ext. intros t. unfold rolling_input_row.
    now rewrite slice_drop_last. }
  destruct (Nat.ltb_spec n (seq_length cfg)) as [Hlt|Hge].
  - rewrite !concat_cols_map. cbv beta iota.
    apply Hfinal.
    + apply map_ext_in. intros t Ht. unfold rolling_output_row, padded_ids.
      unfold rolling_total. fold n.
      rewrite Nat.max_r by lia.
      apply pad_row_right_app; [|lia]. apply list_max_ge.
      apply in_map_iff. eauto.
    + apply map_ext_in. intros t Ht. unfold rolling_mask_row, padded_mask.
      unfold rolling_total. fold n.
      rewrite Nat.max_r by lia.
      apply pad_row_right_app; [|lia]. rewrite repeat_length.
      apply list_max_ge. apply in_map_iff. eauto.
  - cbv beta iota. apply Hfinal.
    + apply map_ext. intros t. unfold rolling_output_row, rolling_total.
      fold n. now rewrite Nat.max_l by lia.
    + apply map_ext. intros t. unfold rolling_mask_row, rolling_total.
      fold n. now rewrite Nat.max_l by lia.
Qed.

End Rolling.

Section Windows.

Variable cfg : Flags.

Lemma window_batch_normal (a : RollingArrays) (total i : nat) :
  i + seq_length cfg <= total ->
  window_batch cfg a total i = spec_normal_window cfg a i.
Proof.
  intros H. unfold window_batch.
  destruct (Nat.ltb_spec total (i + seq_length cfg)); [lia|].
  unfold spec_normal_window, Np.slice_cols.
  f_equal; apply map_ext; intros r; apply slice_range.
Qed.

Lemma slice_cols_last (n total : nat) (m : Np.Matrix) :
  0 < n ->
  Forall (fun r => length r = total) m ->
  Np.slice_cols (Some (- Z.of_nat n)%Z) None m = map (skipn (total - n)) m.
Proof.
  intros Hn Hm. unfold Np.slice_cols. apply map_ext_in.
  intros r Hr. rewrite Forall_forall in Hm.
  rewrite slice_last by assumption. now rewrite (Hm r Hr).
Qed.

Lemma window_batch_last (a : RollingArrays) (total i : nat) :
  0 < seq_length cfg ->
  seq_length cfg <= total ->
  i < total ->
  total < i + seq_length cfg ->
  rectangular a total ->
  window_batch cfg a total i = spec_last_window cfg a total i.
Proof.
  intros HS Hle Hi Hlast (Hin & Hout & Hmask). unfold window_batch.
  destruct (Nat.ltb_spec total (i + seq_length cfg)); [|lia].
  rewrite !(slice_cols_last (seq_length cfg) total) by assumption.
  unfold spec_last_window. f_equal.
  unfold Np.assign_cols_until. rewrite map_map.
  apply map_ext_in. intros r Hr.
  rewrite Forall_forall in Hmask. specialize (Hmask r Hr).
  rewrite length_skipn, Hmask. unfold Np.clip_index.
  destruct (Z.ltb_spec (Z.of_nat i - Z.of_nat total) 0); [|lia].
  replace (Z.to_nat
             (Z.max 0 (Z.of_nat (total - (total - seq_length cfg))
                       + (Z.of_nat i - Z.of_nat total))))
    with (seq_length cfg - (total - i)) by lia.
  rewrite skipn_skipn. do 2 f_equal. lia.
Qed.

(** The offsets of [range(0, total, seq_length)] are the multiples of
    [seq_length] below [total]. *)
Lemma range_step_spec (total step : nat) :
  0 < step ->
  exists offsets,
    Py.range_step total step = Some offsets
    /\ offsets = map (fun k => k * step) (seq 0 ((total + step - 1) / step))
    /\ forall i, In i offsets <-> (i < total /\ exists k, i = k * step).
Proof.
  intros Hs. eexists. split; [|split; [reflexivity|]].
  - unfold Py.range_step. destruct step; [lia|reflexivity].
  - intros i. rewrite in_map_iff. split.
    + intros (k & <- & Hk). apply in_seq in Hk. split; [|eauto].
      assert (Hd : k + 1 <= (total + step - 1) / step) by lia.
      assert (Hm : step * ((total + step - 1) / step) <= total + step - 1)
        by (apply Nat.Div0.mul_div_le).
      nia.
    + intros (Hi & k & ->). exists k. split; [reflexivity|].
      apply in_seq. split; [lia|]. cbn.
      apply Nat.div_le_lower_bound; lia || nia.
Qed.

End Windows.

Section RollingWindows.

Variable cfg : Flags.
Variable tok : Tokenizer.

Lemma spec_rolling_arrays_rectangular (text : list string) :
  0 < seq_length cfg ->
  rectangular (spec_rolling_arrays cfg tok text) (rolling_total cfg tok text).
Proof.
  intros HS.
  assert (Hout : forall t, In t text ->
            length (rolling_output_row cfg tok text t)
            = rolling_total cfg tok text).
  { intros t Ht. apply pad_row_length. now apply rolling_total_ge. }
  assert (H0 : 0 < rolling_total cfg tok text)
    by (unfold rolling_total; lia).
  unfold rectangular, spec_rolling_arrays; cbn.
  rewrite !Forall_map, !Forall_forall. repeat split; intros t Ht.
  - unfold rolling_input_row. cbn [length].
    rewrite removelast_firstn_pred, length_firstn, (Hout t Ht). lia.
  - now apply Hout.
  - unfold rolling_mask_row, padded_mask. apply pad_row_length.
    rewrite repeat_length. now apply rolling_total_ge.
Qed.

End RollingWindows.

(** The arrays, offsets and windows [loglikelihood_rolling] builds for a
    batch of texts, and for one text of 40 tokens with
    [seq_length = 16]. *)
Lemma sliding_windows_built :
  (forall (cfg : Flags) (tok : Tokenizer) (text : list string),
      0 < seq_length cfg ->
      0 < length text ->
      exists offsets,
        rolling_arrays cfg tok text = Some (spec_rolling_arrays cfg tok text)
        /\ Np.width (roll_output_tokens (spec_rolling_arrays cfg tok text))
           = rolling_total cfg tok text
        /\ rolling_offsets cfg (spec_rolling_arrays cfg tok text)
           = Some offsets
        /\ offsets
           = map (fun k => k * seq_length cfg)
               (seq 0 ((rolling_total cfg tok text + seq_length cfg - 1)
                       / seq_length cfg))
        /\ rolling_windows cfg (spec_rolling_arrays cfg tok text)
           = Some (map (window_batch cfg (spec_rolling_arrays cfg tok text)
                          (rolling_total cfg tok text)) offsets)
        /\ forall i, In i offsets ->
             i < rolling_total cfg tok text
             /\ (i + seq_length cfg <= rolling_total cfg tok text ->
                 window_batch cfg (spec_rolling_arrays cfg tok text)
                   (rolling_total cfg tok text) i
                 = spec_normal_window cfg (spec_rolling_arrays cfg tok text) i)
             /\ (rolling_total cfg tok text < i + seq_length cfg ->
                 window_batch cfg (spec_rolling_arrays cfg tok text)
                   (rolling_total cfg tok text) i
                 = spec_last_window cfg (spec_rolling_arrays cfg tok text)
                     (rolling_total cfg tok text) i))
  /\
  (forall (cfg : Flags) (tok : Tokenizer) (t : string),
      seq_length cfg = 16 ->
      length (encode tok t) = 40 ->
      rolling_arrays cfg tok [t] = Some (spec_rolling_arrays cfg tok [t])
      /\ rolling_offsets cfg (spec_rolling_arrays cfg tok [t])
         = Some [0; 16; 32]
      /\ rolling_windows cfg (spec_rolling_arrays cfg tok [t])
         = Some [spec_normal_window cfg (spec_rolling_arrays cfg tok [t]) 0;
                 spec_normal_window cfg (spec_rolling_arrays cfg tok [t]) 16;
                 spec_last_window cfg (spec_rolling_arrays cfg tok [t]) 40 32]
      /\ output_tokens
           (spec_last_window cfg (spec_rolling_arrays cfg tok [t]) 40 32)
         = [skipn 24 (encode tok t)]
      /\ output_mask
           (spec_last_window cfg (spec_rolling_arrays cfg tok [t]) 40 32)
         = [repeat 0%Z 8 ++ repeat 1%Z 8]).
Proof.
  assert (General : forall cfg tok text,
    0 < seq_length cfg -> 0 < length text ->
    exists offsets,
      rolling_arrays cfg tok text = Some (spec_rolling_arrays cfg tok text)
      /\ Np.width (roll_output_tokens (spec_rolling_arrays cfg tok text))
         = rolling_total cfg tok text
      /\ rolling_offsets cfg (spec_rolling_arrays cfg tok text) = Some offsets
      /\ offsets
         = map (fun k => k * seq_length cfg)
             (seq 0 ((rolling_total cfg tok text + seq_length cfg - 1)
                     / seq_length cfg))
      /\ rolling_windows cfg (spec_rolling_arrays cfg tok text)
         = Some (map (window_batch cfg (spec_rolling_arrays cfg tok text)
                        (rolling_total cfg tok text)) offsets)
      /\ forall i, In i offsets ->
           i < rolling_total cfg tok text
           /\ (i + seq_length cfg <= rolling_total cfg tok text ->
               window_batch cfg (spec_rolling_arrays cfg tok text)
                 (rolling_total cfg tok text) i
               = spec_normal_window cfg (spec_rolling_arrays cfg tok text) i)
           /\ (rolling_total cfg tok text < i + seq_length cfg ->
               window_batch cfg (spec_rolling_arrays cfg tok text)
                 (rolling_total cfg tok text) i
               = spec_last_window cfg (spec_rolling_arrays cfg tok text)
                   (rolling_total cfg tok text) i)).
  { intros cfg tok text HS Hne.
    assert (Hne' : text <> []) by (destruct text; [cbn in Hne; lia|discriminate]).
    assert (Hw : Np.width (roll_output_tokens (spec_rolling_arrays cfg tok text))
                 = rolling_total cfg tok text).
    { destruct text as [|t text]; [contradiction|].
      cbn [spec_rolling_arrays roll_output_tokens map Np.width].
      apply pad_row_length. apply rolling_total_ge. now left. }
    destruct (range_step_spec (rolling_total cfg tok text) (seq_length cfg) HS)
      as (offsets & Hr & Ho & Hin).
    exists offsets. repeat split.
    - now apply rolling_arrays_rows.
    - exact Hw.
    - unfold rolling_offsets. now rewrite Hw.
    - exact Ho.
    - unfold rolling_windows, rolling_offsets. now rewrite Hw, Hr.
    - now apply Hin.
    - intros Hi. now apply window_batch_normal.
    - intros Hi. apply window_batch_last; auto.
      + unfold rolling_total. lia.
      + now apply Hin.
      + now apply spec_rolling_arrays_rectangular. }
  split; [exact General|].
  intros cfg tok t HS Ht.
  assert (Htot : rolling_total cfg tok [t] = 40).
  { unfold rolling_total. cbn [map list_max fold_right]. rewrite Ht, HS.
    reflexivity. }
  destruct (General cfg tok [t]) as (offsets & Ha & Hw & Hr & Ho & Hwin & Hi);
    [lia | cbn; lia |].
  rewrite Htot, HS in Ho. cbn in Ho. subst offsets.
  rewrite Htot in Hwin, Hi.
  split; [exact Ha|]. split; [exact Hr|]. split.
  - rewrite Hwin. cbn [map]. do 2 f_equal; [|f_equal; [|f_equal]].
    + apply (Hi 0); [cbn; auto | lia].
    + apply (Hi 16); [cbn; auto | lia].
    + apply (Hi 32); [cbn; auto | lia].
  - unfold spec_last_window, spec_rolling_arrays.
    cbn [output_tokens output_mask roll_output_tokens roll_attention_mask map].
    unfold rolling_output_row, rolling_mask_row, padded_ids, padded_mask,
      pad_row.
    rewrite Htot, HS, repeat_length, Ht.
    change (40 - 40) with 0. change (40 - 16) with 24.
    change (16 - (40 - 32)) with 8. cbn [repeat].
    rewrite !app_nil_r. split; reflexivity.
Qed.

(** ** The input mask of the sliding window *)

Lemma last_skipn {A : Type} (k : nat) (l : list A) (d : A) :
  k < length l -> last (skipn k l) d = last l d.
Proof.
  revert l. induction k as [|k IH]; intros l H; [reflexivity|].
  destruct l as [|a l]; [cbn in H; lia|].
  cbn [skipn]. rewrite IH by (cbn in H; lia).
  destruct l; [cbn in H; lia | reflexivity].
Qed.

Lemma hd_firstn {A : Type} (n : nat) (l : list A) (d : A) :
  0 < n -> hd d (firstn n l) = hd d l.
Proof. intros H. destruct n; [lia|]. now destruct l. Qed.

Section RollingMask.

Variable cfg : Flags.
Variable tok : Tokenizer.

Lemma rolling_input_mask_unshifted (text : list string) :
  0 < seq_length cfg ->
  input_mask_unshifted cfg (spec_rolling_arrays cfg tok text)
    (rolling_total cfg tok text).
Proof.
  intros HS i Hi. unfold window_start.
  pose proof (spec_rolling_arrays_rectangular cfg tok text HS) as Hrect.
  assert (Hle : seq_length cfg <= rolling_total cfg tok text)
    by (unfold rolling_total; lia).
  destruct (Nat.leb_spec (i + seq_length cfg) (rolling_total cfg tok text)).
  - now rewrite window_batch_normal.
  - rewrite window_batch_last by auto. cbn [spec_last_window input_mask].
    apply map_ext_in. intros r Hr.
    destruct Hrect as (_ & _ & Hm). rewrite Forall_forall in Hm.
    symmetry. apply firstn_all2. rewrite length_skipn, (Hm r Hr). lia.
Qed.

Lemma rolling_bos_bit (text : list string) :
  0 < seq_length cfg ->
  bos_bit_is_first_token_bit cfg tok text.
Proof.
  intros HS. unfold bos_bit_is_first_token_bit.
  rewrite window_batch_normal by (unfold rolling_total; lia).
  cbn [spec_normal_window input_tokens input_mask spec_rolling_arrays
       roll_input_tokens roll_attention_mask].
  rewrite !map_map. split; apply map_ext; intros t;
    rewrite hd_firstn by assumption; reflexivity.
Qed.

Lemma rolling_last_bit (text : list string) (i : nat) :
  0 < seq_length cfg ->
  i < rolling_total cfg tok text ->
  rolling_total cfg tok text <= i + seq_length cfg ->
  map (fun r => last r 0%Z)
    (input_mask (window_batch cfg (spec_rolling_arrays cfg tok text)
                   (rolling_total cfg tok text) i))
  = map (fun t => last (rolling_mask_row cfg tok text t) 0%Z) text.
Proof.
  intros HS Hi Hend.
  rewrite (rolling_input_mask_unshifted text HS i Hi).
  pose proof (spec_rolling_arrays_rectangular cfg tok text HS)
    as (_ & _ & Hm).
  cbn [spec_rolling_arrays roll_attention_mask] in *.
  rewrite Forall_map, Forall_forall in Hm.
  rewrite !map_map. apply map_ext_in. intros t Ht.
  assert (Hs : window_start cfg (rolling_total cfg tok text) i
               < rolling_total cfg tok text).
  { unfold window_start.
    destruct (Nat.leb_spec (i + seq_length cfg) (rolling_total cfg tok text));
      lia. }
  rewrite firstn_all2.
  - apply last_skipn. now rewrite (Hm t Ht).
  - rewrite length_skipn, (Hm t Ht). unfold window_start.
    destruct (Nat.leb_spec (i + seq_length cfg) (rolling_total cfg tok text));
      lia.
Qed.

End RollingMask.

(** C4, refuted as stated: with [seq_length = 4] and the four-token text
    "abcd", the only window has the input mask [1; 1; 1; 1]; clearing the
    attention bit of the last token changes it to [1; 1; 1; 0].  The
    last token's attention bit is therefore used as an input-mask bit. *)
Lemma C4_last_bit_counterexample :
  ~ rolling_mask_reading (Stub.flags 0 4 false) Stub.char_tokenizer
      ["abcd"%string].
Proof.
  intros (_ & _ & H). specialize (H 0%Z). vm_compute in H. discriminate H.
Qed.

(** C4, amended.  In [loglikelihood_rolling] the input mask of every
    window is the slice, at the window's own columns, of the tokenizer's
    attention mask (padded with zeros on the right up to [seq_length]),
    although the input tokens are shifted right by one position behind a
    beginning-of-sequence token.  The position of that token in the
    first window carries the attention bit of the first token of the
    text, and the last column of the attention mask is the last
    input-mask bit of the final window.  Neither the arrays nor the
    windows depend on [loglikelihood_add_bos_token]. *)
Theorem C4_rolling_input_mask :
  forall (cfg : Flags) (tok : Tokenizer) (text : list string),
    0 < seq_length cfg ->
    0 < length text ->
    rolling_arrays cfg tok text = Some (spec_rolling_arrays cfg tok text)
    /\ input_mask_unshifted cfg (spec_rolling_arrays cfg tok text)
         (rolling_total cfg tok text)
    /\ bos_bit_is_first_token_bit cfg tok text
    /\ (forall i,
           i < rolling_total cfg tok text ->
           rolling_total cfg tok text <= i + seq_length cfg ->
           map (fun r => last r 0%Z)
             (input_mask (window_batch cfg (spec_rolling_arrays cfg tok text)
                            (rolling_total cfg tok text) i))
           = map (fun t => last (rolling_mask_row cfg tok text t) 0%Z) text)
    /\ (forall b : bool,
           rolling_arrays (set_add_bos b cfg) tok text
           = rolling_arrays cfg tok text
           /\ forall a total i,
               window_batch (set_add_bos b cfg) a total i
               = window_batch cfg a total i).
Proof.
  intros cfg tok text HS Hne. repeat split.
  - apply rolling_arrays_rows. destruct text; [cbn in Hne; lia|discriminate].
  - now apply rolling_input_mask_unshifted.
  - now apply rolling_bos_bit.
  - now apply rolling_bos_bit.
  - intros i Hi Hend. now apply rolling_last_bit.
Qed.

Lemma C4_rolling_input_mask_witness :
  input_mask_unshifted (Stub.flags 0 4 false)
    (spec_rolling_arrays (Stub.flags 0 4 false) Stub.char_tokenizer
       ["abcdef"%string])
    (rolling_total (Stub.flags 0 4 false) Stub.char_tokenizer
       ["abcdef"%string]).
Proof.
  exact (proj1 (proj2 (C4_rolling_input_mask (Stub.flags 0 4 false)
                         Stub.char_tokenizer ["abcdef"%string]
                         ltac:(cbn; lia) ltac:(cbn; lia)))).
Defined.

(** ** The loop of [greedy_until] *)

Lemma ceil_div_step (x L : Z) :
  (0 < L)%Z -> (ceil_div (x - L) L = ceil_div x L - 1)%Z.
Proof.
  intros HL. unfold ceil_div.
  replace (x - L + L - 1)%Z with (x + L - 1 + (-1) * L)%Z by lia.
  rewrite Z.div_add by lia. lia.
Qed.

Lemma ceil_div_pos (x L : Z) :
  (0 < L)%Z -> (0 < x)%Z -> (1 <= ceil_div x L)%Z.
Proof.
  intros HL Hx. unfold ceil_div.
  apply Z.div_le_lower_bound; lia.
Qed.

Lemma ceil_div_nonpos (x L : Z) :
  (0 < L)%Z -> (x <= 0)%Z -> (ceil_div x L <= 0)%Z.
Proof.
  intros HL Hx. unfold ceil_div.
  assert ((x + L - 1) / L < 1)%Z; [|lia].
  apply Z.div_lt_upper_bound; lia.
Qed.

Section GreedyUntil.

Variable B : Backend.
Variable cfg : Flags.
Variable tok : Tokenizer.

(** With a bound that is already reached the loop body is not entered. *)
Lemma until_loop_skip (fuel : nat) (ut : list string) (max_length : Z)
  (pf : string) (total_length : Z) (total_generated : string)
  (iterations : nat) (s : Session B) :
  (max_length <= total_length)%Z ->
  until_loop B cfg tok fuel ut max_length pf total_length total_generated
    iterations s
  = (Ret {| exit_text := total_generated;
            exit_total_length := total_length;
            exit_iterations := iterations;
            exit_done := false |}, s).
Proof.
  intros H. destruct fuel; cbn [until_loop];
    destruct (Z.ltb_spec total_length max_length); try lia; reflexivity.
Qed.

Lemma greedy_until_pairs_skip (fuel : nat) (pairs : list (string * Until))
  (max_length : Z) (all_outputs : list string) (s : Session B) :
  (max_length <= 0)%Z ->
  greedy_until_pairs B cfg tok fuel pairs max_length all_outputs s
  = (Ret (all_outputs ++ map (fun _ => ""%string) pairs), s).
Proof.
  intros H. revert all_outputs.
  induction pairs as [|[pf ut] pairs IH]; intros all_outputs.
  - cbn. now rewrite app_nil_r.
  - cbn [greedy_until_pairs map]. unfold bind.
    rewrite until_loop_skip by assumption. cbn [exit_text].
    rewrite IH. now rewrite <- app_assoc.
Qed.

End GreedyUntil.

(** C10. For every (prefix, stop set) pair, if [max_length <= 0] the body
    of the loop of [greedy_until] is never entered: no executor is
    invoked, the session (and with it the RNG state) is unchanged, and
    the empty string is appended to the outputs. *)
Theorem C10_nonpositive_max_length :
  forall (B : Backend) (cfg : Flags) (tok : Tokenizer) (fuel : nat)
         (prefix_text : list string) (until : list Until) (max_length : Z)
         (s : Session B),
    (max_length <= 0)%Z ->
    (forall pf ut,
        until_loop B cfg tok fuel (stop_list ut) max_length pf 0%Z ""%string
          0 s
        = (Ret {| exit_text := ""%string;
                  exit_total_length := 0%Z;
                  exit_iterations := 0;
                  exit_done := false |}, s))
    /\ greedy_until B cfg tok fuel prefix_text until max_length s
       = (Ret (map (fun _ => ""%string) (combine prefix_text until)), s)
    /\ sharded_rng
         (snd (greedy_until B cfg tok fuel prefix_text until max_length s))
       = sharded_rng s
    /\ calls
         (snd (greedy_until B cfg tok fuel prefix_text until max_length s))
       = calls s.
Proof.
  intros B cfg tok fuel prefix_text until max_length s H.
  assert (Hg : greedy_until B cfg tok fuel prefix_text until max_length s
               = (Ret (map (fun _ => ""%string) (combine prefix_text until)),
                  s)).
  { unfold greedy_until. now rewrite greedy_until_pairs_skip. }
  split; [|rewrite Hg; auto].
  intros pf ut. now apply until_loop_skip.
Qed.

Lemma C10_nonpositive_max_length_witness :
  greedy_until (Stub.backend [] 1 97%Z) (Stub.flags 2 4 false)
    Stub.char_tokenizer 0 ["a"; "b"]%string
    [UntilStr "x"; UntilList []] (-3)%Z
    (Stub.start (Stub.backend [] 1 97%Z) 0)
  = (Ret [""; ""]%string, Stub.start (Stub.backend [] 1 97%Z) 0).
Proof.
  exact (proj1 (proj2 (C10_nonpositive_max_length
                         (Stub.backend [] 1 97%Z) (Stub.flags 2 4 false)
                         Stub.char_tokenizer 0 ["a"; "b"]%string
                         [UntilStr "x"; UntilList []] (-3)%Z
                         (Stub.start (Stub.backend [] 1 97%Z) 0)
                         ltac:(lia)))).
Defined.

Section LoopSteps.

Variable B : Backend.
Variable cfg : Flags.
Variable tok : Tokenizer.

Lemma invoke_unfold {A : Type} (fn : ExecFn) (batch : ScoreBatch + GenBatch)
  (executor : RNG B -> option (A * RNG B)) (s : Session B) :
  invoke fn batch executor s
  = match executor (sharded_rng s) with
    | Some (a, rng') => (Ret a, after_call fn batch (Some rng') s)
    | None => (Raise ExecutorError, after_call fn batch None s)
    end.
Proof. reflexivity. Qed.

(** One iteration of the loop of [greedy_until]. *)
Lemma until_loop_step (fuel : nat) (ut : list string) (max_length : Z)
  (pf : string) (total_length : Z) (total_generated : string)
  (iterations : nat) (s : Session B) :
  (total_length < max_length)%Z ->
  until_loop B cfg tok (S fuel) ut max_length pf total_length
    total_generated iterations s
  = match prefix_batch cfg tok pf with
    | None => (Raise HostError, s)
    | Some batch =>
        match forward_greedy_generate B cfg (sharded_rng s) batch with
        | None =>
            (Raise ExecutorError,
             after_call FwdGreedyGenerate (inr batch) None s)
        | Some (output, rng') =>
            let s1 := after_call FwdGreedyGenerate (inr batch) (Some rng') s in
            let total_length' :=
              (total_length + Z.of_nat (Np.width output))%Z in
            match hd_error output with
            | None => (Raise HostError, s1)
            | Some row =>
                match scan_stops ut
                        (total_generated ++ decode tok row)%string false with
                | None => (Raise HostError, s1)
                | Some (t, true) =>
                    (Ret {| exit_text := t;
                            exit_total_length := total_length';
                            exit_iterations := S iterations;
                            exit_done := true |}, s1)
                | Some (t, false) =>
                    until_loop B cfg tok fuel ut max_length
                      (pf ++ decode tok row)%string total_length' t
                      (S iterations) s1
                end
            end
        end
    end.
Proof.
  intros H. cbn [until_loop].
  destruct (Z.ltb_spec total_length max_length); [|lia].
  unfold bind at 1. destruct (prefix_batch cfg tok pf) as [batch|];
    [|reflexivity].
  cbn [host]. unfold ret at 1. unfold bind at 1.
  rewrite invoke_unfold.
  destruct (forward_greedy_generate B cfg (sharded_rng s) batch)
    as [[output rng']|]; [|reflexivity].
  unfold bind at 1. destruct (hd_error output) as [row|]; [|reflexivity].
  cbn [option_map host]. unfold ret at 1. unfold bind at 1.
  destruct (scan_stops ut (total_generated ++ decode tok row) false)
    as [[t [|]]|]; reflexivity.
Qed.

Lemma after_call_calls (fn : ExecFn) (batch : ScoreBatch + GenBatch)
  (ret : option (RNG B)) (s : Session B) :
  length (calls (after_call fn batch ret s)) = S (length (calls s)).
Proof. cbn. rewrite length_app. cbn. lia. Qed.

(** The loop runs for at most [ceil (max_length - total_length) / L]
    further iterations when every call yields [L > 0] tokens. *)
Lemma until_loop_bounded (L : nat) (ut : list string) (max_length : Z) :
  0 < L ->
  fixed_output_length B cfg tok L ->
  forall (fuel : nat) (pf : string) (total_length : Z)
         (total_generated : string) (iterations : nat) (s : Session B),
    Z.to_nat (ceil_div (max_length - total_length) (Z.of_nat L)) <= fuel ->
    fst (until_loop B cfg tok fuel ut max_length pf total_length
           total_generated iterations s) <> OutOfFuel
    /\ length (calls (snd (until_loop B cfg tok fuel ut max_length pf
                             total_length total_generated iterations s)))
       <= length (calls s)
          + Z.to_nat (ceil_div (max_length - total_length) (Z.of_nat L))
    /\ forall r,
         fst (until_loop B cfg tok fuel ut max_length pf total_length
                total_generated iterations s) = Ret r ->
         exit_iterations r
         <= iterations
            + Z.to_nat (ceil_div (max_length - total_length) (Z.of_nat L))
         /\ (exit_total_length r
             = total_length
               + Z.of_nat L * Z.of_nat (exit_iterations r - iterations))%Z
         /\ iterations <= exit_iterations r
         /\ (exit_done r = false -> (max_length <= exit_total_length r)%Z).
Proof.
  intros HL Hfix fuel.
  assert (Hskip : forall pf total_length total_generated iterations s fuel',
    (max_length <= total_length)%Z ->
    fst (until_loop B cfg tok fuel' ut max_length pf total_length
           total_generated iterations s) <> OutOfFuel
    /\ length (calls (snd (until_loop B cfg tok fuel' ut max_length pf
                             total_length total_generated iterations s)))
       <= length (calls s)
          + Z.to_nat (ceil_div (max_length - total_length) (Z.of_nat L))
    /\ forall r,
         fst (until_loop B cfg tok fuel' ut max_length pf total_length
                total_generated iterations s) = Ret r ->
         exit_iterations r
         <= iterations
            + Z.to_nat (ceil_div (max_length - total_length) (Z.of_nat L))
         /\ (exit_total_length r
             = total_length
               + Z.of_nat L * Z.of_nat (exit_iterations r - iterations))%Z
         /\ iterations <= exit_iterations r
         /\ (exit_done r = false -> (max_length <= exit_total_length r)%Z)).
  { intros pf total_length total_generated iterations s fuel' Hge.
    rewrite until_loop_skip by assumption. cbn [fst snd].
    split; [discriminate|]. split; [lia|].
    intros r Hr. injection Hr as <-.
    cbn [exit_iterations exit_total_length exit_done].
    rewrite Nat.sub_diag. repeat split; lia. }
  induction fuel as [|fuel IH];
    intros pf total_length total_generated iterations s Hfuel.
  - destruct (Z.ltb_spec total_length max_length) as [Hlt|Hge].
    + pose proof (ceil_div_pos (max_length - total_length) (Z.of_nat L)).
      lia.
    + now apply Hskip.
  - destruct (Z.ltb_spec total_length max_length) as [Hlt|Hge];
      [|now apply Hskip].
    pose proof (ceil_div_pos (max_length - total_length) (Z.of_nat L)
                  ltac:(lia) ltac:(lia)) as Hpos.
    rewrite until_loop_step by assumption.
    destruct (prefix_batch cfg tok pf) as [batch|] eqn:Hb.
    2:{ cbn. split; [discriminate|]. split; [lia|]. discriminate. }
    destruct (forward_greedy_generate B cfg (sharded_rng s) batch)
      as [[output rng']|] eqn:Hg.
    2:{ cbn [fst snd]. rewrite after_call_calls.
        split; [discriminate|]. split; [lia|]. discriminate. }
    rewrite (Hfix _ _ _ _ _ Hb Hg). cbv zeta.
    destruct (hd_error output) as [row|].
    2:{ cbn [fst snd]. rewrite after_call_calls.
        split; [discriminate|]. split; [lia|]. discriminate. }
    destruct (scan_stops ut (total_generated ++ decode tok row) false)
      as [[t [|]]|].
    + cbn [fst snd]. rewrite after_call_calls.
      split; [discriminate|]. split; [lia|].
      intros r Hr. injection Hr as <-.
      cbn [exit_iterations exit_total_length exit_done].
      replace (S iterations - iterations) with 1 by lia.
      repeat split; try lia; try discriminate.
    + pose proof (ceil_div_step (max_length - total_length) (Z.of_nat L)
                    ltac:(lia)) as Hstep.
      replace (max_length - total_length - Z.of_nat L)%Z
        with (max_length - (total_length + Z.of_nat L))%Z in Hstep by lia.
      specialize (IH (pf ++ decode tok row)%string
                    (total_length + Z.of_nat L)%Z t (S iterations)
                    (after_call FwdGreedyGenerate (inr batch) (Some rng') s)
                    ltac:(lia)).
      destruct IH as (IH1 & IH2 & IH3).
      rewrite after_call_calls in IH2.
      split; [exact IH1|]. split; [lia|].
      intros r Hr. destruct (IH3 r Hr) as (I1 & I2 & I3 & I4).
      repeat split; try lia; auto.
      rewrite I2.
      replace (exit_iterations r - iterations)
        with (S (exit_iterations r - S iterations)) by lia.
      lia.
    + cbn [fst snd]. rewrite after_call_calls.
      split; [discriminate|]. split; [lia|]. discriminate.
Qed.

End LoopSteps.

(** [l[i:]]. *)
Lemma slice_from {A : Type} (i : nat) (l : list A) :
  Np.slice (Some (Z.of_nat i)) None l = skipn i l.
Proof.
  unfold Np.slice, Np.clip_index.
  destruct (Z.ltb_spec (Z.of_nat i) 0); [lia|].
  destruct (Nat.le_gt_cases i (length l)) as [Hi|Hi].
  - rewrite Z.min_r by lia. rewrite Nat2Z.id.
    apply firstn_all2. rewrite length_skipn. lia.
  - rewrite Z.min_l by lia. rewrite Z.sub_diag, Nat2Z.id.
    rewrite skipn_all, (skipn_all2 (n:=i)) by lia. reflexivity.
Qed.

Lemma skipn_repeat_same {A : Type} (x : A) (k n : nat) :
  skipn k (repeat x n) = repeat x (n - k).
Proof.
  revert n. induction k as [|k IH]; intros n.
  - now rewrite Nat.sub_0_r.
  - destruct n as [|n]; [reflexivity|]. cbn. apply IH.
Qed.

Section PrefixBatch.

Variable cfg : Flags.
Variable tok : Tokenizer.

(** The batch of one iteration of [greedy_until]: one row, the live
    prefix cut to its last [input_length] tokens and padded on the left
    to [input_length]. *)
Lemma prefix_batch_rows (pf : string) :
  0 < input_length cfg ->
  prefix_batch cfg tok pf
  = Some {| gen_input_tokens :=
              [padded_ids tok SideLeft (input_length cfg)
                 (truncate_ids SideLeft (input_length cfg) (encode tok pf))];
            gen_attention_mask :=
              [padded_mask SideLeft (input_length cfg)
                 (truncate_ids SideLeft (input_length cfg) (encode tok pf))] |}.
Proof.
  intros HI. unfold prefix_batch, tokenizer_single.
  cbn [input_ids attention_mask Np.width].
  unfold padded_ids, padded_mask, pad_row, truncate_ids.
  destruct (Nat.ltb_spec (length (encode tok pf)) (input_length cfg))
    as [Hlt|Hge].
  - cbn [Np.full repeat Np.concat_cols].
    replace (length (encode tok pf) - input_length cfg) with 0 by lia.
    cbn [skipn]. rewrite repeat_length. reflexivity.
  - destruct (Nat.ltb_spec (input_length cfg) (length (encode tok pf)))
      as [Hlt|Hle].
    + cbn [Np.slice_cols map]. rewrite !slice_last by assumption.
      rewrite !length_skipn, !repeat_length.
      replace (input_length cfg
               - (length (encode tok pf)
                  - (length (encode tok pf) - input_length cfg))) with 0
        by lia.
      cbn [repeat app]. do 3 f_equal.
      apply skipn_repeat_same.
    + replace (length (encode tok pf) - input_length cfg) with 0 by lia.
      cbn [skipn]. rewrite repeat_length.
      replace (input_length cfg - length (encode tok pf)) with 0 by lia.
      reflexivity.
Qed.

End PrefixBatch.

(** The small backend yields [seq_length - input_length] tokens per call
    and never fails on a one-row batch. *)
Lemma stub_forward_greedy_generate (script : list Z) (guess : Z)
  (input_len seq_len : nat) (rng : nat) (row mask : Np.Row) :
  length row = input_len ->
  forward_greedy_generate (Stub.backend script 1 guess)
    (Stub.flags input_len seq_len false) rng
    {| gen_input_tokens := [row]; gen_attention_mask := [mask] |}
  = Some ([skipn input_len
             (firstn seq_len (row ++ script ++ repeat 1%Z seq_len))],
          2 * (2 * rng + 1) + 2).
Proof.
  intros Hrow. unfold forward_greedy_generate, forward_generate_with.
  cbn [Stub.backend rng_split hf_generate gen_input_tokens
       gen_attention_mask Stub.flags seq_length snd length Nat.modulo
       Nat.divmod fst Nat.eqb Nat.sub map Np.width Np.slice_cols].
  rewrite Hrow, slice_from. reflexivity.
Qed.

Lemma stub_fixed_output_length (script : list Z) (guess : Z)
  (input_len seq_len : nat) :
  0 < input_len ->
  input_len <= seq_len ->
  fixed_output_length (Stub.backend script 1 guess)
    (Stub.flags input_len seq_len false) Stub.char_tokenizer
    (seq_len - input_len).
Proof.
  intros HI HS rng pf batch out rng' Hb Hg.
  pose proof (prefix_batch_rows (Stub.flags input_len seq_len false)
                Stub.char_tokenizer pf HI) as Hrows.
  assert (Hbatch : Some batch = Some _) by (rewrite <- Hb; exact Hrows).
  apply (f_equal (fun o => match o with Some b => b | None => batch end))
    in Hbatch.
  rewrite Hbatch in Hg.
  rewrite stub_forward_greedy_generate in Hg
    by (apply padded_ids_length).
  assert (Hout : out = fst (out, rng')) by reflexivity.
  rewrite Hout.
  rewrite <- (f_equal (fun o => match o with
                                | Some p => fst p
                                | None => out
                                end) Hg).
  cbn [fst Np.width].
  rewrite length_skipn, length_firstn, !length_app, repeat_length. lia.
Qed.

Lemma stub_generation_succeeds (script : list Z) (guess : Z)
  (input_len seq_len : nat) :
  0 < input_len ->
  generation_succeeds (Stub.backend script 1 guess)
    (Stub.flags input_len seq_len false) Stub.char_tokenizer.
Proof.
  intros HI rng pf batch Hb.
  pose proof (prefix_batch_rows (Stub.flags input_len seq_len false)
                Stub.char_tokenizer pf HI) as Hrows.
  assert (Hbatch : Some batch = Some _) by (rewrite <- Hb; exact Hrows).
  apply (f_equal (fun o => match o with Some b => b | None => batch end))
    in Hbatch.
  rewrite Hbatch.
  rewrite stub_forward_greedy_generate by (apply padded_ids_length).
  eauto.
Qed.

(** C7. For every prefix, stop set and [max_length], the loop of
    [greedy_until] for one pair terminates after at most
    [ceil (max_length / L)] iterations, [L > 0] being the number of
    tokens every generation call produces: [total_length] grows by [L]
    in each iteration, and the loop is left as soon as
    [total_length >= max_length], or earlier when a stop string is
    found.  The bound is a count: it is zero when [max_length <= 0]. *)
Theorem C7_greedy_until_terminates :
  forall (B : Backend) (cfg : Flags) (tok : Tokenizer) (L : nat)
         (ut : list string) (pf : string) (max_length : Z) (fuel : nat)
         (s : Session B),
    0 < L ->
    fixed_output_length B cfg tok L ->
    Z.to_nat (ceil_div max_length (Z.of_nat L)) <= fuel ->
    fst (until_loop B cfg tok fuel ut max_length pf 0%Z ""%string 0 s)
    <> OutOfFuel
    /\ length (calls (snd (until_loop B cfg tok fuel ut max_length pf 0%Z
                             ""%string 0 s)))
       <= length (calls s) + Z.to_nat (ceil_div max_length (Z.of_nat L))
    /\ forall r,
         fst (until_loop B cfg tok fuel ut max_length pf 0%Z ""%string 0 s)
         = Ret r ->
         (Z.of_nat (exit_iterations r)
          <= Z.max 0 (ceil_div max_length (Z.of_nat L)))%Z
         /\ (exit_total_length r
             = Z.of_nat L * Z.of_nat (exit_iterations r))%Z
         /\ (exit_done r = false -> (max_length <= exit_total_length r)%Z).
Proof.
  intros B cfg tok L ut pf max_length fuel s HL Hfix Hfuel.
  pose proof (until_loop_bounded B cfg tok L ut max_length HL Hfix fuel pf
                0%Z ""%string 0 s) as H.
  rewrite Z.sub_0_r in H. specialize (H Hfuel).
  destruct H as (H1 & H2 & H3).
  split; [exact H1|]. split; [exact H2|].
  intros r Hr. destruct (H3 r Hr) as (I1 & I2 & _ & I4).
  rewrite Nat.sub_0_r in I2. repeat split; auto; lia.
Qed.

Lemma C7_greedy_until_terminates_witness :
  fst (until_loop (Stub.backend [120; 121; 122]%Z 1 97%Z)
         (Stub.flags 2 5 false) Stub.char_tokenizer 3 ["q"%string]
         7%Z "ab"%string 0%Z ""%string 0
         (Stub.start (Stub.backend [120; 121; 122]%Z 1 97%Z) 0))
  <> OutOfFuel.
Proof.
  exact (proj1 (C7_greedy_until_terminates
                  (Stub.backend [120; 121; 122]%Z 1 97%Z)
                  (Stub.flags 2 5 false) Stub.char_tokenizer 3
                  ["q"%string] "ab"%string 7%Z 3
                  (Stub.start (Stub.backend [120; 121; 122]%Z 1 97%Z) 0)
                  ltac:(lia)
                  (stub_fixed_output_length [120; 121; 122]%Z 97%Z 2 5
                     ltac:(lia) ltac:(lia))
                  ltac:(vm_compute; lia))).
Defined.

Section EmptyStopSet.

Variable B : Backend.
Variable cfg : Flags.
Variable tok : Tokenizer.

(** With no stop string the loop is never left through [break]. *)
Lemma until_loop_no_stops (max_length : Z) (fuel : nat) :
  forall (pf : string) (total_length : Z) (total_generated : string)
         (iterations : nat) (s : Session B) (r : LoopExit),
    fst (until_loop B cfg tok fuel [] max_length pf total_length
           total_generated iterations s) = Ret r ->
    exit_done r = false /\ (max_length <= exit_total_length r)%Z.
Proof.
  induction fuel as [|fuel IH];
    intros pf total_length total_generated iterations s r Hr;
    destruct (Z.ltb_spec total_length max_length) as [Hlt|Hge].
  - cbn [until_loop] in Hr.
    destruct (Z.ltb_spec total_length max_length); [|lia].
    discriminate Hr.
  - rewrite until_loop_skip in Hr by assumption.
    injection Hr as <-. cbn. split; [reflexivity|lia].
  - rewrite until_loop_step in Hr by assumption.
    destruct (prefix_batch cfg tok pf) as [batch|]; [|discriminate Hr].
    destruct (forward_greedy_generate B cfg (sharded_rng s) batch)
      as [[output rng']|]; [|discriminate Hr].
    cbv zeta in Hr.
    destruct (hd_error output) as [row|]; [|discriminate Hr].
    cbn [scan_stops] in Hr. now apply IH in Hr.
  - rewrite until_loop_skip in Hr by assumption.
    injection Hr as <-. cbn. split; [reflexivity|lia].
Qed.

(** With no stop string, a backend that always returns [L > 0] tokens
    and enough fuel, the loop runs exactly
    [ceil (max_length - total_length) / L] more iterations. *)
Lemma until_loop_no_stops_runs (L : nat) (max_length : Z) :
  0 < L ->
  fixed_output_length B cfg tok L ->
  generation_succeeds B cfg tok ->
  (forall pf, prefix_batch cfg tok pf <> None) ->
  forall (fuel : nat) (pf : string) (total_length : Z)
         (total_generated : string) (iterations : nat) (s : Session B),
    Z.to_nat (ceil_div (max_length - total_length) (Z.of_nat L)) <= fuel ->
    exists r,
      fst (until_loop B cfg tok fuel [] max_length pf total_length
             total_generated iterations s) = Ret r
      /\ exit_iterations r
         = iterations
           + Z.to_nat (ceil_div (max_length - total_length) (Z.of_nat L))
      /\ length (calls (snd (until_loop B cfg tok fuel [] max_length pf
                               total_length total_generated iterations s)))
         = length (calls s)
           + Z.to_nat (ceil_div (max_length - total_length) (Z.of_nat L)).
Proof.
  intros HL Hfix Hgen Hpb fuel.
  induction fuel as [|fuel IH];
    intros pf total_length total_generated iterations s Hfuel;
    destruct (Z.ltb_spec total_length max_length) as [Hlt|Hge].
  - pose proof (ceil_div_pos (max_length - total_length) (Z.of_nat L)). lia.
  - rewrite until_loop_skip by assumption. eexists. split; [reflexivity|].
    pose proof (ceil_div_nonpos (max_length - total_length) (Z.of_nat L)).
    cbn [exit_iterations snd]. lia.
  - pose proof (ceil_div_pos (max_length - total_length) (Z.of_nat L)
                  ltac:(lia) ltac:(lia)) as Hpos.
    rewrite until_loop_step by assumption.
    destruct (prefix_batch cfg tok pf) as [batch|] eqn:Hb;
      [|now destruct (Hpb pf)].
    destruct (Hgen (sharded_rng s) pf batch Hb) as (row & rest & rng' & Hg).
    rewrite Hg. rewrite (Hfix _ _ _ _ _ Hb Hg). cbv zeta.
    cbn [hd_error scan_stops].
    pose proof (ceil_div_step (max_length - total_length) (Z.of_nat L)
                  ltac:(lia)) as Hstep.
    replace (max_length - total_length - Z.of_nat L)%Z
      with (max_length - (total_length + Z.of_nat L))%Z in Hstep by lia.
    destruct (IH (pf ++ decode tok row)%string
                (total_length + Z.of_nat L)%Z
                (total_generated ++ decode tok row)%string (S iterations)
                (after_call FwdGreedyGenerate (inr batch) (Some rng') s)
                ltac:(lia)) as (r & Hr & Hit & Hcalls).
    exists r. split; [exact Hr|].
    rewrite after_call_calls in Hcalls. lia.
  - rewrite until_loop_skip by assumption. eexists. split; [reflexivity|].
    pose proof (ceil_div_nonpos (max_length - total_length) (Z.of_nat L)).
    cbn [exit_iterations snd]. lia.
Qed.

End EmptyStopSet.

Lemma prefix_batch_some (cfg : Flags) (tok : Tokenizer) (pf : string) :
  prefix_batch cfg tok pf <> None.
Proof.
  unfold prefix_batch, tokenizer_single.
  cbn [input_ids attention_mask Np.width].
  destruct (Nat.ltb_spec (length (encode tok pf)) (input_length cfg));
    [cbn; discriminate|].
  destruct (Nat.ltb_spec (input_length cfg) (length (encode tok pf)));
    discriminate.
Qed.

(** C9. For every prefix, with an empty set of stop strings, the loop of
    [greedy_until] is never left through a stop-string match ([done] is
    never set), and generation goes on until
    [total_length >= max_length]: whenever the loop returns it returns
    with [done] unset and the bound reached, and with a backend that
    yields [L > 0] tokens per call it does return, after exactly
    [ceil (max_length / L)] executor invocations. *)
Theorem C9_empty_stop_set :
  forall (B : Backend) (cfg : Flags) (tok : Tokenizer) (fuel : nat)
         (pf : string) (max_length : Z) (s : Session B),
    stop_list (UntilList []) = []
    /\ (forall total_generated,
           scan_stops [] total_generated false
           = Some (total_generated, false))
    /\ (forall r,
           fst (until_loop B cfg tok fuel [] max_length pf 0%Z ""%string 0 s)
           = Ret r ->
           exit_done r = false /\ (max_length <= exit_total_length r)%Z)
    /\ (forall L,
           0 < L ->
           fixed_output_length B cfg tok L ->
           generation_succeeds B cfg tok ->
           Z.to_nat (ceil_div max_length (Z.of_nat L)) <= fuel ->
           exists r,
             fst (until_loop B cfg tok fuel [] max_length pf 0%Z ""%string
                    0 s) = Ret r
             /\ exit_done r = false
             /\ (max_length <= exit_total_length r)%Z
             /\ exit_iterations r
                = Z.to_nat (ceil_div max_length (Z.of_nat L))
             /\ length (calls (snd (until_loop B cfg tok fuel [] max_length
                                      pf 0%Z ""%string 0 s)))
                = length (calls s)
                  + Z.to_nat (ceil_div max_length (Z.of_nat L))).
Proof.
  intros B cfg tok fuel pf max_length s.
  split; [reflexivity|]. split; [reflexivity|]. split.
  - intros r Hr. now apply until_loop_no_stops in Hr.
  - intros L HL Hfix Hgen Hfuel.
    pose proof (until_loop_no_stops_runs B cfg tok L max_length HL Hfix Hgen
                  (prefix_batch_some cfg tok) fuel pf 0%Z ""%string 0 s) as H.
    rewrite Z.sub_0_r in H.
    destruct (H Hfuel) as (r & Hr & Hit & Hcalls).
    exists r. split; [exact Hr|].
    destruct (until_loop_no_stops B cfg tok max_length fuel pf 0%Z
                ""%string 0 s r Hr) as (Hd & Hm).
    repeat split; auto.
Qed.

Lemma C9_empty_stop_set_witness :
  exists r,
    fst (until_loop (Stub.backend [120; 121; 122]%Z 1 97%Z)
           (Stub.flags 2 5 false) Stub.char_tokenizer 3 [] 7%Z "ab"%string
           0%Z ""%string 0
           (Stub.start (Stub.backend [120; 121; 122]%Z 1 97%Z) 0)) = Ret r
    /\ exit_done r = false
    /\ (7 <= exit_total_length r)%Z
    /\ exit_iterations r = Z.to_nat (ceil_div 7 (Z.of_nat 3))
    /\ length (calls (snd (until_loop (Stub.backend [120; 121; 122]%Z 1 97%Z)
                             (Stub.flags 2 5 false) Stub.char_tokenizer 3 []
                             7%Z "ab"%string 0%Z ""%string 0
                             (Stub.start
                                (Stub.backend [120; 121; 122]%Z 1 97%Z) 0))))
       = length (calls (Stub.start (Stub.backend [120; 121; 122]%Z 1 97%Z) 0))
         + Z.to_nat (ceil_div 7 (Z.of_nat 3)).
Proof.
  exact (proj2 (proj2 (proj2
           (C9_empty_stop_set (Stub.backend [120; 121; 122]%Z 1 97%Z)
              (Stub.flags 2 5 false) Stub.char_tokenizer 3 "ab"%string 7%Z
              (Stub.start (Stub.backend [120; 121; 122]%Z 1 97%Z) 0))))
           3 ltac:(lia)
           (stub_fixed_output_length [120; 121; 122]%Z 97%Z 2 5
              ltac:(lia) ltac:(lia))
           (stub_generation_succeeds [120; 121; 122]%Z 97%Z 2 5 ltac:(lia))
           ltac:(vm_compute; lia)).
Defined.

(** ** Stop strings *)

(** With one non-empty stop string the scan cuts the text at the first
    occurrence of that string, as the contract asks. *)
Lemma scan_stops_single (s text : string) :
  s <> ""%string ->
  scan_stops [s] text false
  = Some (cut_at_earliest_stop [s] text, Py.contains s text).
Proof.
  intros Hs. unfold cut_at_earliest_stop, Py.contains.
  cbn [scan_stops earliest_stop fold_right].
  unfold Py.contains, Py.split_head.
  destruct s as [|c s]; [contradiction|].
  destruct (Py.find (String c s) text); reflexivity.
Qed.

(** C2, evaluated at a failing input.  The prefix is "Count: 1, 2, 3,",
    the stop list is [" 6,"; " 5, 6"], [max_length] is 20 and the model
    continues with " 4, 5, 6, 7,".  The earliest occurrence of a stop
    string in the generated text is that of " 5, 6", at index 3, so the
    contract gives " 4,".  [greedy_until] cuts at " 6," first and then
    no longer finds " 5, 6" in what is left: it returns " 4, 5,".  With
    the stop strings in the other order, or with " 6," alone, it returns
    the text up to the earliest occurrence. *)
Theorem C2_stop_strings_in_list_order :
  fst (greedy_until
         (Stub.backend (encode Stub.char_tokenizer " 4, 5, 6, 7,") 1 97%Z)
         (Stub.flags 16 28 false) Stub.char_tokenizer 2
         ["Count: 1, 2, 3,"%string] [UntilList [" 6,"; " 5, 6"]%string] 20%Z
         (Stub.start
            (Stub.backend (encode Stub.char_tokenizer " 4, 5, 6, 7,") 1 97%Z)
            0))
  = Ret [" 4, 5,"%string]
  /\ cut_at_earliest_stop [" 6,"; " 5, 6"]%string " 4, 5, 6, 7,"%string
     = " 4,"%string
  /\ scan_stops [" 6,"; " 5, 6"]%string " 4, 5, 6, 7,"%string false
     = Some (" 4, 5,"%string, true)
  /\ scan_stops [" 5, 6"; " 6,"]%string " 4, 5, 6, 7,"%string false
     = Some (" 4,"%string, true)
  /\ fst (greedy_until
            (Stub.backend (encode Stub.char_tokenizer " 4, 5, 6, 7,") 1 97%Z)
            (Stub.flags 16 28 false) Stub.char_tokenizer 2
            ["Count: 1, 2, 3,"%string] [UntilList [" 6,"%string]] 20%Z
            (Stub.start
               (Stub.backend (encode Stub.char_tokenizer " 4, 5, 6, 7,")
                  1 97%Z) 0))
     = Ret [cut_at_earliest_stop [" 6,"%string] " 4, 5, 6, 7,"%string].
Proof. repeat split; vm_compute; reflexivity. Qed.

(** ** The threading of [sharded_rng] *)

Section Traces.

Variable B : Backend.
Variable cfg : Flags.
Variable tok : Tokenizer.

Lemma threaded_app (r r1 r2 : RNG B) (cs1 cs2 : list (Call B)) :
  threaded B cfg r cs1 r1 -> threaded B cfg r1 cs2 r2 ->
  threaded B cfg r (cs1 ++ cs2) r2.
Proof.
  revert r. induction cs1 as [|c cs1 IH]; intros r H1 H2.
  - cbn in H1. now subst.
  - destruct H1 as (Hr & Hret & H1). cbn [app threaded].
    split; [exact Hr|]. split; [exact Hret|]. now apply IH.
Qed.

Lemma threaded_split (r r2 : RNG B) (cs1 cs2 : list (Call B)) :
  threaded B cfg r (cs1 ++ cs2) r2 ->
  exists r1, threaded B cfg r cs1 r1 /\ threaded B cfg r1 cs2 r2.
Proof.
  revert r. induction cs1 as [|c cs1 IH]; intros r H.
  - exists r. split; [reflexivity|exact H].
  - destruct H as (Hr & Hret & H). destruct (IH _ H) as (r1 & H1 & H2).
    exists r1. cbn [threaded]. auto.
Qed.

(** After a raising invocation the stored state is the one it was
    passed. *)
Lemma threaded_last_failed (r r_end : RNG B) (cs : list (Call B))
  (c : Call B) :
  threaded B cfg r (cs ++ [c]) r_end ->
  call_ret c = None ->
  call_rng c = r_end.
Proof.
  intros H Hc. apply threaded_split in H. destruct H as (r1 & _ & H).
  destruct H as (Hr & _ & Hend). rewrite Hc in Hend. cbn in Hend. congruence.
Qed.

Lemma traced_ret {A : Type} (a : A) : traced B cfg (ret a).
Proof.
  intros s. exists []. cbn. rewrite app_nil_r. auto.
Qed.

Lemma traced_host {A : Type} (o : option A) : traced B cfg (host o).
Proof.
  intros s. exists []. destruct o; cbn; rewrite app_nil_r; auto.
Qed.

Lemma traced_out_of_fuel {A : Type} : traced B cfg (@out_of_fuel B A).
Proof.
  intros s. exists []. cbn. rewrite app_nil_r. auto.
Qed.

Lemma traced_bind {A C : Type} (m : M B A) (k : A -> M B C) :
  traced B cfg m -> (forall a, traced B cfg (k a)) ->
  traced B cfg (bind m k).
Proof.
  intros Hm Hk s. unfold bind.
  destruct (Hm s) as (cs1 & Hc1 & Ht1 & Ho1).
  destruct (m s) as [[a|e|] s1]; cbn [fst snd] in *.
  - destruct (Hk a s1) as (cs2 & Hc2 & Ht2 & Ho2).
    exists (cs1 ++ cs2). split; [|split].
    + now rewrite Hc2, Hc1, app_assoc.
    + eapply threaded_app; eauto.
    + destruct (fst (k a s1)) as [c|[|]|].
      * apply Forall_app; auto.
      * destruct Ho2 as (cs' & c & -> & Hall & Hc).
        exists (cs1 ++ cs'), c. rewrite app_assoc.
        repeat split; auto. apply Forall_app; auto.
      * apply Forall_app; auto.
      * apply Forall_app; auto.
  - exists cs1. auto.
  - exists cs1. auto.
Qed.

Lemma traced_invoke {A : Type} (fn : ExecFn) (batch : ScoreBatch + GenBatch)
  (executor : RNG B -> option (A * RNG B)) :
  (forall r, option_map snd (executor r) = executor_returns B cfg fn batch r) ->
  traced B cfg (invoke fn batch executor).
Proof.
  intros Hex s. rewrite invoke_unfold. specialize (Hex (sharded_rng s)).
  destruct (executor (sharded_rng s)) as [[a r']|]; cbn [option_map snd] in Hex.
  - eexists. split; [reflexivity|]. cbn. split.
    + repeat split; auto.
    + constructor; [discriminate|constructor].
  - eexists. split; [reflexivity|]. cbn. split.
    + repeat split; auto.
    + exists [], {| call_fn := fn; call_rng := sharded_rng s;
                    call_batch := batch; call_ret := None |}.
      repeat split; auto.
Qed.

Lemma traced_loglikelihood (prefix_text text : list string) :
  traced B cfg (loglikelihood B cfg tok prefix_text text).
Proof.
  unfold loglikelihood. apply traced_bind; [apply traced_host|].
  intros batch. now apply traced_invoke.
Qed.

Lemma traced_rolling_loop (windows : list ScoreBatch) :
  forall total_loglikelihood total_is_greedy,
    traced B cfg (rolling_loop B windows total_loglikelihood total_is_greedy).
Proof.
  induction windows as [|w windows IH]; intros tl tg; cbn [rolling_loop].
  - apply traced_ret.
  - apply traced_bind; [now apply traced_invoke|]. intros r.
    apply traced_bind; [apply traced_host|]. intros tl'.
    apply traced_bind; [apply traced_host|]. intros tg'. apply IH.
Qed.

Lemma traced_loglikelihood_rolling (text : list string) :
  traced B cfg (loglikelihood_rolling B cfg tok text).
Proof.
  unfold loglikelihood_rolling.
  apply traced_bind; [apply traced_host|]. intros a.
  apply traced_bind; [apply traced_host|]. intros windows.
  apply traced_rolling_loop.
Qed.

Lemma traced_generate (text : list string) :
  traced B cfg (generate B cfg tok text).
Proof.
  unfold generate. apply traced_bind; [apply traced_host|]. intros inputs.
  apply traced_bind; [now apply traced_invoke|]. intros output.
  apply traced_host.
Qed.

Lemma traced_until_loop (ut : list string) (max_length : Z) (fuel : nat) :
  forall pf total_length total_generated iterations,
    traced B cfg (until_loop B cfg tok fuel ut max_length pf total_length
                    total_generated iterations).
Proof.
  induction fuel as [|fuel IH]; intros pf tl tg it; cbn [until_loop];
    destruct (tl <? max_length)%Z; try apply traced_ret.
  - apply traced_out_of_fuel.
  - apply traced_bind; [apply traced_host|]. intros batch.
    apply traced_bind; [now apply traced_invoke|]. intros output.
    apply traced_bind; [apply traced_host|]. intros output_text.
    apply traced_bind; [apply traced_host|]. intros scanned.
    destruct (snd scanned); [apply traced_ret|apply IH].
Qed.

Lemma traced_greedy_until (fuel : nat) (prefix_text : list string)
  (until : list Until) (max_length : Z) :
  traced B cfg (greedy_until B cfg tok fuel prefix_text until max_length).
Proof.
  unfold greedy_until. generalize (@nil string) as all_outputs.
  induction (combine prefix_text until) as [|[pf ut] pairs IH];
    intros all_outputs; cbn [greedy_until_pairs].
  - apply traced_ret.
  - apply traced_bind; [apply traced_until_loop|]. intros r. apply IH.
Qed.

(** What one request adds to the history. *)
Lemma serve_traced (fuel : nat) (req : Request) (s : Session B) :
  exists cs,
    calls (snd (serve B cfg tok fuel req s)) = calls s ++ cs
    /\ threaded B cfg (sharded_rng s) cs
         (sharded_rng (snd (serve B cfg tok fuel req s)))
    /\ match fst (serve B cfg tok fuel req s) with
       | Failed ExecutorError =>
           exists cs' c,
             cs = cs' ++ [c] /\ Forall (returned B) cs' /\ call_ret c = None
       | _ => Forall (returned B) cs
       end.
Proof.
  destruct req as [p t|t|t|p u n]; cbn [serve].
  - destruct (traced_loglikelihood p t s) as (cs & H1 & H2 & H3).
    destruct (loglikelihood B cfg tok p t s) as [[a|[|]|] s'];
      exists cs; cbn in *; auto.
  - destruct (traced_loglikelihood_rolling t s) as (cs & H1 & H2 & H3).
    destruct (loglikelihood_rolling B cfg tok t s) as [[a|[|]|] s'];
      exists cs; cbn in *; auto.
  - destruct (traced_generate t s) as (cs & H1 & H2 & H3).
    destruct (generate B cfg tok t s) as [[a|[|]|] s'];
      exists cs; cbn in *; auto.
  - destruct (traced_greedy_until fuel p u n s) as (cs & H1 & H2 & H3).
    destruct (greedy_until B cfg tok fuel p u n s) as [[a|[|]|] s'];
      exists cs; cbn in *; auto.
Qed.

(** What a serialized run of requests adds to the history. *)
Lemma serve_all_threaded (fuel : nat) (reqs : list Request) :
  forall s : Session B,
    exists cs,
      calls (snd (serve_all B cfg tok fuel reqs s)) = calls s ++ cs
      /\ threaded B cfg (sharded_rng s) cs
           (sharded_rng (snd (serve_all B cfg tok fuel reqs s))).
Proof.
  induction reqs as [|req reqs IH]; intros s; cbn [serve_all].
  - exists []. cbn. rewrite app_nil_r. auto.
  - destruct (serve_traced fuel req s) as (cs1 & H1 & H2 & _).
    destruct (serve B cfg tok fuel req s) as [o s1]. cbn [snd] in *.
    destruct (IH s1) as (cs2 & H3 & H4).
    destruct (serve_all B cfg tok fuel reqs s1) as [os s2]. cbn [snd] in *.
    exists (cs1 ++ cs2). split.
    + now rewrite H3, H1, app_assoc.
    + eapply threaded_app; eauto.
Qed.

End Traces.

(** C6, refuted as stated.  The backend rejects a batch of one row (its
    data-parallel axis has size 2).  The first request raises inside the
    executor, so [sharded_rng] keeps its value, and the invocation of the
    second request is passed the state the first one was passed. *)
Lemma C6_state_reuse_counterexample :
  ~ no_state_reuse (Stub.backend [] 2 97%Z)
      (calls (snd (serve_all (Stub.backend [] 2 97%Z) (Stub.flags 1 2 false)
                     Stub.char_tokenizer 0
                     [ReqLoglikelihood ["a"%string] ["b"%string];
                      ReqLoglikelihood ["a"; "a"]%string ["b"; "b"]%string]
                     (Stub.start (Stub.backend [] 2 97%Z) 0)))).
Proof.
  unfold no_state_reuse. intros H. vm_compute in H.
  inversion H as [|x l Hin Hnd]. apply Hin. now left.
Qed.

(** ** Executor failures *)

Section Failures.

Variable B : Backend.
Variable cfg : Flags.
Variable tok : Tokenizer.

(** [loglikelihood] and [generate] invoke an executor at most once. *)
Lemma loglikelihood_one_call (prefix_text text : list string)
  (s : Session B) :
  length (calls (snd (loglikelihood B cfg tok prefix_text text s)))
  <= S (length (calls s)).
Proof.
  unfold loglikelihood, bind.
  destruct (loglikelihood_batch cfg tok prefix_text text) as [batch|];
    cbn [host ret raise snd fst]; [|lia].
  rewrite invoke_unfold.
  destruct (forward_loglikelihood B (sharded_rng s) batch) as [[a r]|];
    cbn [snd]; rewrite after_call_calls; lia.
Qed.

Lemma generate_one_call (text : list string) (s : Session B) :
  length (calls (snd (generate B cfg tok text s))) <= S (length (calls s)).
Proof.
  unfold generate, bind.
  destruct (tokenizer_max_length tok SideLeft (input_length cfg) text)
    as [inputs|]; cbn [host ret raise snd fst]; [|lia].
  rewrite invoke_unfold.
  destruct (forward_generate B cfg (sharded_rng s) _) as [[a r]|];
    cbn [snd]; [|rewrite after_call_calls; lia].
  destruct (cut_all_at_eos tok (map (decode tok) a));
    cbn [host ret raise snd]; rewrite after_call_calls; lia.
Qed.

End Failures.

(** ** Short texts: one window *)

Lemma firstn_repeat_same {A : Type} (x : A) (k n : nat) :
  firstn k (repeat x n) = repeat x (Nat.min k n).
Proof.
  revert n. induction k as [|k IH]; intros n; [reflexivity|].
  destruct n as [|n]; [reflexivity|]. cbn. now rewrite IH.
Qed.

Lemma firstn_pad_row_right (n m : nat) (fill : Z) (ids : list Z) :
  n <= m -> length ids <= n ->
  firstn n (pad_row SideRight m fill ids) = pad_row SideRight n fill ids.
Proof.
  intros Hnm Hlen. cbn [pad_row].
  rewrite firstn_app, firstn_all2 by assumption.
  rewrite firstn_repeat_same. do 2 f_equal. lia.
Qed.

Lemma range_step_once (n : nat) : 0 < n -> Py.range_step n n = Some [0].
Proof.
  intros Hn. unfold Py.range_step. destruct n as [|n]; [lia|].
  replace ((S n + S n - 1) / S n) with 1; [reflexivity|].
  apply Nat.div_unique with (r := n); lia.
Qed.

Section ShortTexts.

Variable B : Backend.
Variable cfg : Flags.
Variable tok : Tokenizer.

Lemma rolling_total_short (text : list string) :
  no_longer_than tok (seq_length cfg) text ->
  rolling_total cfg tok text = seq_length cfg.
Proof.
  intros H. unfold rolling_total. apply Nat.max_r.
  apply list_max_le. now rewrite Forall_map.
Qed.

Lemma rolling_windows_short (text : list string) :
  0 < seq_length cfg ->
  text <> [] ->
  no_longer_than tok (seq_length cfg) text ->
  rolling_windows cfg (spec_rolling_arrays cfg tok text)
  = Some [single_window cfg tok text].
Proof.
  intros HS Hne Hshort.
  pose proof (rolling_total_short text Hshort) as Htot.
  assert (Hlen : forall t, In t text ->
            length (encode tok t) <= seq_length cfg).
  { unfold no_longer_than in Hshort. now rewrite Forall_forall in Hshort. }
  assert (Hw : Np.width (roll_output_tokens (spec_rolling_arrays cfg tok text))
               = seq_length cfg).
  { destruct text as [|t text]; [contradiction|].
    cbn [spec_rolling_arrays roll_output_tokens map Np.width].
    unfold rolling_output_row. rewrite Htot.
    apply pad_row_length. apply Hlen. now left. }
  unfold rolling_windows, rolling_offsets.
  rewrite Hw, range_step_once by assumption. cbn [map].
  rewrite window_batch_normal by lia.
  unfold spec_normal_window, single_window, spec_rolling_arrays.
  cbn [roll_input_tokens roll_output_tokens roll_attention_mask skipn].
  rewrite !map_map.
  assert (Hout : forall t, In t text ->
            length (rolling_output_row cfg tok text t) = seq_length cfg).
  { intros t Ht. unfold rolling_output_row. rewrite Htot.
    apply pad_row_length. now apply Hlen. }
  do 3 f_equal.
  - apply map_ext_in. intros t Ht. unfold rolling_input_row.
    rewrite firstn_all2.
    + unfold rolling_output_row. now rewrite Htot.
    + cbn [length]. rewrite removelast_firstn_pred, length_firstn, (Hout t Ht).
      lia.
  - apply map_ext_in. intros t Ht. rewrite firstn_all2 by (rewrite Hout; auto).
    unfold rolling_output_row. now rewrite Htot.
  - apply map_ext_in. intros t Ht. unfold rolling_mask_row. rewrite Htot.
    apply firstn_all2. unfold padded_mask. rewrite pad_row_length; [lia|].
    rewrite repeat_length. now apply Hlen.
  - apply map_ext_in. intros t Ht. unfold rolling_mask_row. rewrite Htot.
    apply firstn_all2. unfold padded_mask. rewrite pad_row_length; [lia|].
    rewrite repeat_length. now apply Hlen.
Qed.

(** On short texts [loglikelihood_rolling] is one executor invocation on
    the single window, whose values it returns. *)
Lemma loglikelihood_rolling_short (text : list string) (s : Session B) :
  0 < seq_length cfg ->
  text <> [] ->
  no_longer_than tok (seq_length cfg) text ->
  (forall x, fadd B (fzero B) x = x) ->
  loglikelihood_rolling B cfg tok text s
  = match forward_loglikelihood B (sharded_rng s) (single_window cfg tok text)
    with
    | Some (ll, g, rng') =>
        (Ret (Np.Arr ll, Np.Arr g),
         after_call FwdLoglikelihood (inl (single_window cfg tok text))
           (Some rng') s)
    | None =>
        (Raise ExecutorError,
         after_call FwdLoglikelihood (inl (single_window cfg tok text))
           None s)
    end.
Proof.
  intros HS Hne Hshort Hzero. unfold loglikelihood_rolling.
  rewrite rolling_arrays_rows by assumption. cbn [host].
  unfold bind at 1. unfold ret at 1.
  rewrite rolling_windows_short by assumption. cbn [host].
  unfold bind at 1. unfold ret at 1.
  cbn [rolling_loop]. unfold bind at 1. rewrite invoke_unfold.
  destruct (forward_loglikelihood B (sharded_rng s)
              (single_window cfg tok text)) as [[[ll g] rng']|];
    [|reflexivity].
  cbn [fst snd Np.iadd Np.logical_and host].
  unfold bind, ret.
  rewrite (map_ext _ (fun x => x) Hzero), map_id.
  rewrite (map_ext _ (fun x => x) andb_true_r), map_id.
  reflexivity.
Qed.

End ShortTexts.

Section ContinuationRegion.

Variable cfg : Flags.
Variable tok : Tokenizer.

(** For texts that fit in [seq_length - input_length] tokens, the
    continuation region of the batch of [loglikelihood] carries the
    targets and the output mask of the first
    [seq_length - input_length] columns of the single window; its prefix
    region is masked out. *)
Lemma continuation_region (prefix_text text : list string) :
  input_length cfg <= seq_length cfg ->
  length prefix_text = length text ->
  no_longer_than tok (seq_length cfg - input_length cfg) text ->
  map (skipn (input_length cfg))
    (output_tokens (spec_score_batch cfg tok prefix_text text))
  = map (firstn (seq_length cfg - input_length cfg))
      (output_tokens (single_window cfg tok text))
  /\ map (skipn (input_length cfg))
       (output_mask (spec_score_batch cfg tok prefix_text text))
     = map (firstn (seq_length cfg - input_length cfg))
         (output_mask (single_window cfg tok text))
  /\ map (firstn (input_length cfg))
       (output_mask (spec_score_batch cfg tok prefix_text text))
     = map (fun _ => repeat 0%Z (input_length cfg)) text.
Proof.
  intros HI Hlen Hshort.
  assert (Hl : forall t, In t text ->
            length (encode tok t) <= seq_length cfg - input_length cfg).
  { unfold no_longer_than in Hshort. now rewrite Forall_forall in Hshort. }
  cbn [spec_score_batch single_window output_tokens output_mask].
  rewrite !map_map2, !map_map.
  rewrite !(map_as_map2_r _ prefix_text text Hlen).
  repeat split; apply map2_ext; intros p t _ Ht.
  - unfold spec_output_row. rewrite skipn_app.
    unfold prefix_ids at 1. rewrite skipn_all2
      by (rewrite padded_ids_length; lia).
    unfold prefix_ids. rewrite padded_ids_length, Nat.sub_diag.
    cbn [app skipn]. unfold continuation_ids, padded_ids.
    rewrite truncate_ids_short by (now apply Hl).
    symmetry. apply firstn_pad_row_right; [lia|now apply Hl].
  - unfold spec_output_mask_row. rewrite skipn_app, repeat_length.
    rewrite skipn_all2 by (rewrite repeat_length; lia).
    rewrite Nat.sub_diag. cbn [app skipn].
    unfold continuation_mask, padded_mask.
    rewrite truncate_ids_short by (now apply Hl).
    symmetry. apply firstn_pad_row_right; [lia|].
    rewrite repeat_length. now apply Hl.
  - unfold spec_output_mask_row. rewrite firstn_app, repeat_length.
    rewrite Nat.sub_diag. cbn [firstn]. rewrite app_nil_r.
    apply firstn_all2. rewrite repeat_length. lia.
Qed.

End ContinuationRegion.

(** C1, refuted as stated.  With [input_length = 2] and
    [seq_length = 4], the text "aab" has three tokens.  The rolling
    scorer scores all three; [loglikelihood] cuts the continuation to
    [seq_length - input_length = 2] tokens and scores "aa" only.  With a
    model that predicts "a" everywhere, the rolling scorer reports a
    loglikelihood of -1 and a greedy flag [false], [loglikelihood]
    reports 0 and [true]. *)
Lemma C1_scorers_disagree_counterexample :
  no_longer_than Stub.char_tokenizer (seq_length (Stub.flags 2 4 false))
    ["aab"%string]
  /\ ~ scorers_agree (Stub.backend [] 1 97%Z) (Stub.flags 2 4 false)
         Stub.char_tokenizer [""%string] ["aab"%string]
         (Stub.start (Stub.backend [] 1 97%Z) 0).
Proof.
  split.
  - repeat constructor.
  - unfold scorers_agree. vm_compute. discriminate.
Qed.

(** C1, amended.  For every batch of texts whose tokenization is no
    longer than [seq_length], [loglikelihood_rolling] makes exactly one
    executor invocation, on the single window that holds every text
    padded on the right to [seq_length], and returns the loglikelihood
    values and greedy flags of that invocation unchanged (the device's
    addition leaving a value added to 0.0 unchanged).  The batch of
    [loglikelihood] is a different one: the continuation is cut to
    [seq_length - input_length] tokens and placed after a prefix region
    of [input_length] columns that is masked out of the score; when the
    texts are no longer than [seq_length - input_length], its
    continuation region carries the output tokens and the output mask
    of the first [seq_length - input_length] columns of that single
    window. *)
Theorem C1_rolling_single_window :
  forall (B : Backend) (cfg : Flags) (tok : Tokenizer)
         (prefix_text text : list string) (s : Session B),
    0 < seq_length cfg ->
    0 < length text ->
    no_longer_than tok (seq_length cfg) text ->
    (forall x, fadd B (fzero B) x = x) ->
    loglikelihood_rolling B cfg tok text s
    = match forward_loglikelihood B (sharded_rng s)
              (single_window cfg tok text) with
      | Some (ll, g, rng') =>
          (Ret (Np.Arr ll, Np.Arr g),
           after_call FwdLoglikelihood (inl (single_window cfg tok text))
             (Some rng') s)
      | None =>
          (Raise ExecutorError,
           after_call FwdLoglikelihood (inl (single_window cfg tok text))
             None s)
      end
    /\ (input_length cfg <= seq_length cfg ->
        length prefix_text = length text ->
        no_longer_than tok (seq_length cfg - input_length cfg) text ->
        loglikelihood_batch cfg tok prefix_text text
        = Some (spec_score_batch cfg tok prefix_text text)
        /\ map (skipn (input_length cfg))
             (output_tokens (spec_score_batch cfg tok prefix_text text))
           = map (firstn (seq_length cfg - input_length cfg))
               (output_tokens (single_window cfg tok text))
        /\ map (skipn (input_length cfg))
             (output_mask (spec_score_batch cfg tok prefix_text text))
           = map (firstn (seq_length cfg - input_length cfg))
               (output_mask (single_window cfg tok text))
        /\ map (firstn (input_length cfg))
             (output_mask (spec_score_batch cfg tok prefix_text text))
           = map (fun _ => repeat 0%Z (input_length cfg)) text).
Proof.
  intros B cfg tok prefix_text text s HS Hne Hshort Hzero.
  assert (Hne' : text <> [])
    by (destruct text; [cbn in Hne; lia|discriminate]).
  split.
  - now apply loglikelihood_rolling_short.
  - intros HI Hlen Hshort'. split.
    + apply loglikelihood_batch_rows; auto.
      destruct prefix_text; [destruct text; [contradiction|discriminate]|].
      discriminate.
    + now apply continuation_region.
Qed.

Lemma C1_rolling_single_window_witness :
  loglikelihood_rolling (Stub.backend [] 1 97%Z) (Stub.flags 2 4 false)
    Stub.char_tokenizer ["aab"%string]
    (Stub.start (Stub.backend [] 1 97%Z) 0)
  = match forward_loglikelihood (Stub.backend [] 1 97%Z)
            (sharded_rng (Stub.start (Stub.backend [] 1 97%Z) 0))
            (single_window (Stub.flags 2 4 false) Stub.char_tokenizer
               ["aab"%string]) with
    | Some (ll, g, rng') =>
        (Ret (Np.Arr ll, Np.Arr g),
         after_call FwdLoglikelihood
           (inl (single_window (Stub.flags 2 4 false) Stub.char_tokenizer
                   ["aab"%string]))
           (Some rng') (Stub.start (Stub.backend [] 1 97%Z) 0))
    | None =>
        (Raise ExecutorError,
         after_call FwdLoglikelihood
           (inl (single_window (Stub.flags 2 4 false) Stub.char_tokenizer
                   ["aab"%string]))
           None (Stub.start (Stub.backend [] 1 97%Z) 0))
    end.
Proof.
  exact (proj1 (C1_rolling_single_window (Stub.backend [] 1 97%Z)
                  (Stub.flags 2 4 false) Stub.char_tokenizer [""%string]
                  ["aab"%string] (Stub.start (Stub.backend [] 1 97%Z) 0)
                  ltac:(cbn; lia) ltac:(cbn; lia)
                  ltac:(repeat constructor)
                  ltac:(intros x; reflexivity))).
Defined.

(* ------------------------------------------------------------------ *)
(** * Further properties *)

(** ** Substring search *)

Lemma prefix_nil (s : string) : String.prefix ""%string s = true.
Proof. now destruct s. Qed.

Lemma prefix_app (a s t : string) :
  String.prefix a s = true -> String.prefix a (s ++ t) = true.
Proof.
  revert s. induction a as [|c a IH]; intros s H.
  - apply prefix_nil.
  - destruct s as [|d s]; [discriminate H|]. cbn in *.
    destruct (ascii_dec c d); [now apply IH|discriminate H].
Qed.

Lemma substring_take_app (k : nat) (s : string) :
  exists rest, s = (substring 0 k s ++ rest)%string.
Proof.
  revert s. induction k as [|k IH]; intros s.
  - exists s. now destruct s.
  - destruct s as [|c s]; [now exists ""%string|].
    destruct (IH s) as (rest & Hr). exists rest. cbn. now rewrite <- Hr.
Qed.

Lemma find_nonempty_in_empty (sep : string) :
  sep <> ""%string -> Py.find sep ""%string = None.
Proof. intros H. destruct sep; [contradiction|reflexivity]. Qed.

(** If [sep] occurs in a prefix of a string it occurs in the string. *)
Lemma find_app_none (sep a b : string) :
  Py.find sep (a ++ b) = None -> Py.find sep a = None.
Proof.
  induction a as [|c a IH]; intros H.
  - cbn [Py.find]. destruct (String.prefix sep ""%string) eqn:E;
      [|reflexivity].
    destruct sep; [|discriminate E].
    cbn [append] in H. destruct b; discriminate H.
  - cbn [append Py.find] in *.
    destruct (String.prefix sep (String c a)) eqn:E.
    + apply (prefix_app _ _ b) in E. cbn [append] in E.
      rewrite E in H. discriminate H.
    + destruct (String.prefix sep (String c (a ++ b))); [discriminate H|].
      destruct (Py.find sep (a ++ b)); [discriminate H|].
      now rewrite IH.
Qed.

(** The text before the first occurrence of [sep] does not contain
    [sep]. *)
Lemma find_cut_absent (sep s : string) (k : nat) :
  sep <> ""%string ->
  Py.find sep s = Some k ->
  Py.find sep (substring 0 k s) = None.
Proof.
  intros Hsep. revert k. induction s as [|c s IH]; intros k H.
  - cbn [Py.find] in H. destruct (String.prefix sep ""%string);
      [|discriminate H].
    injection H as <-. now apply find_nonempty_in_empty.
  - cbn [Py.find] in H. destruct (String.prefix sep (String c s)) eqn:E.
    + injection H as <-. now apply find_nonempty_in_empty.
    + destruct (Py.find sep s) as [k'|] eqn:Ek; [|discriminate H].
      injection H as <-. cbn [substring Py.find].
      rewrite (IH k' eq_refl).
      destruct (String.prefix sep (String c (substring 0 k' s))) eqn:E';
        [|reflexivity].
      destruct (substring_take_app k' s) as (rest & Hrest).
      apply (prefix_app _ _ rest) in E'. cbn [append] in E'.
      rewrite <- Hrest in E'. congruence.
Qed.

Lemma contains_empty (s : string) : Py.contains ""%string s = true.
Proof.
  unfold Py.contains. destruct s; cbn [Py.find]; reflexivity.
Qed.

Lemma find_split (sep s : string) (k : nat) :
  Py.find sep s = Some k ->
  s = (substring 0 k s ++ sep ++ str_drop (k + String.length sep) s)%string.
Proof.
  revert k. induction s as [|c s IH]; intros k H.
  - cbn [Py.find] in H. destruct sep; [|discriminate H].
    injection H as <-. reflexivity.
  - cbn [Py.find] in H. destruct (String.prefix sep (String c s)) eqn:E.
    + injection H as <-. cbn [substring append Nat.add].
      clear IH. revert E. generalize (String c s) as t. clear c s.
      induction sep as [|d sep IH]; intros t E.
      * reflexivity.
      * destruct t as [|c t]; [discriminate E|]. cbn in E.
        destruct (ascii_dec d c) as [->|]; [|discriminate E].
        cbn. f_equal. now apply IH.
    + destruct (Py.find sep s) as [k'|]; [|discriminate H].
      injection H as <-. cbn [substring append Nat.add str_drop].
      f_equal. now apply IH.
Qed.

Lemma contains_app_false (sep a b : string) :
  Py.contains sep (a ++ b) = false -> Py.contains sep a = false.
Proof.
  unfold Py.contains. intros H.
  destruct (Py.find sep (a ++ b)) eqn:E; [discriminate H|].
  now rewrite (find_app_none _ _ _ E).
Qed.

Lemma split_head_cut (sep s t : string) :
  Py.split_head sep s = Some t ->
  sep <> ""%string
  /\ (exists rest, s = (t ++ rest)%string)
  /\ Py.contains sep t = false.
Proof.
  unfold Py.split_head. destruct sep as [|c sep]; [discriminate|].
  intros H. split; [discriminate|].
  destruct (Py.find (String c sep) s) as [k|] eqn:E; injection H as <-.
  - split; [apply substring_take_app|]. unfold Py.contains.
    now rewrite (find_cut_absent (String c sep) s k ltac:(discriminate) E).
  - split; [exists ""%string; clear; induction s; cbn; congruence|].
    unfold Py.contains. now rewrite E.
Qed.

(** ** The stop-string scan of [greedy_until] *)

Lemma scan_stops_sound (ut : list string) :
  forall (text : string) (done : bool) (t : string) (d : bool),
    scan_stops ut text done = Some (t, d) ->
    (exists rest, text = (t ++ rest)%string)
    /\ (forall s, In s ut -> Py.contains s t = false)
    /\ (d = true <->
        done = true \/ exists s, In s ut /\ Py.contains s text = true)
    /\ (d = false -> t = text).
Proof.
  induction ut as [|s ut IH]; intros text done t d H.
  - injection H as <- <-. repeat split.
    + exists ""%string. clear. induction text; cbn; congruence.
    + intros s [].
    + now left.
    + intros [Hd|(s & [] & _)]. exact Hd.
  - cbn [scan_stops] in H. destruct (Py.contains s text) eqn:Ec.
    + destruct (Py.split_head s text) as [t1|] eqn:Es; [|discriminate H].
      destruct (split_head_cut _ _ _ Es) as (Hs & (r1 & Hr1) & Habs).
      destruct (IH _ _ _ _ H) as ((r2 & Hr2) & Hnone & Hd & Hsame).
      assert (Hdt : d = true) by (apply Hd; now left).
      repeat split.
      * exists (r2 ++ r1)%string. rewrite Hr1, Hr2.
        clear. induction t; cbn; congruence.
      * intros s' [<-|Hin]; [|now apply Hnone].
        rewrite Hr2 in Habs. now apply contains_app_false in Habs.
      * intros _. right. exists s. split; [now left|exact Ec].
      * intros _. exact Hdt.
      * intros Hf. congruence.
    + destruct (IH _ _ _ _ H) as ((r2 & Hr2) & Hnone & Hd & Hsame).
      repeat split.
      * now exists r2.
      * intros s' [<-|Hin]; [|now apply Hnone].
        rewrite Hr2 in Ec. now apply contains_app_false in Ec.
      * intros Hdt. apply Hd in Hdt. destruct Hdt as [|(s' & Hin & Hc)];
          [now left|]. right. exists s'. split; [now right|exact Hc].
      * intros [Hdone|(s' & [<-|Hin] & Hc)].
        -- apply Hd. now left.
        -- congruence.
        -- apply Hd. right. eauto.
      * exact Hsame.
Qed.

Lemma scan_stops_raises (ut : list string) :
  forall (text : string) (done : bool),
    scan_stops ut text done = None <-> In ""%string ut.
Proof.
  induction ut as [|s ut IH]; intros text done; cbn [scan_stops In].
  - split; [discriminate|intros []].
  - destruct (Py.contains s text) eqn:Ec.
    + destruct (Py.split_head s text) as [t1|] eqn:Es.
      * destruct (split_head_cut _ _ _ Es) as (Hs & _).
        rewrite IH. split; [now right|]. intros [E|H]; [|exact H].
        now subst.
      * split; [|reflexivity]. intros _. left.
        unfold Py.split_head in Es. destruct s; [reflexivity|].
        destruct (Py.find (String a s) text); discriminate Es.
    + rewrite IH. split; [now right|]. intros [E|H]; [|exact H].
      subst. now rewrite contains_empty in Ec.
Qed.

(** X1. The stop-string scan of [greedy_until].  The scan raises exactly when the stop list
    holds an empty string.  Otherwise what it keeps is a prefix of the
    accumulated text that contains none of the stop strings; [done] is
    set exactly when a stop string occurs in the accumulated text, and
    the text is left whole when [done] is not set. *)
Theorem scan_stops_result :
  forall (ut : list string) (text : string),
    (scan_stops ut text false = None <-> In ""%string ut)
    /\ forall t d,
         scan_stops ut text false = Some (t, d) ->
         (exists rest, text = (t ++ rest)%string)
         /\ (forall s, In s ut -> Py.contains s t = false)
         /\ (d = true <-> exists s, In s ut /\ Py.contains s text = true)
         /\ (d = false -> t = text).
Proof.
  intros ut text. split; [apply scan_stops_raises|].
  intros t d H.
  destruct (scan_stops_sound ut text false t d H) as (H1 & H2 & H3 & H4).
  repeat split; auto.
  - intros Hd. apply H3 in Hd. destruct Hd as [Hd|Hd]; [discriminate|auto].
  - intros Hd. apply H3. now right.
Qed.

Lemma scan_stops_result_witness :
  (exists rest, " 4, 5, 6, 7,"%string = (" 4, 5,"%string ++ rest)%string)
  /\ (forall s, In s [" 6,"; " 5, 6"]%string ->
                Py.contains s " 4, 5,"%string = false)
  /\ (true = true <->
      exists s, In s [" 6,"; " 5, 6"]%string
                /\ Py.contains s " 4, 5, 6, 7,"%string = true)
  /\ (true = false -> " 4, 5,"%string = " 4, 5, 6, 7,"%string).
Proof.
  exact (proj2 (scan_stops_result [" 6,"; " 5, 6"]%string
                  " 4, 5, 6, 7,"%string)
           " 4, 5,"%string true eq_refl).
Defined.

(** ** What [greedy_until] returns *)

Section GreedyUntilResults.

Variable B : Backend.
Variable cfg : Flags.
Variable tok : Tokenizer.

Lemma until_loop_text_free_of_stops (ut : list string) (max_length : Z)
  (fuel : nat) :
  forall (pf : string) (total_length : Z) (total_generated : string)
         (iterations : nat) (s : Session B) (r : LoopExit),
    (forall st, In st ut -> st <> ""%string ->
                Py.contains st total_generated = false) ->
    fst (until_loop B cfg tok fuel ut max_length pf total_length
           total_generated iterations s) = Ret r ->
    forall st, In st ut -> st <> ""%string ->
               Py.contains st (exit_text r) = false.
Proof.
  induction fuel as [|fuel IH];
    intros pf total_length total_generated iterations s r Hfree Hr;
    destruct (Z.ltb_spec total_length max_length) as [Hlt|Hge].
  - cbn [until_loop] in Hr.
    destruct (Z.ltb_spec total_length max_length); [|lia]. discriminate Hr.
  - rewrite until_loop_skip in Hr by assumption. injection Hr as <-.
    exact Hfree.
  - rewrite until_loop_step in Hr by assumption.
    destruct (prefix_batch cfg tok pf) as [batch|]; [|discriminate Hr].
    destruct (forward_greedy_generate B cfg (sharded_rng s) batch)
      as [[output rng']|]; [|discriminate Hr].
    cbv zeta in Hr.
    destruct (hd_error output) as [row|]; [|discriminate Hr].
    destruct (scan_stops ut (total_generated ++ decode tok row) false)
      as [[t [|]]|] eqn:Es; [| |discriminate Hr].
    + injection Hr as <-. cbn [exit_text].
      destruct (scan_stops_sound _ _ _ _ _ Es) as (_ & Hnone & _).
      intros st Hin _. now apply Hnone.
    + destruct (scan_stops_sound _ _ _ _ _ Es) as (_ & Hnone & _).
      intros st Hin Hne. eapply IH; [|exact Hr|exact Hin|exact Hne].
      intros st' Hin' _. now apply Hnone.
  - rewrite until_loop_skip in Hr by assumption. injection Hr as <-.
    exact Hfree.
Qed.

Lemma greedy_until_pairs_free (fuel : nat) (max_length : Z)
  (pairs : list (string * Until)) :
  forall (all_outputs : list string) (s s' : Session B) (outs : list string),
    greedy_until_pairs B cfg tok fuel pairs max_length all_outputs s
    = (Ret outs, s') ->
    exists texts,
      outs = all_outputs ++ texts /\ Forall2 free_of_stops pairs texts.
Proof.
  induction pairs as [|[pf ut] pairs IH]; intros all_outputs s s' outs H.
  - injection H as <- _. exists []. rewrite app_nil_r. auto.
  - cbn [greedy_until_pairs] in H. unfold bind in H.
    destruct (until_loop B cfg tok fuel (stop_list ut) max_length pf 0
                "" 0 s) as [[r| |] s1] eqn:El; try discriminate H.
    destruct (IH _ _ _ _ H) as (texts & -> & Hall).
    exists (exit_text r :: texts). rewrite <- app_assoc. split; [reflexivity|].
    constructor; [|exact Hall].
    intros st Hin Hne.
    apply (until_loop_text_free_of_stops (stop_list ut) max_length fuel pf
             0%Z ""%string 0 s r); auto.
    + intros st' _ Hne'. unfold Py.contains.
      now rewrite find_nonempty_in_empty.
    + now rewrite El.
Qed.

End GreedyUntilResults.

(** X2. When [greedy_until] returns, it returns one text per pair of
    [zip(prefix_text, until)] - prefixes or stop specifications beyond
    the shorter list are dropped - and no returned text contains any of
    the non-empty stop strings of its pair. *)
Theorem greedy_until_outputs :
  forall (B : Backend) (cfg : Flags) (tok : Tokenizer) (fuel : nat)
         (prefix_text : list string) (until : list Until) (max_length : Z)
         (s : Session B) (outs : list string),
    fst (greedy_until B cfg tok fuel prefix_text until max_length s)
    = Ret outs ->
    length outs = Nat.min (length prefix_text) (length until)
    /\ Forall2 free_of_stops (combine prefix_text until) outs.
Proof.
  intros B cfg tok fuel prefix_text until max_length s outs H.
  unfold greedy_until in H.
  destruct (greedy_until_pairs B cfg tok fuel (combine prefix_text until)
              max_length [] s) as [o s'] eqn:E.
  cbn [fst] in H. subst o.
  destruct (greedy_until_pairs_free B cfg tok fuel max_length _ _ _ _ _ E)
    as (texts & -> & Hall).
  cbn [app]. split; [|exact Hall].
  rewrite <- (Forall2_length Hall). apply length_combine.
Qed.

Lemma greedy_until_outputs_witness :
  length [" 4, 5,"%string]
  = Nat.min (length ["Count: 1, 2, 3,"; "unused"]%string)
      (length [UntilList [" 6,"; " 5, 6"]%string])
  /\ Forall2 free_of_stops
       (combine ["Count: 1, 2, 3,"; "unused"]%string
          [UntilList [" 6,"; " 5, 6"]%string])
       [" 4, 5,"%string].
Proof.
  exact (greedy_until_outputs
           (Stub.backend (encode Stub.char_tokenizer " 4, 5, 6, 7,") 1 97%Z)
           (Stub.flags 16 28 false) Stub.char_tokenizer 2
           ["Count: 1, 2, 3,"; "unused"]%string
           [UntilList [" 6,"; " 5, 6"]%string] 20%Z
           (Stub.start
              (Stub.backend (encode Stub.char_tokenizer " 4, 5, 6, 7,")
                 1 97%Z) 0)
           [" 4, 5,"%string] ltac:(vm_compute; reflexivity)).
Defined.

(** X3. A stop list that holds the empty string makes the loop of
    [greedy_until] fail whenever its body is entered: the empty string
    is found in any text and [split] rejects an empty separator.  The
    exception comes after the generation call of the first iteration:
    if that call returns, the request ends with the host's exception and
    the stored RNG state already replaced. *)
Theorem empty_stop_string_raises :
  forall (B : Backend) (cfg : Flags) (tok : Tokenizer) (fuel : nat)
         (ut : list string) (max_length : Z) (pf : string)
         (total_length : Z) (total_generated : string) (iterations : nat)
         (s : Session B),
    In ""%string ut ->
    (total_length < max_length)%Z ->
    (forall r,
        fst (until_loop B cfg tok fuel ut max_length pf total_length
               total_generated iterations s) <> Ret r)
    /\ forall batch row rest rng',
         prefix_batch cfg tok pf = Some batch ->
         forward_greedy_generate B cfg (sharded_rng s) batch
         = Some (row :: rest, rng') ->
         until_loop B cfg tok (S fuel) ut max_length pf total_length
           total_generated iterations s
         = (Raise HostError,
            after_call FwdGreedyGenerate (inr batch) (Some rng') s).
Proof.
  intros B cfg tok fuel ut max_length pf total_length total_generated
    iterations s Hin Hlt.
  split.
  - intros r. destruct fuel as [|fuel].
    + cbn [until_loop].
      destruct (Z.ltb_spec total_length max_length); [|lia]. discriminate.
    + rewrite until_loop_step by assumption.
      destruct (prefix_batch cfg tok pf) as [batch|]; [|discriminate].
      destruct (forward_greedy_generate B cfg (sharded_rng s) batch)
        as [[output rng']|]; [|discriminate].
      cbv zeta. destruct (hd_error output) as [row|]; [|discriminate].
      rewrite (proj2 (scan_stops_raises ut _ false) Hin). discriminate.
  - intros batch row rest rng' Hb Hg.
    rewrite until_loop_step by assumption. rewrite Hb, Hg. cbv zeta.
    cbn [hd_error].
    now rewrite (proj2 (scan_stops_raises ut _ false) Hin).
Qed.

Lemma empty_stop_string_raises_witness :
  fst (until_loop (Stub.backend [120; 121; 122]%Z 1 97%Z)
         (Stub.flags 2 5 false) Stub.char_tokenizer 3
         ["q"; ""]%string 7%Z "ab"%string 0%Z ""%string 0
         (Stub.start (Stub.backend [120; 121; 122]%Z 1 97%Z) 0))
  <> Ret {| exit_text := ""%string; exit_total_length := 3%Z;
            exit_iterations := 1; exit_done := true |}.
Proof.
  exact (proj1 (empty_stop_string_raises
                  (Stub.backend [120; 121; 122]%Z 1 97%Z)
                  (Stub.flags 2 5 false) Stub.char_tokenizer 3
                  ["q"; ""]%string 7%Z "ab"%string 0%Z ""%string 0
                  (Stub.start (Stub.backend [120; 121; 122]%Z 1 97%Z) 0)
                  ltac:(cbn; auto) ltac:(lia))
           {| exit_text := ""%string; exit_total_length := 3%Z;
              exit_iterations := 1; exit_done := true |}).
Defined.

Section Overshoot.

Variable B : Backend.
Variable cfg : Flags.
Variable tok : Tokenizer.

Lemma until_loop_overshoot_from (L : nat) (ut : list string)
  (max_length : Z) (fuel : nat) :
  fixed_output_length B cfg tok L ->
  forall (pf : string) (total_length : Z) (total_generated : string)
         (iterations : nat) (s : Session B) (r : LoopExit),
    (total_length < Z.max 0 max_length + Z.of_nat L)%Z ->
    fst (until_loop B cfg tok fuel ut max_length pf total_length
           total_generated iterations s) = Ret r ->
    (exit_total_length r < Z.max 0 max_length + Z.of_nat L)%Z.
Proof.
  intros Hfix.
  induction fuel as [|fuel IH];
    intros pf total_length total_generated iterations s r Hinv Hr;
    destruct (Z.ltb_spec total_length max_length) as [Hlt|Hge].
  - cbn [until_loop] in Hr.
    destruct (Z.ltb_spec total_length max_length); [|lia]. discriminate Hr.
  - rewrite until_loop_skip in Hr by assumption. now injection Hr as <-.
  - rewrite until_loop_step in Hr by assumption.
    destruct (prefix_batch cfg tok pf) as [batch|] eqn:Hb;
      [|discriminate Hr].
    destruct (forward_greedy_generate B cfg (sharded_rng s) batch)
      as [[output rng']|] eqn:Hg; [|discriminate Hr].
    rewrite (Hfix _ _ _ _ _ Hb Hg) in Hr. cbv zeta in Hr.
    destruct (hd_error output) as [row|]; [|discriminate Hr].
    destruct (scan_stops ut (total_generated ++ decode tok row) false)
      as [[t [|]]|]; [| |discriminate Hr].
    + injection Hr as <-. cbn [exit_total_length]. lia.
    + apply IH in Hr; [exact Hr|lia].
  - rewrite until_loop_skip in Hr by assumption. now injection Hr as <-.
Qed.

End Overshoot.

(** X4. The loop of [greedy_until] checks the bound only between
    generation calls, so the generated length can pass [max_length], but
    by less than one call: with [L > 0] tokens per call, the loop
    returns with [total_length < max(0, max_length) + L]. *)
Theorem until_loop_overshoot :
  forall (B : Backend) (cfg : Flags) (tok : Tokenizer) (L : nat)
         (ut : list string) (pf : string) (max_length : Z) (fuel : nat)
         (s : Session B) (r : LoopExit),
    0 < L ->
    fixed_output_length B cfg tok L ->
    fst (until_loop B cfg tok fuel ut max_length pf 0%Z ""%string 0 s)
    = Ret r ->
    (exit_total_length r < Z.max 0 max_length + Z.of_nat L)%Z.
Proof.
  intros B cfg tok L ut pf max_length fuel s r HL Hfix Hr.
  eapply until_loop_overshoot_from; eauto. lia.
Qed.

Lemma until_loop_overshoot_witness :
  (9 < Z.max 0 7 + Z.of_nat 3)%Z.
Proof.
  exact (until_loop_overshoot (Stub.backend [120; 121; 122]%Z 1 97%Z)
           (Stub.flags 2 5 false) Stub.char_tokenizer 3 ["q"%string]
           "ab"%string 7%Z 3
           (Stub.start (Stub.backend [120; 121; 122]%Z 1 97%Z) 0)
           {| exit_text := "xyzxyzxyz"%string; exit_total_length := 9%Z;
              exit_iterations := 3; exit_done := false |}
           ltac:(lia)
           (stub_fixed_output_length [120; 121; 122]%Z 97%Z 2 5
              ltac:(lia) ltac:(lia))
           ltac:(vm_compute; reflexivity)).
Defined.

(** ** What [generate] returns *)

Section GenerateResults.

Variable B : Backend.
Variable cfg : Flags.
Variable tok : Tokenizer.

Lemma cut_at_eos_cut (text t : string) :
  cut_at_eos tok text = Some t ->
  Py.contains (eos_token tok) t = false
  /\ exists rest, text = (t ++ rest)%string.
Proof.
  unfold cut_at_eos. destruct (Py.contains (eos_token tok) text) eqn:Ec.
  - intros H. destruct (split_head_cut _ _ _ H) as (_ & Hp & Ha). auto.
  - intros [= <-]. split; [exact Ec|]. exists ""%string.
    clear. induction text; cbn; congruence.
Qed.

Lemma cut_all_at_eos_cut (texts : list string) :
  forall outs,
    cut_all_at_eos tok texts = Some outs ->
    Forall2 (fun text t =>
               Py.contains (eos_token tok) t = false
               /\ exists rest, text = (t ++ rest)%string) texts outs.
Proof.
  induction texts as [|text texts IH]; intros outs H.
  - injection H as <-. constructor.
  - cbn [cut_all_at_eos] in H.
    destruct (cut_at_eos tok text) as [t|] eqn:Et; [|discriminate H].
    destruct (cut_all_at_eos tok texts) as [rest|]; [|discriminate H].
    injection H as <-. constructor; [now apply cut_at_eos_cut|now apply IH].
Qed.

End GenerateResults.

(** X5. [generate] raises on an empty list of prompts without calling
    the executor.  When it returns, it returns one text per row of the
    executor's output; each text is the decoded row cut before the first
    end-of-sequence marker, so no returned text contains the marker. *)
Theorem generate_outputs :
  forall (B : Backend) (cfg : Flags) (tok : Tokenizer) (s : Session B),
    generate B cfg tok [] s = (Raise HostError, s)
    /\ forall (text : list string) (texts : list string),
         fst (generate B cfg tok text s) = Ret texts ->
         Forall (fun t => Py.contains (eos_token tok) t = false) texts
         /\ exists inputs output rng',
              tokenizer_max_length tok SideLeft (input_length cfg) text
              = Some inputs
              /\ forward_generate B cfg (sharded_rng s)
                   {| gen_input_tokens := input_ids inputs;
                      gen_attention_mask := attention_mask inputs |}
                 = Some (output, rng')
              /\ Forall2 (fun row t =>
                            exists rest,
                              decode tok row = (t ++ rest)%string)
                   output texts.
Proof.
  intros B cfg tok s. split; [reflexivity|].
  intros text texts H. unfold generate, bind in H.
  destruct (tokenizer_max_length tok SideLeft (input_length cfg) text)
    as [inputs|]; [|discriminate H].
  cbn [host ret] in H. rewrite invoke_unfold in H.
  destruct (forward_generate B cfg (sharded_rng s) _)
    as [[output rng']|] eqn:Eg; [|discriminate H].
  destruct (cut_all_at_eos tok (map (decode tok) output)) as [outs|] eqn:Ec;
    [|discriminate H].
  cbn in H. injection H as <-.
  pose proof (cut_all_at_eos_cut tok _ _ Ec) as Hall.
  split.
  - clear -Hall. induction Hall as [|x t l l' [Hc _] _ IH]; constructor; auto.
  - exists inputs, output, rng'. repeat split; auto.
    clear -Hall. revert outs Hall.
    induction output as [|row output IH]; intros outs Hall;
      inversion Hall as [|x t l l' [_ Hp] Hrest]; subst; constructor; auto.
Qed.

Lemma generate_outputs_witness :
  Forall (fun t => Py.contains (eos_token Stub.char_tokenizer) t = false)
    ["hi"%string].
Proof.
  exact (proj1 (proj2 (generate_outputs
                         (Stub.backend
                            (encode Stub.char_tokenizer "hi</s>more") 1 97%Z)
                         (Stub.flags 2 12 false) Stub.char_tokenizer
                         (Stub.start
                            (Stub.backend
                               (encode Stub.char_tokenizer "hi</s>more")
                               1 97%Z) 0))
                  ["ab"%string] ["hi"%string]
                  ltac:(vm_compute; reflexivity))).
Defined.

(** ** The greedy flag of [forward_loglikelihood] *)

Section GreedyFlag.

Variable B : Backend.

Lemma row_match_count_le (logits : list (Logits B)) :
  forall (out om : Np.Row),
    length logits = length out ->
    length out = length om ->
    Forall (fun m => m = 0%Z \/ m = 1%Z) om ->
    (row_match_count B logits out om <= Np.sumZ om)%Z
    /\ (row_match_count B logits out om = Np.sumZ om <->
        forall k l t,
          nth_error logits k = Some l ->
          nth_error out k = Some t ->
          nth_error om k = Some 1%Z ->
          argmax B l = t).
Proof.
  induction logits as [|l logits IH]; intros [|t out] [|m om] H1 H2 Hm;
    try discriminate.
  - cbn. split; [lia|]. split; [|reflexivity].
    intros _ [|k] l t H; discriminate H.
  - inversion Hm as [|m' om' Hm0 Hm']; subst.
    destruct (IH out om) as (Hle & Hiff); [cbn in *; lia..|assumption|].
    unfold row_match_count in *.
    cbn [combine Np.map2 Np.sumZ fold_right fst snd] in *.
    fold (Np.sumZ om) in *.
    fold (Np.sumZ
            (Np.map2
               (fun (lt : Logits B * Z) (m0 : Z) =>
                  ((if (argmax B (fst lt) =? snd lt)%Z then 1 else 0) * m0)%Z)
               (combine logits out) om)) in *.
    destruct (Z.eqb_spec (argmax B l) t) as [Heq|Hneq].
    + split; [destruct Hm0; subst; lia|]. split.
      * intros Hs [|k] l' t' Hl Ht Hk; cbn [nth_error] in *.
        -- congruence.
        -- eapply (proj1 Hiff); eauto. destruct Hm0; subst; lia.
      * intros Hall.
        assert (Htail : forall k l' t',
                   nth_error logits k = Some l' ->
                   nth_error out k = Some t' ->
                   nth_error om k = Some 1%Z -> argmax B l' = t')
          by (intros k; apply (Hall (S k))).
        apply Hiff in Htail. destruct Hm0; subst; lia.
    + split; [destruct Hm0; subst; lia|]. split.
      * intros Hs [|k] l' t' Hl Ht Hk; cbn [nth_error] in *.
        -- injection Hk as ->. lia.
        -- eapply (proj1 Hiff); eauto. destruct Hm0; subst; lia.
      * intros Hall.
        assert (Htail : forall k l' t',
                   nth_error logits k = Some l' ->
                   nth_error out k = Some t' ->
                   nth_error om k = Some 1%Z -> argmax B l' = t')
          by (intros k; apply (Hall (S k))).
        apply Hiff in Htail.
        destruct Hm0 as [->| ->]; [lia|].
        exfalso. apply Hneq. now apply (Hall 0 l t).
Qed.

End GreedyFlag.

Lemma row_match_count_masked_out (B : Backend) (pairs : list (Logits B * Z)) :
  forall om : Np.Row,
    Forall (fun m => m = 0%Z) om ->
    Np.sumZ
      (Np.map2
         (fun (lt : Logits B * Z) (m : Z) =>
            ((if (argmax B (fst lt) =? snd lt)%Z then 1 else 0) * m)%Z)
         pairs om) = 0%Z
    /\ Np.sumZ om = 0%Z.
Proof.
  induction pairs as [|p pairs IH]; intros om Hom.
  - split; [reflexivity|]. induction Hom as [|m om -> _ IHm]; cbn; auto.
  - destruct om as [|m om]; [split; reflexivity|].
    inversion Hom as [|m' om' -> Hom']; subst.
    destruct (IH om Hom') as (H1 & H2). cbn [Np.map2 Np.sumZ fold_right].
    unfold Np.sumZ in H1, H2. rewrite H1, H2. split; lia.
Qed.

(** X6. The greedy flag of one row, as [forward_loglikelihood] computes
    it from [match_count == total]: for a 0/1 output mask over rows of
    equal length it is set exactly when the model's argmax equals the
    target at every position the mask selects; a row whose output mask
    is zero everywhere (an empty text, a padding row) is always
    reported greedy. *)
Theorem greedy_flag_meaning :
  forall (B : Backend) (logits : list (Logits B)) (out om : Np.Row),
    (Forall (fun m => m = 0%Z) om -> row_is_greedy B logits out om = true)
    /\ (length logits = length out ->
        length out = length om ->
        Forall (fun m => m = 0%Z \/ m = 1%Z) om ->
        (row_is_greedy B logits out om = true <->
         forall k l t,
           nth_error logits k = Some l ->
           nth_error out k = Some t ->
           nth_error om k = Some 1%Z ->
           argmax B l = t)).
Proof.
  intros B logits out om. split.
  - intros Hom. unfold row_is_greedy, row_match_count.
    destruct (row_match_count_masked_out B (combine logits out) om Hom)
      as (-> & ->).
    reflexivity.
  - intros H1 H2 Hm. unfold row_is_greedy. rewrite Z.eqb_eq.
    now apply row_match_count_le.
Qed.

Lemma greedy_flag_meaning_witness :
  row_is_greedy (Stub.backend [] 1 97%Z) [97; 97; 5]%Z [97; 97; 98]%Z
    [0; 0; 0]%Z = true.
Proof.
  exact (proj1 (greedy_flag_meaning (Stub.backend [] 1 97%Z) [97; 97; 5]%Z
                  [97; 97; 98]%Z [0; 0; 0]%Z)
           ltac:(repeat constructor)).
Defined.

(** ** Shapes and errors of [loglikelihood] *)

Lemma concat_cols_mismatch (a b : Np.Matrix) :
  length a <> length b -> Np.concat_cols a b = None.
Proof.
  revert b. induction a as [|ra a IH]; intros [|rb b] H; cbn in *;
    try reflexivity; try contradiction.
  rewrite IH by lia. reflexivity.
Qed.

Lemma map2_Forall {A C D : Type} (P : D -> Prop) (f : A -> C -> D)
  (l : list A) (l' : list C) :
  (forall a c, P (f a c)) -> Forall P (Np.map2 f l l').
Proof.
  intros H. revert l'. induction l as [|a l IH]; intros [|c l']; cbn;
    constructor; auto.
Qed.

(** X7. [loglikelihood] needs as many prefixes as continuations, and at
    least one: otherwise it raises on the host side, calls no executor
    and leaves the session as it was.  For a well-formed batch every
    array handed to the executor has one row per pair and exactly
    [seq_length] columns. *)
Theorem loglikelihood_shape :
  forall (B : Backend) (cfg : Flags) (tok : Tokenizer)
         (prefix_text text : list string) (s : Session B),
    (prefix_text = [] \/ text = [] \/ length prefix_text <> length text ->
     loglikelihood B cfg tok prefix_text text s = (Raise HostError, s))
    /\ (0 < seq_length cfg ->
        input_length cfg <= seq_length cfg ->
        0 < length prefix_text ->
        length prefix_text = length text ->
        exists batch,
          loglikelihood_batch cfg tok prefix_text text = Some batch
          /\ score_batch_shape (length text) (seq_length cfg) batch).
Proof.
  intros B cfg tok prefix_text text s. split.
  - intros H. unfold loglikelihood.
    assert (Hb : loglikelihood_batch cfg tok prefix_text text = None).
    { unfold loglikelihood_batch.
      destruct prefix_text as [|p ps]; [reflexivity|].
      rewrite tokenizer_max_length_rows by discriminate.
      destruct (seq_length cfg <? input_length cfg); [reflexivity|].
      destruct text as [|t ts].
      - reflexivity.
      - destruct H as [H|[H|H]]; try discriminate.
        rewrite !tokenizer_max_length_rows by discriminate.
        cbn [input_ids]. rewrite concat_cols_mismatch; [reflexivity|].
        now rewrite !length_map. }
    rewrite Hb. reflexivity.
  - intros HS HI Hne Hlen. eexists. split.
    + apply loglikelihood_batch_rows; auto.
      destruct prefix_text; [cbn in Hne; lia|discriminate].
    + assert (Hout : forall p t, length (spec_output_row cfg tok p t)
                                 = seq_length cfg).
      { intros p t. unfold spec_output_row, prefix_ids, continuation_ids.
        rewrite length_app, !padded_ids_length. lia. }
      assert (Hmask : forall p t,
                 length (prefix_mask cfg tok p ++ continuation_mask cfg tok t)
                 = seq_length cfg).
      { intros p t. unfold prefix_mask, continuation_mask.
        rewrite length_app, !padded_mask_length. lia. }
      unfold score_batch_shape, spec_score_batch.
      cbn [input_tokens output_tokens input_mask output_mask].
      rewrite !map2_length by assumption.
      repeat split; auto; apply map2_Forall; intros p t.
      * unfold spec_input_row. cbn [length].
        rewrite removelast_firstn_pred, length_firstn, Hout. lia.
      * apply Hout.
      * unfold spec_input_mask_row. cbn [length].
        rewrite removelast_firstn_pred, length_firstn, Hmask. lia.
      * unfold spec_output_mask_row, continuation_mask.
        rewrite length_app, repeat_length, padded_mask_length. lia.
Qed.

Lemma loglikelihood_shape_witness :
  loglikelihood (Stub.backend [] 1 97%Z) (Stub.flags 2 4 false)
    Stub.char_tokenizer ["a"; "b"]%string ["c"%string]
    (Stub.start (Stub.backend [] 1 97%Z) 0)
  = (Raise HostError, Stub.start (Stub.backend [] 1 97%Z) 0).
Proof.
  apply (proj1 (loglikelihood_shape (Stub.backend [] 1 97%Z)
                  (Stub.flags 2 4 false) Stub.char_tokenizer
                  ["a"; "b"]%string ["c"%string]
                  (Stub.start (Stub.backend [] 1 97%Z) 0))).
  right. right. cbn. lia.
Defined.

(** ** Shapes, errors and coverage of [loglikelihood_rolling] *)

Lemma firstn_add {A : Type} (a b : nat) (l : list A) :
  firstn (a + b) l = firstn a l ++ firstn b (skipn a l).
Proof.
  revert l. induction a as [|a IH]; intros l; [reflexivity|].
  destruct l as [|x l]; cbn; [now rewrite firstn_nil|]. now rewrite IH.
Qed.

(** Cutting a list into consecutive pieces of [n] elements and joining
    the first [k] of them gives its first [k * n] elements. *)
Lemma concat_chunks {A : Type} (n : nat) (l : list A) (k : nat) :
  concat (map (fun i => firstn n (skipn i l))
            (map (fun j => j * n) (seq 0 k)))
  = firstn (k * n) l.
Proof.
  induction k as [|k IH]; [reflexivity|].
  rewrite seq_S, !map_app, concat_app, IH. cbn [map concat Nat.add].
  rewrite app_nil_r.
  replace (S k * n) with (k * n + n) by lia.
  now rewrite firstn_add.
Qed.

Lemma ceil_mul_ge (total n : nat) :
  0 < n -> total <= (total + n - 1) / n * n.
Proof.
  intros Hn.
  pose proof (Nat.div_mod_eq (total + n - 1) n) as Hd.
  pose proof (Nat.mod_upper_bound (total + n - 1) n ltac:(lia)) as Hm.
  nia.
Qed.

Lemma nth_map_some {A C : Type} (h : A -> C) (l : list A) (j : nat) (x : A)
  (d : C) :
  nth_error l j = Some x -> nth j (map h l) d = h x.
Proof.
  revert j. induction l as [|a l IH]; intros [|j] H; try discriminate.
  - now injection H as ->.
  - cbn. now apply IH.
Qed.

Lemma sumZ_app (l l' : list Z) :
  Np.sumZ (l ++ l') = (Np.sumZ l + Np.sumZ l')%Z.
Proof.
  unfold Np.sumZ. induction l as [|x l IH]; cbn; [reflexivity|]. lia.
Qed.

Lemma sumZ_repeat (v : Z) (n : nat) :
  Np.sumZ (repeat v n) = (v * Z.of_nat n)%Z.
Proof.
  unfold Np.sumZ. induction n as [|n IH]; cbn [repeat fold_right]; lia.
Qed.

Section RollingCoverage.

Variable cfg : Flags.
Variable tok : Tokenizer.

Lemma window_output_mask_row (text : list string) (i j : nat) (t : string) :
  0 < seq_length cfg ->
  i < rolling_total cfg tok text ->
  nth_error text j = Some t ->
  scored_part cfg (rolling_total cfg tok text) i
    (nth j (output_mask (window_batch cfg (spec_rolling_arrays cfg tok text)
                           (rolling_total cfg tok text) i)) [])
  = firstn (seq_length cfg) (skipn i (rolling_mask_row cfg tok text t))
  /\ overlap_part cfg (rolling_total cfg tok text) i
       (nth j (output_mask (window_batch cfg (spec_rolling_arrays cfg tok text)
                              (rolling_total cfg tok text) i)) [])
     = repeat 0%Z (i - window_start cfg (rolling_total cfg tok text) i).
Proof.
  intros HS Hi Hj.
  assert (Hle : seq_length cfg <= rolling_total cfg tok text)
    by (unfold rolling_total; lia).
  assert (Hlen : length (rolling_mask_row cfg tok text t)
                 = rolling_total cfg tok text).
  { unfold rolling_mask_row, padded_mask. apply pad_row_length.
    rewrite repeat_length. apply rolling_total_ge.
    eapply nth_error_In; eauto. }
  unfold scored_part, overlap_part, window_start.
  destruct (Nat.leb_spec (i + seq_length cfg) (rolling_total cfg tok text))
    as [Hn|Hl].
  - rewrite window_batch_normal by assumption.
    cbn [spec_normal_window output_mask spec_rolling_arrays
         roll_attention_mask].
    rewrite map_map, (nth_map_some _ _ _ _ _ Hj), Nat.sub_diag.
    split; reflexivity.
  - rewrite window_batch_last; auto;
      [|now apply spec_rolling_arrays_rectangular].
    cbn [spec_last_window output_mask spec_rolling_arrays
         roll_attention_mask].
    rewrite map_map, (nth_map_some _ _ _ _ _ Hj).
    replace (i - (rolling_total cfg tok text - seq_length cfg))
      with (seq_length cfg - (rolling_total cfg tok text - i)) by lia.
    split.
    + rewrite skipn_app, repeat_length, Nat.sub_diag.
      rewrite skipn_all2 by (rewrite repeat_length; lia).
      cbn [app skipn]. symmetry. apply firstn_all2.
      rewrite length_skipn, Hlen. lia.
    + rewrite firstn_app, repeat_length, Nat.sub_diag.
      rewrite firstn_all2 by (rewrite repeat_length; lia).
      cbn [firstn]. now rewrite app_nil_r.
Qed.

End RollingCoverage.

Lemma rolling_width (cfg : Flags) (tok : Tokenizer) (text : list string) :
  0 < length text ->
  Np.width (roll_output_tokens (spec_rolling_arrays cfg tok text))
  = rolling_total cfg tok text.
Proof.
  intros Hne. destruct text as [|t text]; [cbn in Hne; lia|].
  cbn [spec_rolling_arrays roll_output_tokens map Np.width].
  apply pad_row_length. apply rolling_total_ge. now left.
Qed.

(** The offsets of the windows of a batch of texts. *)
Lemma rolling_offsets_of_text (cfg : Flags) (tok : Tokenizer)
  (text : list string) :
  0 < seq_length cfg ->
  0 < length text ->
  exists offsets,
    rolling_offsets cfg (spec_rolling_arrays cfg tok text) = Some offsets
    /\ offsets
       = map (fun k => k * seq_length cfg)
           (seq 0 ((rolling_total cfg tok text + seq_length cfg - 1)
                   / seq_length cfg))
    /\ forall i, In i offsets -> i < rolling_total cfg tok text.
Proof.
  intros HS Hne.
  destruct (range_step_spec (rolling_total cfg tok text) (seq_length cfg) HS)
    as (offsets & Hr & Ho & Hin).
  exists offsets. unfold rolling_offsets. rewrite rolling_width by assumption.
  repeat split; auto. intros i Hi. now apply Hin.
Qed.

(** X8. Every token is scored in exactly one window of
    [loglikelihood_rolling].  For each text of the batch, the rows of the
    windows' output masks, each read from its window's own offset on,
    laid end to end give the text's attention mask; what lies before the
    offset (the overlap of the right-aligned last window with the window
    before it) is zero; and the attention mask holds one 1 per token of
    the text. *)
Theorem rolling_mask_coverage :
  forall (cfg : Flags) (tok : Tokenizer) (text : list string) (j : nat)
         (t : string),
    0 < seq_length cfg ->
    nth_error text j = Some t ->
    exists offsets,
      rolling_offsets cfg (spec_rolling_arrays cfg tok text) = Some offsets
      /\ concat
           (map (fun i =>
                   scored_part cfg (rolling_total cfg tok text) i
                     (nth j (output_mask
                               (window_batch cfg
                                  (spec_rolling_arrays cfg tok text)
                                  (rolling_total cfg tok text) i)) []))
              offsets)
         = rolling_mask_row cfg tok text t
      /\ Forall (fun i =>
                   overlap_part cfg (rolling_total cfg tok text) i
                     (nth j (output_mask
                               (window_batch cfg
                                  (spec_rolling_arrays cfg tok text)
                                  (rolling_total cfg tok text) i)) [])
                   = repeat 0%Z
                       (i - window_start cfg (rolling_total cfg tok text) i))
           offsets
      /\ Np.sumZ (rolling_mask_row cfg tok text t)
         = Z.of_nat (length (encode tok t)).
Proof.
  intros cfg tok text j t HS Hj.
  assert (Hne : 0 < length text).
  { destruct text; [destruct j; discriminate Hj|cbn; lia]. }
  destruct (rolling_offsets_of_text cfg tok text HS Hne)
    as (offsets & Hoff & Heq & Hin).
  exists offsets. split; [exact Hoff|].
  assert (Hlen : length (rolling_mask_row cfg tok text t)
                 = rolling_total cfg tok text).
  { unfold rolling_mask_row, padded_mask. apply pad_row_length.
    rewrite repeat_length. apply rolling_total_ge.
    eapply nth_error_In; eauto. }
  split; [|split].
  - rewrite (map_ext_in _
               (fun i => firstn (seq_length cfg)
                           (skipn i (rolling_mask_row cfg tok text t)))).
    + rewrite Heq, concat_chunks. apply firstn_all2. rewrite Hlen.
      now apply ceil_mul_ge.
    + intros i Hi.
      exact (proj1 (window_output_mask_row cfg tok text i j t HS
                      (Hin i Hi) Hj)).
  - rewrite Forall_forall. intros i Hi.
    exact (proj2 (window_output_mask_row cfg tok text i j t HS
                    (Hin i Hi) Hj)).
  - unfold rolling_mask_row, padded_mask. cbn [pad_row].
    rewrite sumZ_app, !sumZ_repeat. lia.
Qed.

Lemma rolling_mask_coverage_witness :
  exists offsets,
    rolling_offsets (Stub.flags 0 4 false)
      (spec_rolling_arrays (Stub.flags 0 4 false) Stub.char_tokenizer
         ["abcdef"%string]) = Some offsets
    /\ concat
         (map (fun i =>
                 scored_part (Stub.flags 0 4 false)
                   (rolling_total (Stub.flags 0 4 false) Stub.char_tokenizer
                      ["abcdef"%string]) i
                   (nth 0 (output_mask
                             (window_batch (Stub.flags 0 4 false)
                                (spec_rolling_arrays (Stub.flags 0 4 false)
                                   Stub.char_tokenizer ["abcdef"%string])
                                (rolling_total (Stub.flags 0 4 false)
                                   Stub.char_tokenizer ["abcdef"%string])
                                i)) []))
            offsets)
       = rolling_mask_row (Stub.flags 0 4 false) Stub.char_tokenizer
           ["abcdef"%string] "abcdef"%string
    /\ Forall (fun i =>
                 overlap_part (Stub.flags 0 4 false)
                   (rolling_total (Stub.flags 0 4 false) Stub.char_tokenizer
                      ["abcdef"%string]) i
                   (nth 0 (output_mask
                             (window_batch (Stub.flags 0 4 false)
                                (spec_rolling_arrays (Stub.flags 0 4 false)
                                   Stub.char_tokenizer ["abcdef"%string])
                                (rolling_total (Stub.flags 0 4 false)
                                   Stub.char_tokenizer ["abcdef"%string])
                                i)) [])
                 = repeat 0%Z
                     (i - window_start (Stub.flags 0 4 false)
                            (rolling_total (Stub.flags 0 4 false)
                               Stub.char_tokenizer ["abcdef"%string]) i))
         offsets
    /\ Np.sumZ (rolling_mask_row (Stub.flags 0 4 false) Stub.char_tokenizer
                  ["abcdef"%string] "abcdef"%string)
       = Z.of_nat (length (encode Stub.char_tokenizer "abcdef"%string)).
Proof.
  exact (rolling_mask_coverage (Stub.flags 0 4 false) Stub.char_tokenizer
           ["abcdef"%string] 0 "abcdef"%string ltac:(cbn; lia) eq_refl).
Defined.

Section RollingShape.

Variable cfg : Flags.
Variable tok : Tokenizer.

Lemma window_batch_shape (text : list string) (i : nat) :
  0 < seq_length cfg ->
  i < rolling_total cfg tok text ->
  score_batch_shape (length text) (seq_length cfg)
    (window_batch cfg (spec_rolling_arrays cfg tok text)
       (rolling_total cfg tok text) i).
Proof.
  intros HS Hi.
  assert (Hle : seq_length cfg <= rolling_total cfg tok text)
    by (unfold rolling_total; lia).
  pose proof (spec_rolling_arrays_rectangular cfg tok text HS)
    as (Hin & Hout & Hmask).
  assert (Hrows : length (roll_input_tokens (spec_rolling_arrays cfg tok text))
                  = length text
                  /\ length (roll_output_tokens
                               (spec_rolling_arrays cfg tok text))
                     = length text
                  /\ length (roll_attention_mask
                               (spec_rolling_arrays cfg tok text))
                     = length text).
  { cbn. now rewrite !length_map. }
  destruct Hrows as (R1 & R2 & R3).
  assert (Hcut : forall m : Np.Matrix,
            Forall (fun r => length r = rolling_total cfg tok text) m ->
            i + seq_length cfg <= rolling_total cfg tok text ->
            Forall (fun r => length r = seq_length cfg)
              (map (fun r => firstn (seq_length cfg) (skipn i r)) m)).
  { intros m Hm Hn. rewrite Forall_map. eapply Forall_impl; [|exact Hm].
    intros r Hr. cbn beta. rewrite length_firstn, length_skipn, Hr. lia. }
  assert (Htail : forall m : Np.Matrix,
            Forall (fun r => length r = rolling_total cfg tok text) m ->
            Forall (fun r => length r = seq_length cfg)
              (map (skipn (rolling_total cfg tok text - seq_length cfg)) m)).
  { intros m Hm. rewrite Forall_map. eapply Forall_impl; [|exact Hm].
    intros r Hr. cbn beta. rewrite length_skipn, Hr. lia. }
  destruct (Nat.le_gt_cases (i + seq_length cfg) (rolling_total cfg tok text))
    as [Hn|Hl].
  - rewrite window_batch_normal by assumption.
    unfold score_batch_shape, spec_normal_window.
    cbn [input_tokens output_tokens input_mask output_mask].
    rewrite !length_map, R1, R2, R3. repeat split; auto.
  - rewrite window_batch_last; auto; [|repeat split; assumption].
    unfold score_batch_shape, spec_last_window.
    cbn [input_tokens output_tokens input_mask output_mask].
    rewrite !length_map, R1, R2, R3. repeat split; auto.
    rewrite Forall_map. eapply Forall_impl; [|exact Hmask].
    intros r Hr. cbn beta.
    rewrite length_app, repeat_length, length_skipn, Hr. lia.
Qed.

End RollingShape.

Lemma rolling_host_error (B : Backend) (cfg : Flags) (tok : Tokenizer)
  (text : list string) (s : Session B) :
  text = [] \/ seq_length cfg = 0 ->
  loglikelihood_rolling B cfg tok text s = (Raise HostError, s).
Proof.
  intros [->|HS]; [reflexivity|].
  destruct text as [|t text]; [reflexivity|].
  unfold loglikelihood_rolling.
  rewrite rolling_arrays_rows by discriminate. cbn [host].
  unfold bind at 1. unfold ret at 1.
  unfold rolling_windows, rolling_offsets. rewrite HS. reflexivity.
Qed.

Lemma rolling_windows_built (cfg : Flags) (tok : Tokenizer)
  (text : list string) :
  0 < seq_length cfg ->
  0 < length text ->
  exists windows,
    rolling_windows cfg (spec_rolling_arrays cfg tok text) = Some windows
    /\ length windows
       = (rolling_total cfg tok text + seq_length cfg - 1) / seq_length cfg
    /\ 0 < length windows
    /\ Forall (score_batch_shape (length text) (seq_length cfg)) windows.
Proof.
  intros HS Hne.
  destruct (rolling_offsets_of_text cfg tok text HS Hne)
    as (offsets & Hoff & Heq & Hin).
  unfold rolling_windows. rewrite Hoff, rolling_width by assumption.
  eexists. split; [reflexivity|].
  rewrite length_map.
  assert (Hlen : length offsets
                 = (rolling_total cfg tok text + seq_length cfg - 1)
                   / seq_length cfg).
  { rewrite Heq, length_map, length_seq. reflexivity. }
  split; [exact Hlen|]. split.
  - rewrite Hlen. apply Nat.div_str_pos. unfold rolling_total. lia.
  - rewrite Forall_map, Forall_forall. intros i Hi.
    apply window_batch_shape; auto.
Qed.

(** X9. [loglikelihood_rolling] raises on the host side, before any
    executor call and with the session left as it was, when the batch of
    texts is empty or [seq_length] is 0 (a [range] with step 0).
    Otherwise it builds [ceil (total_seq_length / seq_length)] windows,
    at least one, and every array of every window has one row per text
    and exactly [seq_length] columns. *)
Theorem rolling_shape :
  forall (B : Backend) (cfg : Flags) (tok : Tokenizer) (text : list string)
         (s : Session B),
    (text = [] \/ seq_length cfg = 0 ->
     loglikelihood_rolling B cfg tok text s = (Raise HostError, s))
    /\ (0 < seq_length cfg ->
        0 < length text ->
        exists windows,
          rolling_windows cfg (spec_rolling_arrays cfg tok text)
          = Some windows
          /\ length windows
             = (rolling_total cfg tok text + seq_length cfg - 1)
               / seq_length cfg
          /\ 0 < length windows
          /\ Forall (score_batch_shape (length text) (seq_length cfg))
               windows).
Proof.
  intros B cfg tok text s. split.
  - apply rolling_host_error.
  - apply rolling_windows_built.
Qed.

Lemma rolling_shape_witness :
  loglikelihood_rolling (Stub.backend [] 1 97%Z) (Stub.flags 0 0 false)
    Stub.char_tokenizer ["abc"%string]
    (Stub.start (Stub.backend [] 1 97%Z) 0)
  = (Raise HostError, Stub.start (Stub.backend [] 1 97%Z) 0).
Proof.
  apply (proj1 (rolling_shape (Stub.backend [] 1 97%Z) (Stub.flags 0 0 false)
                  Stub.char_tokenizer ["abc"%string]
                  (Stub.start (Stub.backend [] 1 97%Z) 0))).
  right. reflexivity.
Defined.

(** ** How far the RNG state moves *)

Lemma iadd_is_arr {A : Type} (f : A -> A -> A) (total : Np.Val A)
  (x : list A) (v : Np.Val A) :
  Np.iadd f total x = Some v -> exists l, v = Np.Arr l.
Proof.
  unfold Np.iadd. destruct total as [a|t].
  - intros [= <-]. eauto.
  - destruct (Np.broadcast2 true f t x); [|discriminate].
    intros [= <-]. eauto.
Qed.

Lemma logical_and_is_arr (x : list bool) (total v : Np.Val bool) :
  Np.logical_and x total = Some v -> exists l, v = Np.Arr l.
Proof.
  unfold Np.logical_and. destruct total as [a|t].
  - intros [= <-]. eauto.
  - destruct (Np.broadcast2 false andb x t); [|discriminate].
    intros [= <-]. eauto.
Qed.

Section RngAdvance.

Variable B : Backend.
Variable cfg : Flags.
Variable tok : Tokenizer.

Lemma forward_loglikelihood_advance (r r' : RNG B) (b : ScoreBatch)
  (v : list (F B) * list bool) :
  forward_loglikelihood B r b = Some (v, r') -> r' = score_advance B r.
Proof.
  unfold forward_loglikelihood, score_advance.
  destruct (rng_split_keys B r) as [g1 keys].
  destruct (hf_apply B (input_tokens b) (input_mask b) keys);
    [|discriminate].
  now intros [= _ <-].
Qed.

Lemma forward_generate_with_advance (sample : bool) (r r' : RNG B)
  (b : GenBatch) (out : Np.Matrix) :
  forward_generate_with B cfg sample r b = Some (out, r') ->
  r' = generate_advance B r.
Proof.
  unfold forward_generate_with, generate_advance.
  destruct (rng_split B r) as [g1 key].
  destruct (hf_generate B sample (seq_length cfg) (gen_input_tokens b)
              (gen_attention_mask b) key); [|discriminate].
  now intros [= _ <-].
Qed.

Lemma executor_returns_advance (fn : ExecFn) (batch : ScoreBatch + GenBatch)
  (r r' : RNG B) :
  executor_returns B cfg fn batch r = Some r' ->
  r' = match fn with
       | FwdLoglikelihood => score_advance B r
       | _ => generate_advance B r
       end.
Proof.
  destruct fn, batch as [b|b]; cbn [executor_returns]; try discriminate.
  - destruct (forward_loglikelihood B r b) as [[v r1]|] eqn:E;
      [|discriminate].
    cbn. intros [= <-]. eapply forward_loglikelihood_advance; eauto.
  - unfold forward_generate.
    destruct (forward_generate_with B cfg (do_sample cfg) r b)
      as [[v r1]|] eqn:E; [|discriminate].
    cbn. intros [= <-]. eapply forward_generate_with_advance; eauto.
  - unfold forward_greedy_generate.
    destruct (forward_generate_with B cfg false r b) as [[v r1]|] eqn:E;
      [|discriminate].
    cbn. intros [= <-]. eapply forward_generate_with_advance; eauto.
Qed.

Lemma threaded_advance (cs : list (Call B)) :
  forall r r_end,
    threaded B cfg r cs r_end -> r_end = fold_left (advance_by B) cs r.
Proof.
  induction cs as [|c cs IH]; intros r r_end H.
  - cbn in *. congruence.
  - destruct H as (Hr & Hret & H). cbn [fold_left].
    apply IH in H. rewrite H. f_equal. unfold advance_by.
    destruct (call_ret c) as [r'|]; [|reflexivity].
    symmetry in Hret. now apply executor_returns_advance in Hret.
Qed.

Lemma rolling_loop_returns (windows : list ScoreBatch) :
  forall (tl : Np.Val (F B)) (tg : Np.Val bool) (s s' : Session B)
         (v : Np.Val (F B) * Np.Val bool),
    rolling_loop B windows tl tg s = (Ret v, s') ->
    length (calls s') = length (calls s) + length windows
    /\ sharded_rng s'
       = Nat.iter (length windows) (score_advance B) (sharded_rng s)
    /\ (windows = [] -> v = (tl, tg))
    /\ (windows <> [] -> exists ll g, v = (Np.Arr ll, Np.Arr g)).
Proof.
  induction windows as [|w windows IH]; intros tl tg s s' v H.
  - injection H as <- <-. repeat split; auto. intros []. reflexivity.
  - cbn [rolling_loop] in H. unfold bind at 1 in H.
    rewrite invoke_unfold in H.
    destruct (forward_loglikelihood B (sharded_rng s) w)
      as [[[ll g] rng']|] eqn:Ef; [|discriminate H].
    cbn [fst snd] in H. unfold bind at 1 in H.
    destruct (Np.iadd (fadd B) tl ll) as [tl'|] eqn:Ea;
      [|discriminate H].
    cbn [host] in H. unfold ret at 1 in H. unfold bind at 1 in H.
    destruct (Np.logical_and g tg) as [tg'|] eqn:El; [|discriminate H].
    cbn [host] in H. unfold ret at 1 in H.
    destruct (IH _ _ _ _ _ H) as (Hc & Hr & Hnil & Hcons).
    rewrite after_call_calls in Hc. cbn [after_call sharded_rng] in Hr.
    apply forward_loglikelihood_advance in Ef. subst rng'.
    repeat split.
    + cbn [length]. lia.
    + cbn [length]. now rewrite Nat.iter_succ_r.
    + discriminate.
    + intros _. destruct windows as [|w' windows].
      * rewrite (Hnil eq_refl).
        destruct (iadd_is_arr _ _ _ _ Ea) as (l1 & ->).
        destruct (logical_and_is_arr _ _ _ El) as (l2 & ->). eauto.
      * apply Hcons. discriminate.
Qed.

End RngAdvance.

(** X10. After any serialized run of requests, the stored RNG state is
    obtained from the initial one by applying, for each executor
    invocation that returned, the fixed advance of its executor (two
    splits), in order: it depends on which executors returned, and on
    nothing else - not on the texts, the batches or the model's
    output. *)
Theorem rng_state_after_run :
  forall (B : Backend) (cfg : Flags) (tok : Tokenizer) (fuel : nat)
         (reqs : list Request) (s : Session B),
    sharded_rng (snd (serve_all B cfg tok fuel reqs s))
    = fold_left (advance_by B)
        (new_calls B s (snd (serve_all B cfg tok fuel reqs s)))
        (sharded_rng s).
Proof.
  intros B cfg tok fuel reqs s.
  destruct (serve_all_threaded B cfg tok fuel reqs s) as (cs & Hc & Ht).
  unfold new_calls. rewrite Hc, skipn_app, skipn_all, Nat.sub_diag.
  cbn [skipn app]. now apply (threaded_advance B cfg).
Qed.

(** X11. When [loglikelihood_rolling] returns, it has invoked
    [forward_loglikelihood] once per window,
    [ceil (total_seq_length / seq_length)] times in all, it has advanced
    the stored RNG state that many times, and it returns arrays (one
    value per text), never the scalars its accumulators start from. *)
Theorem rolling_returns :
  forall (B : Backend) (cfg : Flags) (tok : Tokenizer) (text : list string)
         (s : Session B) (v : Np.Val (F B) * Np.Val bool),
    fst (loglikelihood_rolling B cfg tok text s) = Ret v ->
    0 < seq_length cfg
    /\ 0 < length text
    /\ length (calls (snd (loglikelihood_rolling B cfg tok text s)))
       = length (calls s)
         + (rolling_total cfg tok text + seq_length cfg - 1) / seq_length cfg
    /\ sharded_rng (snd (loglikelihood_rolling B cfg tok text s))
       = Nat.iter
           ((rolling_total cfg tok text + seq_length cfg - 1)
            / seq_length cfg)
           (score_advance B) (sharded_rng s)
    /\ exists ll g, v = (Np.Arr ll, Np.Arr g).
Proof.
  intros B cfg tok text s v H.
  destruct (Nat.eq_dec (seq_length cfg) 0) as [HS0|HS0].
  { rewrite rolling_host_error in H by auto. discriminate H. }
  destruct text as [|t text].
  { rewrite rolling_host_error in H by auto. discriminate H. }
  assert (HS : 0 < seq_length cfg) by lia.
  assert (Hne : 0 < length (t :: text)) by (cbn; lia).
  split; [exact HS|]. split; [exact Hne|].
  destruct (rolling_windows_built cfg tok (t :: text) HS Hne)
    as (windows & Hw & Hlen & Hpos & _).
  assert (Hunfold : loglikelihood_rolling B cfg tok (t :: text) s
                    = rolling_loop B windows (Np.Scalar (fzero B))
                        (Np.Scalar true) s).
  { unfold loglikelihood_rolling.
    rewrite rolling_arrays_rows by discriminate. cbn [host].
    unfold bind at 1. unfold ret at 1. rewrite Hw. cbn [host].
    unfold bind at 1. unfold ret at 1. reflexivity. }
  rewrite Hunfold in *.
  destruct (rolling_loop B windows (Np.Scalar (fzero B)) (Np.Scalar true) s)
    as [o s'] eqn:E.
  cbn [fst snd] in *. subst o.
  destruct (rolling_loop_returns B windows _ _ _ _ _ E)
    as (Hc & Hr & _ & Harr).
  rewrite Hlen in Hc, Hr. repeat split; auto.
  apply Harr. destruct windows; [cbn in Hpos; lia|discriminate].
Qed.

Lemma rolling_returns_witness :
  0 < seq_length (Stub.flags 0 4 false)
  /\ 0 < length ["abcdef"%string]
  /\ length (calls (snd (loglikelihood_rolling (Stub.backend [] 1 97%Z)
                           (Stub.flags 0 4 false) Stub.char_tokenizer
                           ["abcdef"%string]
                           (Stub.start (Stub.backend [] 1 97%Z) 0))))
     = length (calls (Stub.start (Stub.backend [] 1 97%Z) 0))
       + (rolling_total (Stub.flags 0 4 false) Stub.char_tokenizer
            ["abcdef"%string]
          + seq_length (Stub.flags 0 4 false) - 1)
         / seq_length (Stub.flags 0 4 false)
  /\ sharded_rng (snd (loglikelihood_rolling (Stub.backend [] 1 97%Z)
                         (Stub.flags 0 4 false) Stub.char_tokenizer
                         ["abcdef"%string]
                         (Stub.start (Stub.backend [] 1 97%Z) 0)))
     = Nat.iter
         ((rolling_total (Stub.flags 0 4 false) Stub.char_tokenizer
             ["abcdef"%string]
           + seq_length (Stub.flags 0 4 false) - 1)
          / seq_length (Stub.flags 0 4 false))
         (score_advance (Stub.backend [] 1 97%Z))
         (sharded_rng (Stub.start (Stub.backend [] 1 97%Z) 0))
  /\ exists ll g,
       (Np.Arr [(-5)%Z], Np.Arr [false]) = (Np.Arr ll, Np.Arr g).
Proof.
  exact (rolling_returns (Stub.backend [] 1 97%Z) (Stub.flags 0 4 false)
           Stub.char_tokenizer ["abcdef"%string]
           (Stub.start (Stub.backend [] 1 97%Z) 0)
           (Np.Arr [(-5)%Z], Np.Arr [false])
           ltac:(vm_compute; reflexivity)).
Defined.

(** ** The prompt batch of [greedy_until] *)

(** X12. The batch of one iteration of [greedy_until] has one row.  For
    [input_length > 0] the row has exactly [input_length] columns: the
    last [input_length] tokens of the prompt, padded on the left with
    the pad token under a zero mask when the prompt is shorter.  For
    [input_length = 0] nothing is cut: [[:, -0:]] is the whole array, so
    the row is the whole prompt. *)
Theorem prefix_batch_contents :
  forall (cfg : Flags) (tok : Tokenizer) (pf : string),
    (0 < input_length cfg ->
     prefix_batch cfg tok pf
     = Some {| gen_input_tokens :=
                 [repeat (pad_token_id tok)
                    (input_length cfg - length (encode tok pf))
                  ++ skipn (length (encode tok pf) - input_length cfg)
                       (encode tok pf)];
               gen_attention_mask :=
                 [repeat 0%Z (input_length cfg - length (encode tok pf))
                  ++ repeat 1%Z
                       (Nat.min (input_length cfg)
                          (length (encode tok pf)))] |}
     /\ length (repeat (pad_token_id tok)
                  (input_length cfg - length (encode tok pf))
                ++ skipn (length (encode tok pf) - input_length cfg)
                     (encode tok pf))
        = input_length cfg)
    /\ (input_length cfg = 0 ->
        prefix_batch cfg tok pf
        = Some {| gen_input_tokens := [encode tok pf];
                  gen_attention_mask :=
                    [repeat 1%Z (length (encode tok pf))] |}).
Proof.
  intros cfg tok pf. split.
  - intros HI. split.
    + rewrite prefix_batch_rows by assumption.
      unfold padded_ids, padded_mask, pad_row, truncate_ids.
      rewrite !repeat_length, !length_skipn.
      replace (input_length cfg
               - (length (encode tok pf)
                  - (length (encode tok pf) - input_length cfg)))
        with (input_length cfg - length (encode tok pf)) by lia.
      replace (length (encode tok pf)
               - (length (encode tok pf) - input_length cfg))
        with (Nat.min (input_length cfg) (length (encode tok pf))) by lia.
      reflexivity.
    + rewrite length_app, repeat_length, length_skipn. lia.
  - intros HI. unfold prefix_batch, tokenizer_single.
    cbn [input_ids attention_mask Np.width]. rewrite HI.
    cbn [Nat.ltb Nat.leb].
    destruct (encode tok pf) as [|x ids] eqn:E; [reflexivity|].
    cbn [length Nat.ltb Nat.leb Np.slice_cols map].
    change (- Z.of_nat 0)%Z with (- Z.of_nat 0)%Z.
    rewrite !slice_last_zero. reflexivity.
Qed.

Lemma prefix_batch_contents_witness :
  prefix_batch (Stub.flags 3 8 false) Stub.char_tokenizer "abcde"%string
  = Some {| gen_input_tokens := [[99; 100; 101]%Z];
            gen_attention_mask := [[1; 1; 1]%Z] |}.
Proof.
  exact (proj1 (proj1 (prefix_batch_contents (Stub.flags 3 8 false)
                         Stub.char_tokenizer "abcde"%string)
                  ltac:(cbn; lia))).
Defined.

(** ** The choice of the checkpoint loader *)

Lemma select_checkpoint_flag (c : Checkpoint) :
  select_checkpoint (checkpoint_flag c) = Some c.
Proof.
  destruct c as [p|p|p]; destruct p; reflexivity.
Qed.

(** X13. [main] accepts a [load_checkpoint] flag exactly when it reads
    "trainstate_params::PATH", "flax_params::PATH" or
    "huggingface::PATH", and then hands PATH - everything after the
    first "::", further "::" included - to the loader of that name.
    Every other value, the default "" among them, raises before any
    loader runs. *)
Theorem select_checkpoint_round_trip :
  forall (load_checkpoint : string) (c : Checkpoint),
    select_checkpoint load_checkpoint = Some c
    <-> load_checkpoint = checkpoint_flag c.
Proof.
  intros s c. split.
  - unfold select_checkpoint, split_once.
    destruct (Py.find "::" s) as [k|] eqn:Ef; [|discriminate].
    pose proof (find_split _ _ _ Ef) as Hs.
    destruct (String.eqb_spec (substring 0 k s) "trainstate_params")
      as [E1|_].
    { intros [= <-]. rewrite Hs at 1. now rewrite E1. }
    destruct (String.eqb_spec (substring 0 k s) "flax_params") as [E2|_].
    { intros [= <-]. rewrite Hs at 1. now rewrite E2. }
    destruct (String.eqb_spec (substring 0 k s) "huggingface") as [E3|_].
    { intros [= <-]. rewrite Hs at 1. now rewrite E3. }
    discriminate.
  - intros ->. apply select_checkpoint_flag.
Qed.

(** ** How [loglikelihood_rolling] combines its windows *)

Lemma nth_map2 {A C D : Type} (f : A -> C -> D) (a : list A) (b : list C)
  (j : nat) (da : A) (db : C) (d : D) :
  j < length a -> length a = length b ->
  nth j (Np.map2 f a b) d = f (nth j a da) (nth j b db).
Proof.
  revert b j. induction a as [|x a IH]; intros [|y b] j Hj Hl;
    cbn in *; try lia.
  destruct j as [|j]; [reflexivity|]. apply IH; lia.
Qed.

Lemma nth_map_lt {A C : Type} (f : A -> C) (l : list A) (j : nat) (d : A)
  (d' : C) :
  j < length l -> nth j (map f l) d' = f (nth j l d).
Proof.
  revert j. induction l as [|x l IH]; intros j Hj; cbn in *; [lia|].
  destruct j as [|j]; [reflexivity|]. apply IH. lia.
Qed.

Lemma broadcast2_same_length {A : Type} (inplace : bool) (f : A -> A -> A)
  (l r : list A) :
  length l = length r -> Np.broadcast2 inplace f l r = Some (Np.map2 f l r).
Proof.
  intros H. unfold Np.broadcast2. now rewrite H, Nat.eqb_refl.
Qed.

Section RollingAggregation.

Variable B : Backend.

Lemma rolling_loop_arrays (n : nat) (windows : list ScoreBatch) :
  forall (results : list (list (F B) * list bool)) (tl : list (F B))
         (tg : list bool) (s : Session B),
    window_results B (sharded_rng s) windows = Some results ->
    Forall (fun res => length (fst res) = n /\ length (snd res) = n)
      results ->
    length tl = n ->
    length tg = n ->
    exists ll g s',
      rolling_loop B windows (Np.Arr tl) (Np.Arr tg) s
      = (Ret (Np.Arr ll, Np.Arr g), s')
      /\ length ll = n
      /\ length g = n
      /\ forall j, j < n ->
           nth j g true
           = (forallb (fun res => nth j (snd res) true) results
              && nth j tg true)%bool
           /\ nth j ll (fzero B)
              = fold_left (fadd B)
                  (map (fun res => nth j (fst res) (fzero B)) results)
                  (nth j tl (fzero B)).
Proof.
  induction windows as [|w windows IH]; intros results tl tg s Hres Hall Htl Htg.
  - injection Hres as <-. exists tl, tg, s. repeat split; auto.
  - cbn [window_results] in Hres.
    destruct (forward_loglikelihood B (sharded_rng s) w)
      as [[[l1 g1] r']|] eqn:Ef; [|discriminate Hres].
    destruct (window_results B r' windows) as [res'|] eqn:Er;
      [|discriminate Hres].
    injection Hres as <-.
    inversion Hall as [|x l [Hl1 Hg1] Hall']; subst. cbn [fst snd] in *.
    destruct (IH res' (Np.map2 (fadd B) tl l1) (Np.map2 andb g1 tg)
                (after_call FwdLoglikelihood (inl w) (Some r') s))
      as (ll & g & s' & Hrun & Hll & Hg & Hnth); auto.
    { rewrite map2_length; congruence. }
    { rewrite map2_length; congruence. }
    exists ll, g, s'. split; [|split; [exact Hll|split; [exact Hg|]]].
    + cbn [rolling_loop]. unfold bind at 1. rewrite invoke_unfold, Ef.
      cbn [fst snd Np.iadd Np.logical_and].
      rewrite !broadcast2_same_length by congruence.
      cbn [host]. unfold bind, ret in *. exact Hrun.
    + intros j Hj. destruct (Hnth j Hj) as (H1 & H2).
      rewrite H1, H2.
      rewrite (nth_map2 andb g1 tg j true true) by congruence.
      rewrite (nth_map2 (fadd B) tl l1 j (fzero B) (fzero B)) by congruence.
      cbn [forallb map fold_left fst snd]. split; [|reflexivity].
      destruct (nth j g1 true), (nth j tg true),
        (forallb (fun res => nth j (snd res) true) res'); reflexivity.
Qed.

End RollingAggregation.

(** X14. When every window is scored, each call returning one value per
    text, [loglikelihood_rolling] reports for every text the sum of the
    windows' loglikelihoods, added from left to right starting from 0.0,
    and a greedy flag that is the conjunction of the windows' greedy
    flags: one window that is not greedy makes the text not greedy. *)
Theorem rolling_aggregates :
  forall (B : Backend) (n : nat) (windows : list ScoreBatch)
         (results : list (list (F B) * list bool)) (s : Session B),
    windows <> [] ->
    window_results B (sharded_rng s) windows = Some results ->
    Forall (fun res => length (fst res) = n /\ length (snd res) = n)
      results ->
    exists ll g s',
      rolling_loop B windows (Np.Scalar (fzero B)) (Np.Scalar true) s
      = (Ret (Np.Arr ll, Np.Arr g), s')
      /\ length ll = n
      /\ length g = n
      /\ forall j, j < n ->
           nth j g true
           = forallb (fun res => nth j (snd res) true) results
           /\ nth j ll (fzero B)
              = fold_left (fadd B)
                  (map (fun res => nth j (fst res) (fzero B)) results)
                  (fzero B).
Proof.
  intros B n windows results s Hne Hres Hall.
  destruct windows as [|w windows]; [contradiction|].
  cbn [window_results] in Hres.
  destruct (forward_loglikelihood B (sharded_rng s) w)
    as [[[l1 g1] r']|] eqn:Ef; [|discriminate Hres].
  destruct (window_results B r' windows) as [res'|] eqn:Er;
    [|discriminate Hres].
  injection Hres as <-.
  inversion Hall as [|x l [Hl1 Hg1] Hall']; subst. cbn [fst snd] in *.
  destruct (rolling_loop_arrays B (length l1) windows res'
              (map (fadd B (fzero B)) l1) (map (fun v => andb v true) g1)
              (after_call FwdLoglikelihood (inl w) (Some r') s))
    as (ll & g & s' & Hrun & Hll & Hg & Hnth); auto.
  { now rewrite length_map. }
  { now rewrite length_map. }
  exists ll, g, s'. split; [|split; [exact Hll|split; [exact Hg|]]].
  - cbn [rolling_loop]. unfold bind at 1. rewrite invoke_unfold, Ef.
    cbn [fst snd Np.iadd Np.logical_and host].
    unfold bind, ret in *. exact Hrun.
  - intros j Hj. destruct (Hnth j Hj) as (H1 & H2). rewrite H1, H2.
    rewrite (nth_map_lt (fun v => andb v true) g1 j true true) by congruence.
    rewrite (nth_map_lt (fadd B (fzero B)) l1 j (fzero B) (fzero B))
      by assumption.
    cbn [forallb map fold_left fst snd]. split; [|reflexivity].
    destruct (nth j g1 true),
      (forallb (fun res => nth j (snd res) true) res'); reflexivity.
Qed.

Lemma rolling_aggregates_witness :
  exists ll g s',
    rolling_loop (Stub.backend [] 1 97%Z)
      [{| input_tokens := [[2; 97]%Z]; output_tokens := [[97; 97]%Z];
          input_mask := [[1; 1]%Z]; output_mask := [[1; 1]%Z] |};
       {| input_tokens := [[97; 98]%Z]; output_tokens := [[98; 1]%Z];
          input_mask := [[1; 0]%Z]; output_mask := [[1; 0]%Z] |}]
      (Np.Scalar (fzero (Stub.backend [] 1 97%Z))) (Np.Scalar true)
      (Stub.start (Stub.backend [] 1 97%Z) 0)
    = (Ret (Np.Arr ll, Np.Arr g), s')
    /\ length ll = 1
    /\ length g = 1
    /\ forall j, j < 1 ->
         nth j g true
         = forallb (fun res => nth j (snd res) true)
             [([0%Z], [true]); ([(-1)%Z], [false])]
         /\ nth j ll (fzero (Stub.backend [] 1 97%Z))
            = fold_left (fadd (Stub.backend [] 1 97%Z))
                (map (fun res => nth j (fst res)
                                   (fzero (Stub.backend [] 1 97%Z)))
                   [([0%Z], [true]); ([(-1)%Z], [false])])
                (fzero (Stub.backend [] 1 97%Z)).
Proof.
  apply (rolling_aggregates (Stub.backend [] 1 97%Z) 1).
  - discriminate.
  - vm_compute. reflexivity.
  - repeat constructor.
Defined.

(* ------------------------------------------------------------------ *)
(** * The window loop, the threading of the state, failed requests *)

(** ** The invocations of the window loop *)

Section WindowLoop.

Variable B : Backend.
Variable cfg : Flags.
Variable tok : Tokenizer.

Lemma new_calls_app (s s' : Session B) (cs : list (Call B)) :
  calls s' = calls s ++ cs -> new_calls B s s' = cs.
Proof.
  intros H. unfold new_calls.
  now rewrite H, skipn_app, skipn_all, Nat.sub_diag.
Qed.

(** With the arrays and the windows built, the handler is its loop. *)
Lemma loglikelihood_rolling_loop (text : list string)
  (windows : list ScoreBatch) (s : Session B) :
  text <> [] ->
  rolling_windows cfg (spec_rolling_arrays cfg tok text) = Some windows ->
  loglikelihood_rolling B cfg tok text s
  = rolling_loop B windows (Np.Scalar (fzero B)) (Np.Scalar true) s.
Proof.
  intros Hne Hw. unfold loglikelihood_rolling.
  rewrite rolling_arrays_rows by assumption. cbn [host].
  unfold bind at 1. unfold ret at 1. rewrite Hw. cbn [host].
  unfold bind at 1. unfold ret at 1. reflexivity.
Qed.

(** One turn of the window loop. *)
Lemma rolling_loop_step (w : ScoreBatch) (windows : list ScoreBatch)
  (tl : Np.Val (F B)) (tg : Np.Val bool) (s : Session B) :
  rolling_loop B (w :: windows) tl tg s
  = match forward_loglikelihood B (sharded_rng s) w with
    | Some (r, rng') =>
        let s1 := after_call FwdLoglikelihood (inl w) (Some rng') s in
        match Np.iadd (fadd B) tl (fst r) with
        | Some tl' =>
            match Np.logical_and (snd r) tg with
            | Some tg' => rolling_loop B windows tl' tg' s1
            | None => (Raise HostError, s1)
            end
        | None => (Raise HostError, s1)
        end
    | None =>
        (Raise ExecutorError, after_call FwdLoglikelihood (inl w) None s)
    end.
Proof.
  cbn [rolling_loop]. unfold bind at 1. rewrite invoke_unfold.
  destruct (forward_loglikelihood B (sharded_rng s) w) as [[r rng']|];
    [|reflexivity].
  cbv zeta. unfold bind at 1.
  destruct (Np.iadd (fadd B) tl (fst r)) as [tl'|]; [|reflexivity].
  cbn [host]. unfold ret at 1. unfold bind at 1.
  destruct (Np.logical_and (snd r) tg) as [tg'|]; reflexivity.
Qed.

(** The loop invokes [forward_loglikelihood] on the windows in order,
    one invocation per window, until the windows are used up or an
    exception ends it. *)
Lemma rolling_loop_calls (windows : list ScoreBatch) :
  forall (tl : Np.Val (F B)) (tg : Np.Val bool) (s : Session B),
    exists k cs,
      calls (snd (rolling_loop B windows tl tg s)) = calls s ++ cs
      /\ k <= length windows
      /\ map call_batch cs = map inl (firstn k windows)
      /\ Forall (fun c => call_fn c = FwdLoglikelihood) cs
      /\ (forall v, fst (rolling_loop B windows tl tg s) = Ret v ->
          k = length windows)
      /\ (k < length windows ->
          exists e, fst (rolling_loop B windows tl tg s) = Raise e).
Proof.
  induction windows as [|w windows IH]; intros tl tg s.
  - exists 0, []. cbn. rewrite app_nil_r. repeat split; auto. lia.
  - rewrite rolling_loop_step.
    assert (Hone : forall (e : PyError) (o : option (RNG B)),
      exists k cs,
        calls (snd (@Raise (Np.Val (F B) * Np.Val bool) e,
                    after_call FwdLoglikelihood (inl w) o s))
        = calls s ++ cs
        /\ k <= length (w :: windows)
        /\ map call_batch cs = map inl (firstn k (w :: windows))
        /\ Forall (fun c => call_fn c = FwdLoglikelihood) cs
        /\ (forall v,
              fst (@Raise (Np.Val (F B) * Np.Val bool) e,
                   after_call FwdLoglikelihood (inl w) o s) = Ret v ->
              k = length (w :: windows))
        /\ (k < length (w :: windows) ->
            exists e',
              fst (@Raise (Np.Val (F B) * Np.Val bool) e,
                   after_call FwdLoglikelihood (inl w) o s) = Raise e')).
    { intros e o.
      exists 1, [{| call_fn := FwdLoglikelihood; call_rng := sharded_rng s;
                    call_batch := inl w; call_ret := o |}].
      cbn [length map firstn after_call calls fst snd].
      split; [reflexivity|]. split; [lia|]. split; [reflexivity|].
      split; [repeat constructor|]. split; [discriminate|eauto]. }
    destruct (forward_loglikelihood B (sharded_rng s) w)
      as [[r rng']|]; [|apply Hone].
    cbv zeta.
    destruct (Np.iadd (fadd B) tl (fst r)) as [tl'|]; [|apply Hone].
    destruct (Np.logical_and (snd r) tg) as [tg'|]; [|apply Hone].
    destruct (IH tl' tg' (after_call FwdLoglikelihood (inl w) (Some rng') s))
      as (k & cs & Hc & Hk & Hb & Hf & Hret & Hraise).
    exists (S k), ({| call_fn := FwdLoglikelihood;
                      call_rng := sharded_rng s;
                      call_batch := inl w;
                      call_ret := Some rng' |} :: cs).
    split; [|split; [|split; [|split; [|split]]]].
    + rewrite Hc. cbn [after_call calls]. now rewrite <- app_assoc.
    + cbn [length]. lia.
    + cbn [map firstn]. now rewrite Hb.
    + constructor; [reflexivity|exact Hf].
    + intros v Hv. cbn [length]. f_equal. eapply Hret; eauto.
    + intros Hlt. apply Hraise. cbn [length] in Hlt. lia.
Qed.

(** When every window is scored, each call returning one value per
    text, the loop returns. *)
Lemma rolling_loop_completes (n : nat) (windows : list ScoreBatch)
  (results : list (list (F B) * list bool)) (s : Session B) :
  window_results B (sharded_rng s) windows = Some results ->
  Forall (fun res => length (fst res) = n /\ length (snd res) = n) results ->
  exists v,
    fst (rolling_loop B windows (Np.Scalar (fzero B)) (Np.Scalar true) s)
    = Ret v.
Proof.
  intros Hres Hall. destruct windows as [|w windows]; [cbn; eauto|].
  cbn [window_results] in Hres.
  destruct (forward_loglikelihood B (sharded_rng s) w)
    as [[[l1 g1] r']|] eqn:Ef; [|discriminate Hres].
  destruct (window_results B r' windows) as [res'|] eqn:Er;
    [|discriminate Hres].
  injection Hres as <-.
  inversion Hall as [|x l [Hl1 Hg1] Hall']; subst. cbn [fst snd] in *.
  destruct (rolling_loop_arrays B (length l1) windows res'
              (map (fadd B (fzero B)) l1) (map (fun v => andb v true) g1)
              (after_call FwdLoglikelihood (inl w) (Some r') s))
    as (ll & g & s' & Hrun & _); auto.
  { now rewrite length_map. }
  { now rewrite length_map. }
  exists (Np.Arr ll, Np.Arr g).
  cbn [rolling_loop]. unfold bind at 1. rewrite invoke_unfold, Ef.
  cbn [fst snd Np.iadd Np.logical_and host].
  unfold bind, ret in *. now rewrite Hrun.
Qed.

End WindowLoop.

(** C3. [loglikelihood_rolling] visits the window offsets 0,
    [seq_length], 2 * [seq_length], ... below [total_seq_length], the
    number of columns of the (possibly padded) token arrays.  A window
    with [i + seq_length <= total_seq_length] is the slice
    [i, i + seq_length) of every array, the attention-mask slice being
    both the input mask and the output mask.  The window taken when
    [i + seq_length > total_seq_length] holds the last [seq_length]
    columns, and its output mask is zero on all but its last
    [total_seq_length - i] positions.  The handler is the loop over
    these windows: it invokes [forward_loglikelihood] on them in order,
    once per window, never on anything else, and stops early only with
    an exception; when every invocation returns one value per text, it
    runs over all of them and returns.  For a text of 40 tokens and
    [seq_length = 16] there are exactly three windows, at offsets 0 and
    16 and a right-aligned last one whose output mask is zero on its
    first 8 positions; the loop never runs more than three times, and
    it runs exactly three times, on these windows in this order,
    whenever the handler returns, which it does when the executor
    returns one value for each of them. *)
Theorem C3_sliding_windows :
  (forall (B : Backend) (cfg : Flags) (tok : Tokenizer) (text : list string)
          (s : Session B),
      0 < seq_length cfg ->
      0 < length text ->
      exists offsets windows,
        rolling_arrays cfg tok text = Some (spec_rolling_arrays cfg tok text)
        /\ Np.width (roll_output_tokens (spec_rolling_arrays cfg tok text))
           = rolling_total cfg tok text
        /\ rolling_offsets cfg (spec_rolling_arrays cfg tok text)
           = Some offsets
        /\ offsets
           = map (fun k => k * seq_length cfg)
               (seq 0 ((rolling_total cfg tok text + seq_length cfg - 1)
                       / seq_length cfg))
        /\ rolling_windows cfg (spec_rolling_arrays cfg tok text)
           = Some windows
        /\ windows
           = map (window_batch cfg (spec_rolling_arrays cfg tok text)
                    (rolling_total cfg tok text)) offsets
        /\ (forall i, In i offsets ->
             i < rolling_total cfg tok text
             /\ (i + seq_length cfg <= rolling_total cfg tok text ->
                 window_batch cfg (spec_rolling_arrays cfg tok text)
                   (rolling_total cfg tok text) i
                 = spec_normal_window cfg (spec_rolling_arrays cfg tok text) i)
             /\ (rolling_total cfg tok text < i + seq_length cfg ->
                 window_batch cfg (spec_rolling_arrays cfg tok text)
                   (rolling_total cfg tok text) i
                 = spec_last_window cfg (spec_rolling_arrays cfg tok text)
                     (rolling_total cfg tok text) i))
        /\ loglikelihood_rolling B cfg tok text s
           = rolling_loop B windows (Np.Scalar (fzero B)) (Np.Scalar true) s
        /\ Forall (fun c => call_fn c = FwdLoglikelihood)
             (new_calls B s (snd (loglikelihood_rolling B cfg tok text s)))
        /\ (exists k,
              k <= length windows
              /\ map call_batch
                   (new_calls B s
                      (snd (loglikelihood_rolling B cfg tok text s)))
                 = map inl (firstn k windows)
              /\ (forall v,
                    fst (loglikelihood_rolling B cfg tok text s) = Ret v ->
                    k = length windows)
              /\ (k < length windows ->
                  exists e,
                    fst (loglikelihood_rolling B cfg tok text s) = Raise e))
        /\ (forall n results,
              window_results B (sharded_rng s) windows = Some results ->
              Forall (fun res => length (fst res) = n
                                 /\ length (snd res) = n) results ->
              exists v,
                fst (loglikelihood_rolling B cfg tok text s) = Ret v
                /\ map call_batch
                     (new_calls B s
                        (snd (loglikelihood_rolling B cfg tok text s)))
                   = map inl windows))
  /\
  (forall (B : Backend) (cfg : Flags) (tok : Tokenizer) (t : string)
          (s : Session B),
      seq_length cfg = 16 ->
      length (encode tok t) = 40 ->
      rolling_arrays cfg tok [t] = Some (spec_rolling_arrays cfg tok [t])
      /\ rolling_offsets cfg (spec_rolling_arrays cfg tok [t])
         = Some [0; 16; 32]
      /\ rolling_windows cfg (spec_rolling_arrays cfg tok [t])
         = Some [spec_normal_window cfg (spec_rolling_arrays cfg tok [t]) 0;
                 spec_normal_window cfg (spec_rolling_arrays cfg tok [t]) 16;
                 spec_last_window cfg (spec_rolling_arrays cfg tok [t]) 40 32]
      /\ output_tokens
           (spec_last_window cfg (spec_rolling_arrays cfg tok [t]) 40 32)
         = [skipn 24 (encode tok t)]
      /\ output_mask
           (spec_last_window cfg (spec_rolling_arrays cfg tok [t]) 40 32)
         = [repeat 0%Z 8 ++ repeat 1%Z 8]
      /\ length (new_calls B s (snd (loglikelihood_rolling B cfg tok [t] s)))
         <= 3
      /\ (forall v,
            fst (loglikelihood_rolling B cfg tok [t] s) = Ret v ->
            map call_batch
              (new_calls B s (snd (loglikelihood_rolling B cfg tok [t] s)))
            = [inl (spec_normal_window cfg
                      (spec_rolling_arrays cfg tok [t]) 0);
               inl (spec_normal_window cfg
                      (spec_rolling_arrays cfg tok [t]) 16);
               inl (spec_last_window cfg
                      (spec_rolling_arrays cfg tok [t]) 40 32)]
            /\ map call_fn
                 (new_calls B s
                    (snd (loglikelihood_rolling B cfg tok [t] s)))
               = [FwdLoglikelihood; FwdLoglikelihood; FwdLoglikelihood])
      /\ (forall results,
            window_results B (sharded_rng s)
              [spec_normal_window cfg (spec_rolling_arrays cfg tok [t]) 0;
               spec_normal_window cfg (spec_rolling_arrays cfg tok [t]) 16;
               spec_last_window cfg (spec_rolling_arrays cfg tok [t]) 40 32]
            = Some results ->
            Forall (fun res => length (fst res) = 1
                               /\ length (snd res) = 1) results ->
            exists v,
              fst (loglikelihood_rolling B cfg tok [t] s) = Ret v
              /\ length
                   (new_calls B s
                      (snd (loglikelihood_rolling B cfg tok [t] s)))
                 = 3)).
Proof.
  assert (Handler : forall (B : Backend) cfg tok text (s : Session B) windows,
    text <> [] ->
    rolling_windows cfg (spec_rolling_arrays cfg tok text) = Some windows ->
    loglikelihood_rolling B cfg tok text s
    = rolling_loop B windows (Np.Scalar (fzero B)) (Np.Scalar true) s
    /\ Forall (fun c => call_fn c = FwdLoglikelihood)
         (new_calls B s (snd (loglikelihood_rolling B cfg tok text s)))
    /\ (exists k,
          k <= length windows
          /\ map call_batch
               (new_calls B s (snd (loglikelihood_rolling B cfg tok text s)))
             = map inl (firstn k windows)
          /\ (forall v,
                fst (loglikelihood_rolling B cfg tok text s) = Ret v ->
                k = length windows)
          /\ (k < length windows ->
              exists e,
                fst (loglikelihood_rolling B cfg tok text s) = Raise e))
    /\ (forall n results,
          window_results B (sharded_rng s) windows = Some results ->
          Forall (fun res => length (fst res) = n
                             /\ length (snd res) = n) results ->
          exists v,
            fst (loglikelihood_rolling B cfg tok text s) = Ret v
            /\ map call_batch
                 (new_calls B s
                    (snd (loglikelihood_rolling B cfg tok text s)))
               = map inl windows)).
  { intros B cfg tok text s windows Hne Hw.
    rewrite (loglikelihood_rolling_loop B cfg tok text windows s Hne Hw).
    destruct (rolling_loop_calls B windows (Np.Scalar (fzero B))
                (Np.Scalar true) s)
      as (k & cs & Hc & Hk & Hb & Hf & Hret & Hraise).
    rewrite (new_calls_app B _ _ _ Hc).
    split; [reflexivity|]. split; [exact Hf|]. split.
    - exists k. auto.
    - intros n results Hres Hall.
      destruct (rolling_loop_completes B n windows results s Hres Hall)
        as (v & Hv).
      exists v. split; [exact Hv|].
      rewrite Hb, (Hret v Hv). now rewrite firstn_all. }
  split.
  - intros B cfg tok text s HS Hne.
    destruct (proj1 sliding_windows_built cfg tok text HS Hne)
      as (offsets & Ha & Hw & Hr & Ho & Hwin & Hi).
    assert (Hne' : text <> [])
      by (destruct text; [cbn in Hne; lia|discriminate]).
    destruct (Handler B cfg tok text s _ Hne' Hwin) as (H1 & H2 & H3 & H4).
    exists offsets, (map (window_batch cfg (spec_rolling_arrays cfg tok text)
                            (rolling_total cfg tok text)) offsets).
    split; [exact Ha|]. split; [exact Hw|]. split; [exact Hr|].
    split; [exact Ho|]. split; [exact Hwin|]. split; [reflexivity|].
    split; [exact Hi|]. split; [exact H1|]. split; [exact H2|].
    split; [exact H3|exact H4].
  - intros B cfg tok t s HS Ht.
    destruct (proj2 sliding_windows_built cfg tok t HS Ht)
      as (Ha & Hr & Hwin & Hot & Hom).
    assert (Hne' : [t] <> []) by discriminate.
    destruct (Handler B cfg tok [t] s _ Hne' Hwin)
      as (H1 & H2 & (k & Hk & Hb & Hret & Hraise) & H4).
    split; [exact Ha|]. split; [exact Hr|]. split; [exact Hwin|].
    split; [exact Hot|]. split; [exact Hom|].
    assert (Hlen : length (new_calls B s
                             (snd (loglikelihood_rolling B cfg tok [t] s)))
                   = k).
    { rewrite <- (length_map call_batch), Hb, length_map, length_firstn.
      cbn [length] in *. lia. }
    assert (Hfull : k = 3 ->
      map call_batch
        (new_calls B s (snd (loglikelihood_rolling B cfg tok [t] s)))
      = [inl (spec_normal_window cfg (spec_rolling_arrays cfg tok [t]) 0);
         inl (spec_normal_window cfg (spec_rolling_arrays cfg tok [t]) 16);
         inl (spec_last_window cfg (spec_rolling_arrays cfg tok [t]) 40 32)]
      /\ map call_fn
           (new_calls B s (snd (loglikelihood_rolling B cfg tok [t] s)))
         = [FwdLoglikelihood; FwdLoglikelihood; FwdLoglikelihood]).
    { intros ->. split; [exact Hb|].
      destruct (new_calls B s (snd (loglikelihood_rolling B cfg tok [t] s)))
        as [|c0 [|c1 [|c2 [|c3 l]]]]; try discriminate Hlen.
      inversion H2 as [|? ? E0 H2']; subst.
      inversion H2' as [|? ? E1 H2'']; subst.
      inversion H2'' as [|? ? E2 _]; subst.
      cbn [map]. now rewrite E0, E1, E2. }
    split; [rewrite Hlen; exact Hk|]. split.
    + intros v Hv. apply Hfull. exact (Hret v Hv).
    + intros results Hres Hall.
      destruct (H4 1 results Hres Hall) as (v & Hv & _).
      exists v. split; [exact Hv|]. rewrite Hlen. exact (Hret v Hv).
Qed.

Lemma C3_sliding_windows_witness :
  rolling_offsets (Stub.flags 0 16 false)
    (spec_rolling_arrays (Stub.flags 0 16 false) Stub.char_tokenizer
       ["0123456789012345678901234567890123456789"%string])
  = Some [0; 16; 32]
  /\ output_mask
       (spec_last_window (Stub.flags 0 16 false)
          (spec_rolling_arrays (Stub.flags 0 16 false) Stub.char_tokenizer
             ["0123456789012345678901234567890123456789"%string]) 40 32)
     = [repeat 0%Z 8 ++ repeat 1%Z 8]
  /\ exists v,
       fst (loglikelihood_rolling (Stub.backend [] 1 97%Z)
              (Stub.flags 0 16 false) Stub.char_tokenizer
              ["0123456789012345678901234567890123456789"%string]
              (Stub.start (Stub.backend [] 1 97%Z) 0))
       = Ret v
       /\ length
            (new_calls (Stub.backend [] 1 97%Z)
               (Stub.start (Stub.backend [] 1 97%Z) 0)
               (snd (loglikelihood_rolling (Stub.backend [] 1 97%Z)
                       (Stub.flags 0 16 false) Stub.char_tokenizer
                       ["0123456789012345678901234567890123456789"%string]
                       (Stub.start (Stub.backend [] 1 97%Z) 0))))
          = 3.
Proof.
  pose proof (proj2 C3_sliding_windows (Stub.backend [] 1 97%Z)
                (Stub.flags 0 16 false) Stub.char_tokenizer
                "0123456789012345678901234567890123456789"%string
                (Stub.start (Stub.backend [] 1 97%Z) 0)
                eq_refl eq_refl) as H.
  split; [exact (proj1 (proj2 H))|].
  split; [exact (proj1 (proj2 (proj2 (proj2 (proj2 H)))))|].
  apply (proj2 (proj2 (proj2 (proj2 (proj2 (proj2 (proj2 H))))))
           [([(-16)%Z], [false]); ([(-16)%Z], [false]); ([(-8)%Z], [false])]).
  - vm_compute. reflexivity.
  - repeat constructor.
Defined.

(** ** The states passed to the executors *)

Section StoredStates.

Variable B : Backend.
Variable cfg : Flags.

Lemma stored_states_head (cs : list (Call B)) :
  forall r, In r (stored_states B r cs).
Proof.
  induction cs as [|c cs IH]; intros r; cbn [stored_states].
  - now left.
  - destruct (call_ret c); [now left|apply IH].
Qed.

(** Every invocation of a threaded history is passed a stored state. *)
Lemma threaded_rng_stored (cs : list (Call B)) :
  forall r r_end,
    threaded B cfg r cs r_end ->
    forall c, In c cs -> In (call_rng c) (stored_states B r cs).
Proof.
  induction cs as [|c cs IH]; intros r r_end H c' Hin; [contradiction|].
  destruct H as (Hr & Hret & H). cbn [stored_states].
  destruct Hin as [<-|Hin].
  - rewrite Hr. destruct (call_ret c); [now left|apply stored_states_head].
  - destruct (call_ret c) as [r'|]; [right|]; eapply IH; eauto.
Qed.

(** Along a threaded history over which no state is stored twice, the
    state passed to an invocation that returned is never passed again. *)
Lemma threaded_stored_no_reuse (cs : list (Call B)) :
  forall r r_end,
    threaded B cfg r cs r_end ->
    no_state_stored_twice B r cs ->
    no_reuse_after_return B cs.
Proof.
  unfold no_state_stored_twice.
  induction cs as [|c cs IH]; intros r r_end H Hnd i j ci cj Hij Hi Hj Hret.
  - destruct i; discriminate.
  - destruct H as (Hr & Hex & H). cbn [stored_states] in Hnd.
    destruct j as [|j]; [lia|]. cbn [nth_error] in Hj.
    destruct i as [|i].
    + injection Hi as <-. unfold returned in Hret.
      destruct (call_ret c) as [r'|] eqn:Ec; [|contradiction].
      apply NoDup_cons_iff in Hnd. destruct Hnd as (Hnotin & Hnd').
      intros Heq. apply Hnotin. rewrite <- Hr, Heq.
      eapply threaded_rng_stored; eauto. eapply nth_error_In; eauto.
    + cbn [nth_error] in Hi.
      destruct (call_ret c) as [r'|].
      * apply NoDup_cons_iff in Hnd. destruct Hnd as (_ & Hnd').
        apply (IH _ _ H Hnd' i j); auto. lia.
      * apply (IH _ _ H Hnd i j); auto. lia.
Qed.

(** An invocation is passed what the one before it returned, or what
    the one before it was passed if that one raised. *)
Lemma threaded_next (cs : list (Call B)) :
  forall r r_end,
    threaded B cfg r cs r_end ->
    forall i ci cj,
      nth_error cs i = Some ci ->
      nth_error cs (S i) = Some cj ->
      call_rng cj = match call_ret ci with
                    | Some r' => r'
                    | None => call_rng ci
                    end.
Proof.
  induction cs as [|c cs IH]; intros r r_end H i ci cj Hi Hj.
  - destruct i; discriminate.
  - destruct H as (Hr & Hex & H). destruct i as [|i].
    + injection Hi as <-. cbn [nth_error] in Hj.
      destruct cs as [|c' cs]; [discriminate|]. injection Hj as <-.
      destruct H as (Hr' & _). rewrite Hr', Hr. reflexivity.
    + cbn [nth_error] in Hi, Hj. eapply (IH _ _ H); eauto.
Qed.

End StoredStates.

(** C6, amended.  In every serialized run of the four operations, every
    executor invocation is passed the state stored in the session at
    that moment; when it returns, the stored state is replaced, once, by
    the state it returned, and when it raises the stored state stays as
    it was: one advance per returning invocation, a sliding window
    included.  So an invocation is passed what the invocation before it
    returned, or, if that one raised, the very state that one was
    passed.  Provided that over the run no state is stored twice (the
    splits never lead back to a state stored earlier in the run), an
    invocation that returned and any later invocation are passed
    different states. *)
Theorem C6_rng_threading :
  forall (B : Backend) (cfg : Flags) (tok : Tokenizer) (fuel : nat)
         (reqs : list Request) (s : Session B),
    calls (snd (serve_all B cfg tok fuel reqs s))
    = calls s ++ new_calls B s (snd (serve_all B cfg tok fuel reqs s))
    /\ threaded B cfg (sharded_rng s)
         (new_calls B s (snd (serve_all B cfg tok fuel reqs s)))
         (sharded_rng (snd (serve_all B cfg tok fuel reqs s)))
    /\ (forall i ci cj,
          nth_error (new_calls B s (snd (serve_all B cfg tok fuel reqs s))) i
          = Some ci ->
          nth_error (new_calls B s (snd (serve_all B cfg tok fuel reqs s)))
            (S i)
          = Some cj ->
          call_rng cj = match call_ret ci with
                        | Some r' => r'
                        | None => call_rng ci
                        end)
    /\ (no_state_stored_twice B (sharded_rng s)
          (new_calls B s (snd (serve_all B cfg tok fuel reqs s))) ->
        no_reuse_after_return B
          (new_calls B s (snd (serve_all B cfg tok fuel reqs s)))).
Proof.
  intros B cfg tok fuel reqs s.
  destruct (serve_all_threaded B cfg tok fuel reqs s) as (cs & Hc & Ht).
  rewrite (new_calls_app B _ _ _ Hc).
  split; [exact Hc|]. split; [exact Ht|]. split.
  - eapply threaded_next; eauto.
  - eapply threaded_stored_no_reuse; eauto.
Qed.

Lemma C6_rng_threading_witness :
  no_reuse_after_return (Stub.backend [] 2 97%Z)
    (new_calls (Stub.backend [] 2 97%Z)
       (Stub.start (Stub.backend [] 2 97%Z) 0)
       (snd (serve_all (Stub.backend [] 2 97%Z) (Stub.flags 1 2 false)
               Stub.char_tokenizer 0
               [ReqLoglikelihood ["a"; "a"]%string ["b"; "b"]%string;
                ReqLoglikelihood ["a"%string] ["b"%string];
                ReqRolling ["abc"; "ab"]%string;
                ReqGenerate ["a"%string];
                ReqGenerate ["a"; "b"]%string]
               (Stub.start (Stub.backend [] 2 97%Z) 0)))).
Proof.
  apply (proj2 (proj2 (proj2
           (C6_rng_threading (Stub.backend [] 2 97%Z)
              (Stub.flags 1 2 false) Stub.char_tokenizer 0
              [ReqLoglikelihood ["a"; "a"]%string ["b"; "b"]%string;
               ReqLoglikelihood ["a"%string] ["b"%string];
               ReqRolling ["abc"; "ab"]%string;
               ReqGenerate ["a"%string];
               ReqGenerate ["a"; "b"]%string]
              (Stub.start (Stub.backend [] 2 97%Z) 0))))).
  unfold no_state_stored_twice. vm_compute.
  repeat (constructor; [cbn; lia|]). constructor.
Defined.

(** ** Requests that fail in an executor *)

Section RequestExecutors.

Variable B : Backend.
Variable cfg : Flags.
Variable tok : Tokenizer.

Lemma invokes_only_ret {A : Type} (fn : ExecFn) (a : A) :
  invokes_only B fn (ret a).
Proof. intros s. exists []. cbn. now rewrite app_nil_r. Qed.

Lemma invokes_only_host {A : Type} (fn : ExecFn) (o : option A) :
  invokes_only B fn (host o).
Proof. intros s. exists []. destruct o; cbn; now rewrite app_nil_r. Qed.

Lemma invokes_only_out_of_fuel {A : Type} (fn : ExecFn) :
  invokes_only B fn (@out_of_fuel B A).
Proof. intros s. exists []. cbn. now rewrite app_nil_r. Qed.

Lemma invokes_only_bind {A C : Type} (fn : ExecFn) (m : M B A)
  (k : A -> M B C) :
  invokes_only B fn m -> (forall a, invokes_only B fn (k a)) ->
  invokes_only B fn (bind m k).
Proof.
  intros Hm Hk s. unfold bind.
  destruct (Hm s) as (cs1 & Hc1 & Hf1).
  destruct (m s) as [[a|e|] s1]; cbn [fst snd] in *.
  - destruct (Hk a s1) as (cs2 & Hc2 & Hf2).
    exists (cs1 ++ cs2). split.
    + now rewrite Hc2, Hc1, app_assoc.
    + apply Forall_app; auto.
  - exists cs1. auto.
  - exists cs1. auto.
Qed.

Lemma invokes_only_invoke {A : Type} (fn : ExecFn)
  (batch : ScoreBatch + GenBatch) (executor : RNG B -> option (A * RNG B)) :
  invokes_only B fn (invoke fn batch executor).
Proof.
  intros s. rewrite invoke_unfold.
  destruct (executor (sharded_rng s)) as [[a r']|]; cbn [snd after_call calls];
    eexists; (split; [reflexivity|repeat constructor]).
Qed.

Lemma invokes_only_rolling_loop (windows : list ScoreBatch) :
  forall total_loglikelihood total_is_greedy,
    invokes_only B FwdLoglikelihood
      (rolling_loop B windows total_loglikelihood total_is_greedy).
Proof.
  induction windows as [|w windows IH]; intros tl tg; cbn [rolling_loop].
  - apply invokes_only_ret.
  - apply invokes_only_bind; [apply invokes_only_invoke|]. intros r.
    apply invokes_only_bind; [apply invokes_only_host|]. intros tl'.
    apply invokes_only_bind; [apply invokes_only_host|]. intros tg'.
    apply IH.
Qed.

Lemma invokes_only_until_loop (ut : list string) (max_length : Z)
  (fuel : nat) :
  forall pf total_length total_generated iterations,
    invokes_only B FwdGreedyGenerate
      (until_loop B cfg tok fuel ut max_length pf total_length
         total_generated iterations).
Proof.
  induction fuel as [|fuel IH]; intros pf tl tg it; cbn [until_loop];
    destruct (tl <? max_length)%Z; try apply invokes_only_ret.
  - apply invokes_only_out_of_fuel.
  - apply invokes_only_bind; [apply invokes_only_host|]. intros batch.
    apply invokes_only_bind; [apply invokes_only_invoke|]. intros output.
    apply invokes_only_bind; [apply invokes_only_host|]. intros output_text.
    apply invokes_only_bind; [apply invokes_only_host|]. intros scanned.
    destruct (snd scanned); [apply invokes_only_ret|apply IH].
Qed.

(** Every invocation of a request is one of the request's executor. *)
Lemma serve_invokes_only (fuel : nat) (req : Request) (s : Session B) :
  exists cs,
    calls (snd (serve B cfg tok fuel req s)) = calls s ++ cs
    /\ Forall (fun c => call_fn c = request_executor req) cs.
Proof.
  assert (Hserve : forall (A : Type) (m : M B A) fn,
            invokes_only B fn m ->
            exists cs,
              calls (snd (let (o, s') := m s in (reply_of o, s')))
              = calls s ++ cs
              /\ Forall (fun c => call_fn c = fn) cs).
  { intros A m fn Hm. destruct (Hm s) as (cs & Hc & Hf).
    exists cs. destruct (m s). auto. }
  destruct req as [p t|t|t|p u n]; cbn [serve request_executor];
    apply Hserve.
  - unfold loglikelihood.
    apply invokes_only_bind; [apply invokes_only_host|]. intros batch.
    apply invokes_only_invoke.
  - unfold loglikelihood_rolling.
    apply invokes_only_bind; [apply invokes_only_host|]. intros a.
    apply invokes_only_bind; [apply invokes_only_host|]. intros windows.
    apply invokes_only_rolling_loop.
  - unfold generate.
    apply invokes_only_bind; [apply invokes_only_host|]. intros inputs.
    apply invokes_only_bind; [apply invokes_only_invoke|]. intros output.
    apply invokes_only_host.
  - unfold greedy_until. generalize (@nil string) as all_outputs.
    induction (combine p u) as [|[pf ut] pairs IH];
      intros all_outputs; cbn [greedy_until_pairs].
    + apply invokes_only_ret.
    + apply invokes_only_bind; [apply invokes_only_until_loop|].
      intros r. apply IH.
Qed.

(** The state stored after invocations of one executor that all
    returned. *)
Lemma threaded_returned_advance (fn : ExecFn) (cs : list (Call B)) :
  forall r r_end,
    threaded B cfg r cs r_end ->
    Forall (returned B) cs ->
    Forall (fun c => call_fn c = fn) cs ->
    r_end = Nat.iter (length cs) (executor_advance B fn) r.
Proof.
  induction cs as [|c cs IH]; intros r r_end H Hret Hfn.
  - cbn in *. congruence.
  - destruct H as (Hr & Hex & H).
    inversion Hret as [|? ? Hc Hret']; subst.
    inversion Hfn as [|? ? Hf Hfn']; subst.
    unfold returned in Hc.
    destruct (call_ret c) as [r'|]; [|contradiction].
    cbn [length]. rewrite Nat.iter_succ_r.
    rewrite (IH _ _ H Hret' Hfn'). f_equal.
    symmetry in Hex. apply executor_returns_advance in Hex.
    unfold executor_advance. destruct (call_fn c); exact Hex.
Qed.

End RequestExecutors.

(** C8, refuted as stated.  The second window of the text holds the
    token 100, which the backend rejects, so the request fails in the
    executor; the invocation on the first window had returned by then,
    and the state it returned, 4, stays stored in place of the state 0
    of before the request. *)
Lemma C8_failed_window_counterexample :
  ~ failure_leaves_state (Stub.vocab_backend 100 97%Z) (Stub.flags 0 4 false)
      Stub.char_tokenizer 0 (ReqRolling ["abcdefgh"%string])
      (Stub.start (Stub.vocab_backend 100 97%Z) 0).
Proof.
  unfold failure_leaves_state. intros H.
  assert (Hfail : fst (serve (Stub.vocab_backend 100 97%Z)
                         (Stub.flags 0 4 false) Stub.char_tokenizer 0
                         (ReqRolling ["abcdefgh"%string])
                         (Stub.start (Stub.vocab_backend 100 97%Z) 0))
                  = Failed ExecutorError) by (vm_compute; reflexivity).
  specialize (H Hfail). vm_compute in H. discriminate H.
Qed.

(** C8, amended.  If an executor invocation raises, the stored RNG state
    is left as it was: the state is replaced only by invocations that
    return.  A request that fails in an executor ends there (the raising
    invocation is the last one of the request, all earlier ones of the
    request returned, all of them are invocations of the request's own
    executor, and the caller receives the executor's exception), and the
    session then stores the state that was passed to the raising
    invocation: the state of before the request advanced once for every
    earlier invocation of the request.  For [loglikelihood] and
    [generate], which invoke an executor once, there is no earlier
    invocation, and the session stores the state of before the
    request. *)
Theorem C8_failure_keeps_state :
  forall (B : Backend) (cfg : Flags) (tok : Tokenizer) (fuel : nat)
         (req : Request) (s : Session B),
    fst (serve B cfg tok fuel req s) = Failed ExecutorError ->
    exists cs c,
      calls (snd (serve B cfg tok fuel req s)) = calls s ++ cs ++ [c]
      /\ Forall (returned B) cs
      /\ call_ret c = None
      /\ executor_returns B cfg (call_fn c) (call_batch c) (call_rng c) = None
      /\ call_rng c = sharded_rng (snd (serve B cfg tok fuel req s))
      /\ threaded B cfg (sharded_rng s) (cs ++ [c])
           (sharded_rng (snd (serve B cfg tok fuel req s)))
      /\ Forall (fun c' => call_fn c' = request_executor req) (cs ++ [c])
      /\ sharded_rng (snd (serve B cfg tok fuel req s))
         = Nat.iter (length cs) (executor_advance B (request_executor req))
             (sharded_rng s)
      /\ (single_invocation req ->
          cs = []
          /\ sharded_rng (snd (serve B cfg tok fuel req s)) = sharded_rng s).
Proof.
  intros B cfg tok fuel req s Hfail.
  destruct (serve_traced B cfg tok fuel req s) as (cs0 & Hc & Ht & Ho).
  rewrite Hfail in Ho. destruct Ho as (cs & c & -> & Hall & Hnone).
  exists cs, c.
  assert (Hend : call_rng c = sharded_rng (snd (serve B cfg tok fuel req s)))
    by (eapply threaded_last_failed; eauto).
  destruct (threaded_split B cfg _ _ _ _ Ht) as (r1 & Ht1 & Hr1 & Hret & Hfin).
  assert (Hex : executor_returns B cfg (call_fn c) (call_batch c) (call_rng c)
                = None).
  { rewrite Hr1, <- Hret. exact Hnone. }
  assert (Hfn : Forall (fun c' => call_fn c' = request_executor req)
                  (cs ++ [c])).
  { destruct (serve_invokes_only B cfg tok fuel req s) as (cs1 & Hc1 & Hf1).
    rewrite Hc in Hc1. apply app_inv_head in Hc1. now subst cs1. }
  assert (Hiter : sharded_rng (snd (serve B cfg tok fuel req s))
                  = Nat.iter (length cs)
                      (executor_advance B (request_executor req))
                      (sharded_rng s)).
  { rewrite <- Hend, Hr1.
    apply (threaded_returned_advance B cfg); auto.
    apply Forall_app in Hfn. tauto. }
  split; [exact Hc|]. split; [exact Hall|]. split; [exact Hnone|].
  split; [exact Hex|]. split; [exact Hend|]. split; [exact Ht|].
  split; [exact Hfn|]. split; [exact Hiter|].
  assert (Hone : length (calls (snd (serve B cfg tok fuel req s)))
                 <= S (length (calls s)) ->
                 cs = []
                 /\ sharded_rng (snd (serve B cfg tok fuel req s))
                    = sharded_rng s).
  { intros Hlen. rewrite Hc, !length_app in Hlen. cbn [length] in Hlen.
    assert (cs = []) as -> by (destruct cs; [reflexivity|cbn in Hlen; lia]).
    split; [reflexivity|]. exact Hiter. }
  destruct req as [p t|t|t|p u n]; cbn [single_invocation];
    try contradiction; intros _; apply Hone; cbn [serve].
  - pose proof (loglikelihood_one_call B cfg tok p t s) as H.
    now destruct (loglikelihood B cfg tok p t s).
  - pose proof (generate_one_call B cfg tok t s) as H.
    now destruct (generate B cfg tok t s).
Qed.

Lemma C8_failure_keeps_state_witness :
  exists cs c,
    calls (snd (serve (Stub.vocab_backend 100 97%Z) (Stub.flags 0 4 false)
               Stub.char_tokenizer 0 (ReqRolling ["abcdefgh"%string])
               (Stub.start (Stub.vocab_backend 100 97%Z) 0)))
    = calls (Stub.start (Stub.vocab_backend 100 97%Z) 0) ++ cs ++ [c]
    /\ Forall (returned (Stub.vocab_backend 100 97%Z)) cs
    /\ call_ret c = None
    /\ executor_returns (Stub.vocab_backend 100 97%Z) (Stub.flags 0 4 false)
         (call_fn c) (call_batch c) (call_rng c) = None
    /\ call_rng c
       = sharded_rng
           (snd (serve (Stub.vocab_backend 100 97%Z) (Stub.flags 0 4 false)
               Stub.char_tokenizer 0 (ReqRolling ["abcdefgh"%string])
               (Stub.start (Stub.vocab_backend 100 97%Z) 0)))
    /\ threaded (Stub.vocab_backend 100 97%Z) (Stub.flags 0 4 false)
         (sharded_rng (Stub.start (Stub.vocab_backend 100 97%Z) 0)) (cs ++ [c])
         (sharded_rng
            (snd (serve (Stub.vocab_backend 100 97%Z) (Stub.flags 0 4 false)
               Stub.char_tokenizer 0 (ReqRolling ["abcdefgh"%string])
               (Stub.start (Stub.vocab_backend 100 97%Z) 0))))
    /\ Forall (fun c' => call_fn c' = request_executor (ReqRolling ["abcdefgh"%string]))
         (cs ++ [c])
    /\ sharded_rng
         (snd (serve (Stub.vocab_backend 100 97%Z) (Stub.flags 0 4 false)
               Stub.char_tokenizer 0 (ReqRolling ["abcdefgh"%string])
               (Stub.start (Stub.vocab_backend 100 97%Z) 0)))
       = Nat.iter (length cs)
           (executor_advance (Stub.vocab_backend 100 97%Z)
              (request_executor (ReqRolling ["abcdefgh"%string])))
           (sharded_rng (Stub.start (Stub.vocab_backend 100 97%Z) 0))
    /\ (single_invocation (ReqRolling ["abcdefgh"%string]) ->
        cs = []
        /\ sharded_rng
             (snd (serve (Stub.vocab_backend 100 97%Z) (Stub.flags 0 4 false)
               Stub.char_tokenizer 0 (ReqRolling ["abcdefgh"%string])
               (Stub.start (Stub.vocab_backend 100 97%Z) 0)))
           = sharded_rng (Stub.start (Stub.vocab_backend 100 97%Z) 0)).
Proof.
  exact (C8_failure_keeps_state (Stub.vocab_backend 100 97%Z)
           (Stub.flags 0 4 false) Stub.char_tokenizer 0
           (ReqRolling ["abcdefgh"%string])
           (Stub.start (Stub.vocab_backend 100 97%Z) 0) eq_refl).
Defined.
